(** * HikeIQ analytics core: hill-peak detection, heart-rate recovery,
      chart downsampling and windowed estimators.

    Shallow embedding of the computations in
      - src/components/HeartRateRecoveryTable.tsx  (hillPeaks)
      - src/components/HeartRateZoneChartV2.tsx    (downsample)
      - src/components/ElevationAnalysisChart.tsx  (data: stride + VAM)
      - PaceHeartRateChart                         (data: stride + pace)

    JavaScript numbers are modelled by exact rationals [Q]; [null] by
    [None]; an indexed read outside an array (which yields [undefined] and
    then a TypeError on property access) by the error value [None] of the
    enclosing computation. *)

From Stdlib Require Import List Arith Bool Lia ZArith QArith Qabs Qminmax Lqa.
From Stdlib Require Import Sorted String Qround DecimalString.
Import ListNotations.

Open Scope Q_scope.

(* ------------------------------------------------------------------ *)
(** ** JavaScript number helpers *)

Definition Qleb (x y : Q) : bool := Qle_bool x y.
Definition Qltb (x y : Q) : bool := negb (Qle_bool y x).

(** A number compared against a running value initialised to [Infinity]. *)
Inductive ExtQ : Type :=
| Infinity : ExtQ
| Finite : Q -> ExtQ.

Definition lt_ext (x : Q) (e : ExtQ) : bool :=
  match e with Infinity => true | Finite y => Qltb x y end.

Definition gt_ext (x : Q) (e : ExtQ) : bool :=
  match e with Infinity => false | Finite y => Qltb y x end.

Definition ext_le (e : ExtQ) (y : Q) : bool :=
  match e with Infinity => false | Finite x => Qleb x y end.

(** [x!] on a [number | null] used as a number: [null] coerces to 0. *)
Definition num (o : option Q) : Q :=
  match o with Some x => x | None => 0 end.

(** [x || 0]: a falsy number ([null] or 0) is replaced by 0. *)
Definition orZero (o : option Q) : Q := num o.

(** Truthiness of a [number | null]: [null] and 0 are falsy. *)
Definition truthy (o : option Q) : bool :=
  match o with Some x => negb (Qeq_bool x 0) | None => false end.

Definition isSome {A : Type} (o : option A) : bool :=
  match o with Some _ => true | None => false end.

(* ------------------------------------------------------------------ *)
(** ** Data model (src/lib/types.ts) *)

Inductive Zone : Type := zone1 | zone2 | zone3 | zone4 | zone5.

Record TrackRecord : Type := mkTrackRecord {
  timestamp : string;
  elapsedTime : Q;
  heartRate : option Q;
  distance : option Q;
  altitude : option Q;
  speed : option Q;
  temperature : option Q;
  positionLat : option Q;
  positionLong : option Q;
  zone : Zone
}.

Inductive UnitSystem : Type := metric | imperial.

(* ------------------------------------------------------------------ *)
(** ** Hill peaks and heart-rate recovery (HeartRateRecoveryTable.tsx) *)

Record HillPeak : Type := mkHillPeak {
  hp_index : nat;
  hp_elapsedTime : Q;
  hp_altitude : Q;
  hp_peakHR : Q;
  hp_hr1min : option Q;
  hp_hr2min : option Q;
  hp_hr5min : option Q;
  hp_recovery1min : option Q;
  hp_recovery2min : option Q;
  hp_recovery5min : option Q;
  hp_distance : Q
}.

Record Neighbor : Type := mkNeighbor { nb_idx : nat; nb_altitude : Q }.

(** [records.filter(r => r.altitude !== null && r.heartRate !== null)] *)
Definition isValid (r : TrackRecord) : bool :=
  isSome (altitude r) && isSome (heartRate r).

Definition validRecords (records : list TrackRecord) : list TrackRecord :=
  filter isValid records.

Definition minValidRecords : nat := 20.
Definition peakWindowSeconds : Q := 60.
Definition minProminence : Q := 15.
Definition minTimeBetweenPeaks : Q := 120.
Definition prominenceWindowSeconds : Q := 300.
Definition recoveryTolerance : Q := 15.

(** Backward loop of [findRecordsInTimeWindow]: [before] holds
    [validRecords[i-1], validRecords[i-2], ..., validRecords[0]], the head
    being the record at index [i - 1]. *)
Fixpoint lookBackwards (centerTime windowSeconds : Q) (i : nat)
    (before : list TrackRecord) : list Neighbor :=
  match before with
  | [] => []
  | r :: rest =>
      if Qltb windowSeconds (centerTime - elapsedTime r) then []
      else mkNeighbor (pred i) (num (altitude r))
             :: lookBackwards centerTime windowSeconds (pred i) rest
  end.

(** Forward loop of [findRecordsInTimeWindow]: [after] holds
    [validRecords[i], validRecords[i+1], ...]. *)
Fixpoint lookForwards (centerTime windowSeconds : Q) (i : nat)
    (after : list TrackRecord) : list Neighbor :=
  match after with
  | [] => []
  | r :: rest =>
      if Qltb windowSeconds (elapsedTime r - centerTime) then []
      else mkNeighbor i (num (altitude r))
             :: lookForwards centerTime windowSeconds (S i) rest
  end.

Definition findRecordsInTimeWindow (vr : list TrackRecord)
    (centerIdx : nat) (windowSeconds : Q) : option (list Neighbor) :=
  match nth_error vr centerIdx with
  | None => None
  | Some center =>
      let centerTime := elapsedTime center in
      Some (lookBackwards centerTime windowSeconds centerIdx
              (rev (firstn centerIdx vr))
            ++ lookForwards centerTime windowSeconds (S centerIdx)
                 (skipn (S centerIdx) vr))
  end.

(** [neighbors.every(n => currentAlt >= n.altitude)] *)
Definition isLocalMax (currentAlt : Q) (neighbors : list Neighbor) : bool :=
  forallb (fun n => Qleb (nb_altitude n) currentAlt) neighbors.

(** The prominence loop: [after] holds the records at indices [i+1 ...]. *)
Fixpoint minAfterLoop (currentTime : Q) (minAfter : Q)
    (after : list TrackRecord) : Q :=
  match after with
  | [] => minAfter
  | r :: rest =>
      if Qltb prominenceWindowSeconds (elapsedTime r - currentTime)
      then minAfter
      else minAfterLoop currentTime
             (if Qltb (num (altitude r)) minAfter
              then num (altitude r) else minAfter)
             rest
  end.

(** [peaks[peaks.length - 1]], [undefined] on the empty array. *)
Definition lastPeakOf (peaks : list nat) : option nat :=
  match rev peaks with [] => None | p :: _ => Some p end.

(** One iteration of the scan at index [i], where [cur = validRecords[i]]
    and [after] holds the records at the indices above [i]. *)
Definition peakStep (vr : list TrackRecord) (peaks : list nat) (i : nat)
    (cur : TrackRecord) (after : list TrackRecord) : option (list nat) :=
  let currentAlt := num (altitude cur) in
  let currentTime := elapsedTime cur in
  match findRecordsInTimeWindow vr i peakWindowSeconds with
  | None => None
  | Some neighbors =>
      if negb (isLocalMax currentAlt neighbors) then Some peaks
      else
        let minAfter := minAfterLoop currentTime currentAlt after in
        let prominence := currentAlt - minAfter in
        if Qltb prominence minProminence then Some peaks
        else
          match lastPeakOf peaks with
          | None => Some (peaks ++ [i])
          | Some lastPeak =>
              match nth_error vr lastPeak with
              | None => None
              | Some lp =>
                  let timeDiff := currentTime - elapsedTime lp in
                  if Qltb timeDiff minTimeBetweenPeaks then Some peaks
                  else Some (peaks ++ [i])
              end
          end
  end.

Fixpoint peakLoop (vr : list TrackRecord) (i : nat)
    (rest : list TrackRecord) (peaks : list nat) : option (list nat) :=
  match rest with
  | [] => Some peaks
  | cur :: after =>
      match peakStep vr peaks i cur after with
      | None => None
      | Some peaks' => peakLoop vr (S i) after peaks'
      end
  end.

Definition findPeaks (vr : list TrackRecord) : option (list nat) :=
  peakLoop vr 0%nat vr [].

(** The search loop of [findHRAtOffset]; [l] holds the records from the
    current index on. *)
Fixpoint closestLoop (targetTime : Q) (l : list TrackRecord)
    (closest : option TrackRecord) (closestDiff : ExtQ)
    : option TrackRecord * ExtQ :=
  match l with
  | [] => (closest, closestDiff)
  | r :: rest =>
      let diff := Qabs (elapsedTime r - targetTime) in
      let upd := lt_ext diff closestDiff in
      let closest' := if upd then Some r else closest in
      let closestDiff' := if upd then Finite diff else closestDiff in
      if Qltb targetTime (elapsedTime r) && gt_ext diff closestDiff'
      then (closest', closestDiff')
      else closestLoop targetTime rest closest' closestDiff'
  end.

Definition findClosest (vr : list TrackRecord) (peakIdx : nat)
    (targetTime : Q) : option TrackRecord * ExtQ :=
  closestLoop targetTime (skipn peakIdx vr) None Infinity.

Definition findHRAtOffset (vr : list TrackRecord) (peakIdx : nat)
    (peakTime offsetSeconds : Q) : option Q :=
  let targetTime := peakTime + offsetSeconds in
  match findClosest vr peakIdx targetTime with
  | (Some closest, closestDiff) =>
      if ext_le closestDiff recoveryTolerance && isSome (heartRate closest)
      then heartRate closest
      else None
  | (None, _) => None
  end.

Definition recoveryOf (peakHR : Q) (hr : option Q) : option Q :=
  match hr with Some h => Some (peakHR - h) | None => None end.

(** The body of [peaks.map(peakIdx => ...)]. *)
Definition hillPeakOf (vr : list TrackRecord) (peakIdx : nat)
    : option HillPeak :=
  match nth_error vr peakIdx with
  | None => None
  | Some peakRecord =>
      let peakTime := elapsedTime peakRecord in
      let hr1min := findHRAtOffset vr peakIdx peakTime 60 in
      let hr2min := findHRAtOffset vr peakIdx peakTime 120 in
      let hr5min := findHRAtOffset vr peakIdx peakTime 300 in
      let peakHR := num (heartRate peakRecord) in
      Some (mkHillPeak peakIdx peakTime (num (altitude peakRecord)) peakHR
              hr1min hr2min hr5min
              (recoveryOf peakHR hr1min)
              (recoveryOf peakHR hr2min)
              (recoveryOf peakHR hr5min)
              (orZero (distance peakRecord) / 1000))
  end.

Fixpoint mapM {A B : Type} (f : A -> option B) (l : list A)
    : option (list B) :=
  match l with
  | [] => Some []
  | x :: xs =>
      match f x with
      | None => None
      | Some y =>
          match mapM f xs with
          | None => None
          | Some ys => Some (y :: ys)
          end
      end
  end.

Definition hasRecovery (p : HillPeak) : bool :=
  isSome (hp_recovery1min p) || isSome (hp_recovery2min p)
  || isSome (hp_recovery5min p).

(** The [hillPeaks] memo of the component. [None] stands for a TypeError. *)
Definition hillPeaks (records : list TrackRecord) : option (list HillPeak) :=
  let vr := validRecords records in
  if (List.length vr <? minValidRecords)%nat then Some []
  else
    match findPeaks vr with
    | None => None
    | Some peaks =>
        match mapM (hillPeakOf vr) peaks with
        | None => None
        | Some hillPeakData => Some (filter hasRecovery hillPeakData)
        end
    end.

(** The three fixed offsets of [findHRAtOffset(60)], [(120)], [(300)] and
    the fields of a [HillPeak] they fill. *)
Inductive RecoveryOffset : Type := after1min | after2min | after5min.

Definition offsetSeconds (o : RecoveryOffset) : Q :=
  match o with after1min => 60 | after2min => 120 | after5min => 300 end.

Definition hp_hr (o : RecoveryOffset) (p : HillPeak) : option Q :=
  match o with
  | after1min => hp_hr1min p
  | after2min => hp_hr2min p
  | after5min => hp_hr5min p
  end.

Definition hp_recovery (o : RecoveryOffset) (p : HillPeak) : option Q :=
  match o with
  | after1min => hp_recovery1min p
  | after2min => hp_recovery2min p
  | after5min => hp_recovery5min p
  end.

(* ------------------------------------------------------------------ *)
(** ** Stride downsampling *)

(** [arr.filter((_, i) => f i)], the callback seeing the index. *)
Fixpoint filterIndexed {A : Type} (f : nat -> bool) (i : nat) (l : list A)
    : list A :=
  match l with
  | [] => []
  | x :: xs =>
      if f i then x :: filterIndexed f (S i) xs
      else filterIndexed f (S i) xs
  end.

(** [i % step === 0]; with [step = 0] the remainder is [NaN] and the test
    fails. *)
Definition modIsZero (step i : nat) : bool :=
  if (step =? 0)%nat then false else (i mod step =? 0)%nat.

Definition strideFilter {A : Type} (step : nat) (l : list A) : list A :=
  filterIndexed (modIsZero step) 0%nat l.

(** [Math.ceil(n / m)] on array lengths, for [m > 0]. *)
Definition ceilDiv (n m : nat) : nat :=
  (n / m + (if (n mod m =? 0)%nat then 0 else 1))%nat.

(** [Math.max(1, Math.floor(n / m))], for [m > 0]. *)
Definition floorStride (n m : nat) : nat := Nat.max 1 (n / m).

Definition chartBudget : nat := 300.

(** Step 2 of the elevation and pace charts:
    [step = Math.ceil(points.length / 300)],
    [sampled = points.filter((_, i) => i % step === 0)]. *)
Definition ceilSample {A : Type} (budget : nat) (points : list A) : list A :=
  strideFilter (ceilDiv (List.length points) budget) points.

Definition sampled {A : Type} (points : list A) : list A :=
  ceilSample chartBudget points.

(** HeartRateZoneChartV2.tsx *)
Record ChartPoint : Type := mkChartPoint {
  cp_distance : Q;
  cp_altitude : Q;
  cp_heartRate : option Q;
  cp_zone : Zone;
  cp_temperature : option Q;
  cp_elapsedTime : Q;
  cp_timestamp : string
}.

Definition toChartPoint (r : TrackRecord) : ChartPoint :=
  mkChartPoint (num (distance r) / 1000) (num (altitude r)) (heartRate r)
    (zone r) (temperature r) (elapsedTime r) (timestamp r).

(** [downsample(records, maxPoints)].  With [maxPoints = 0] the quotient is
    [Infinity], so is the sample rate, and [i % Infinity === 0] holds at
    [i = 0] only. *)
Definition downsample (records : list TrackRecord) (maxPoints : nat)
    : list ChartPoint :=
  let kept :=
    if (maxPoints =? 0)%nat then firstn 1 records
    else strideFilter (floorStride (List.length records) maxPoints) records in
  map toChartPoint kept.

(* ------------------------------------------------------------------ *)
(** ** Windowed estimators *)

Definition windowSize : nat := 5.

(** [arr.map((p, i, arr) => f i p)] where [f] may fail. *)
Fixpoint mapiM {A B : Type} (f : nat -> A -> option B) (i : nat)
    (l : list A) : option (list B) :=
  match l with
  | [] => Some []
  | x :: xs =>
      match f i x with
      | None => None
      | Some y =>
          match mapiM f (S i) xs with
          | None => None
          | Some ys => Some (y :: ys)
          end
      end
  end.

Fixpoint mapi {A B : Type} (f : nat -> A -> B) (i : nat) (l : list A)
    : list B :=
  match l with
  | [] => []
  | x :: xs => f i x :: mapi f (S i) xs
  end.

(** *** Vertical speed (ElevationAnalysisChart.tsx) *)

Record ElevationPoint : Type := mkElevationPoint {
  ep_distance : Q;
  ep_altitude : Q;
  ep_vam : Q
}.

Definition distanceConversion (units : UnitSystem) : Q :=
  match units with imperial => 0.000621371 | metric => 0.001 end.

Definition elevationConversion (units : UnitSystem) : Q :=
  match units with imperial => 3.28084 | metric => 1 end.

Definition vamLimit (units : UnitSystem) : Q :=
  match units with imperial => 6000 | metric => 2000 end.

(** [Math.max(0, i - windowSize)]: the subtraction on [nat] already stops
    at 0. *)
Definition startIdxOf (i : nat) : nat := Nat.max 0 (i - windowSize).

Definition endIdxOf {A : Type} (arr : list A) (i : nat) : nat :=
  Nat.min (List.length arr - 1) (i + windowSize).

Definition clampVam (limit vam : Q) : Q :=
  let vam1 := if Qltb limit vam then limit else vam in
  if Qltb vam1 (- limit) then - limit else vam1.

Definition vamOf (units : UnitSystem) (startP endP : TrackRecord) : Q :=
  let timeDiff := (elapsedTime endP - elapsedTime startP) / 3600 in
  let altDiffMeters := num (altitude endP) - num (altitude startP) in
  let vam :=
    if Qltb 0.001 timeDiff
    then (altDiffMeters * elevationConversion units) / timeDiff
    else 0 in
  clampVam (vamLimit units) vam.

Definition elevationPointAt (units : UnitSystem) (arr : list TrackRecord)
    (i : nat) (p : TrackRecord) : option ElevationPoint :=
  match nth_error arr (startIdxOf i), nth_error arr (endIdxOf arr i) with
  | Some startP, Some endP =>
      Some (mkElevationPoint
              (orZero (distance p) * distanceConversion units)
              (orZero (altitude p) * elevationConversion units)
              (vamOf units startP endP))
  | _, _ => None
  end.

(** [r.distance !== null && r.altitude !== null && r.elapsedTime !== null];
    [elapsedTime] is a number in every [TrackRecord], so its test always
    holds. *)
Definition hasElevation (r : TrackRecord) : bool :=
  isSome (distance r) && isSome (altitude r).

Definition elevationSampled (records : list TrackRecord)
    : list TrackRecord :=
  sampled (filter hasElevation records).

Definition elevationData (units : UnitSystem) (records : list TrackRecord)
    : option (list ElevationPoint) :=
  let arr := elevationSampled records in
  mapiM (elevationPointAt units arr) 0%nat arr.

(** *** Smoothed pace (PaceHeartRateChart) *)

Record PacePoint : Type := mkPacePoint {
  pp_distance : Q;
  pp_heartRate : option Q;
  pp_pace : Q;
  pp_rawSpeed : Q
}.

Definition paceMeters (units : UnitSystem) : Q :=
  match units with imperial => 1609.34 | metric => 1000 end.

(** The records [arr[j]] for [j] from [startIdxOf i] to [endIdxOf arr i]. *)
Definition speedWindow (arr : list TrackRecord) (i : nat)
    : list TrackRecord :=
  firstn (S (endIdxOf arr i) - startIdxOf i) (skipn (startIdxOf i) arr).

(** The summing loop: [if (arr[j].speed) { sumSpeed += ...; count++ }]. *)
Fixpoint speedLoop (window : list TrackRecord) (sumSpeed : Q) (count : nat)
    : Q * nat :=
  match window with
  | [] => (sumSpeed, count)
  | r :: rest =>
      if truthy (speed r)
      then speedLoop rest (sumSpeed + num (speed r)) (S count)
      else speedLoop rest sumSpeed count
  end.

Definition avgSpeedOf (window : list TrackRecord) : Q :=
  let '(sumSpeed, count) := speedLoop window 0 0%nat in
  if (0 <? count)%nat then sumSpeed / inject_Z (Z.of_nat count) else 0.

Definition minPaceSpeed : Q := 0.1.
Definition paceCap : Q := 20.

Definition paceOf (units : UnitSystem) (avgSpeed : Q) : Q :=
  let pace :=
    if Qltb minPaceSpeed avgSpeed
    then (paceMeters units / avgSpeed) / 60 else 0 in
  if Qltb paceCap pace then paceCap else pace.

Definition pacePointAt (units : UnitSystem) (arr : list TrackRecord)
    (i : nat) (p : TrackRecord) : PacePoint :=
  let avgSpeed := avgSpeedOf (speedWindow arr i) in
  mkPacePoint (orZero (distance p) * distanceConversion units)
    (heartRate p) (paceOf units avgSpeed) avgSpeed.

(** [r.distance !== null && r.heartRate !== null && r.speed !== null] *)
Definition hasPace (r : TrackRecord) : bool :=
  isSome (distance r) && isSome (heartRate r) && isSome (speed r).

Definition paceSampled (records : list TrackRecord) : list TrackRecord :=
  sampled (filter hasPace records).

Definition paceData (units : UnitSystem) (records : list TrackRecord)
    : list PacePoint :=
  let arr := paceSampled records in
  mapi (pacePointAt units arr) 0%nat arr.

(* ------------------------------------------------------------------ *)
(** ** Reference notions used in the statements *)

(** The Sample Series invariant: [elapsedTime] never decreases. *)
Definition timeLe (a b : TrackRecord) : Prop :=
  elapsedTime a <= elapsedTime b.

Definition nonDecreasingTime (records : list TrackRecord) : Prop :=
  Sorted timeLe records.

Definition timeAt (vr : list TrackRecord) (i : nat) : Q :=
  match nth_error vr i with Some r => elapsedTime r | None => 0 end.

Definition altAt (vr : list TrackRecord) (i : nat) : Q :=
  match nth_error vr i with Some r => num (altitude r) | None => 0 end.

(** The prominence the scan computes for index [i]. *)
Definition prominenceAt (vr : list TrackRecord) (i : nat) : Q :=
  altAt vr i - minAfterLoop (timeAt vr i) (altAt vr i) (skipn (S i) vr).

(** Prominence as the specification words it: the samples from [i] on whose
    time lies within the following 300 seconds, the least altitude among
    them, and the drop from the candidate to it. *)
Definition followingWindow (vr : list TrackRecord) (i : nat)
    : list TrackRecord :=
  filter (fun r => Qleb (elapsedTime r - timeAt vr i) prominenceWindowSeconds)
    (skipn i vr).

Definition minAltitudeFollowing (vr : list TrackRecord) (i : nat) : Q :=
  fold_right Qmin (altAt vr i)
    (map (fun r => num (altitude r)) (followingWindow vr i)).

Definition prominenceSpec (vr : list TrackRecord) (i : nat) : Q :=
  altAt vr i - minAltitudeFollowing vr i.

(** The samples the pace loop counts: those whose speed is truthy. *)
Definition movingSamples (window : list TrackRecord) : list TrackRecord :=
  filter (fun r => truthy (speed r)) window.

Definition sumQ (l : list Q) : Q := fold_right Qplus 0 l.

(** Arithmetic mean of a list of numbers, 0 for the empty list. *)
Definition meanQ (l : list Q) : Q :=
  match l with
  | [] => 0
  | _ => sumQ l / inject_Z (Z.of_nat (List.length l))
  end.

(** The mean as the specification words it: over the speed values that are
    present, a recorded 0 included. *)
Fixpoint presentSpeeds (window : list TrackRecord) : list Q :=
  match window with
  | [] => []
  | r :: rest =>
      match speed r with
      | Some v => v :: presentSpeeds rest
      | None => presentSpeeds rest
      end
  end.

Definition meanOfPresentSpeeds (window : list TrackRecord) : Q :=
  meanQ (presentSpeeds window).

(** Index [i] passed the local-maximum and the prominence test. *)
Definition accepted (vr : list TrackRecord) (i : nat) : Prop :=
  exists cur nbrs,
    nth_error vr i = Some cur /\
    findRecordsInTimeWindow vr i peakWindowSeconds = Some nbrs /\
    isLocalMax (num (altitude cur)) nbrs = true /\
    minProminence <= prominenceAt vr i.

Definition spacedAfter (vr : list TrackRecord) (p q : nat) : Prop :=
  timeAt vr p + minTimeBetweenPeaks <= timeAt vr q.

(** Loop invariant of the scan when it reaches index [i]. *)
Definition PeakInv (vr : list TrackRecord) (i : nat) (peaks : list nat)
    : Prop :=
  Forall (fun p => (p < i)%nat /\ accepted vr p) peaks /\
  StronglySorted (spacedAfter vr) peaks.

(** Membership in the prominence window that starts at time [t]. *)
Definition withinProminence (t : Q) (r : TrackRecord) : bool :=
  Qleb (elapsedTime r - t) prominenceWindowSeconds.

(** What the search state holds after the records [scanned] were examined:
    nothing yet, or one of them together with its distance to the target. *)
Definition ClosestSeen (target : Q) (scanned : list TrackRecord)
    (st : option TrackRecord * ExtQ) : Prop :=
  match st with
  | (None, Infinity) => True
  | (Some r, Finite d) =>
      In r scanned /\ d = Qabs (elapsedTime r - target)
  | _ => False
  end.

(** The stronger invariant on a sorted array: the stored record is closest
    among all those covered so far. *)
Definition ClosestBest (target : Q) (covered : list TrackRecord)
    (st : option TrackRecord * ExtQ) : Prop :=
  match st with
  | (None, Infinity) => covered = []
  | (Some r, Finite d) =>
      In r covered /\ d = Qabs (elapsedTime r - target) /\
      forall r', In r' covered -> d <= Qabs (elapsedTime r' - target)
  | _ => False
  end.

(* ------------------------------------------------------------------ *)
(** ** Zone segments (HeartRateZoneChartV2.tsx) *)

(** [a === b] on zone labels. *)
Definition Zone_eqb (a b : Zone) : bool :=
  match a, b with
  | zone1, zone1 | zone2, zone2 | zone3, zone3
  | zone4, zone4 | zone5, zone5 => true
  | _, _ => false
  end.

Record ZoneSegment : Type := mkZoneSegment {
  seg_zone : Zone;
  seg_points : list ChartPoint
}.

(** [currentSegment.points.push(point)] *)
Definition pushPoint (s : ZoneSegment) (point : ChartPoint) : ZoneSegment :=
  mkZoneSegment (seg_zone s) (seg_points s ++ [point]).

(** The loop of [groupByZone] over the points from index 1 on. *)
Fixpoint groupLoop (rest : list ChartPoint) (segments : list ZoneSegment)
    (currentSegment : ZoneSegment) : list ZoneSegment :=
  match rest with
  | [] => segments ++ [currentSegment]
  | point :: rest' =>
      if Zone_eqb (cp_zone point) (seg_zone currentSegment)
      then groupLoop rest' segments (pushPoint currentSegment point)
      else groupLoop rest' (segments ++ [pushPoint currentSegment point])
             (mkZoneSegment (cp_zone point) [point])
  end.

Definition groupByZone (points : list ChartPoint) : list ZoneSegment :=
  match points with
  | [] => []
  | p0 :: rest => groupLoop rest [] (mkZoneSegment (cp_zone p0) [p0])
  end.

(** Reading the points back from the segments: the first segment whole,
    every later one without its first point, which repeats the transition
    point that closed the segment before it. *)
Definition joinSegments (segs : list ZoneSegment) : list ChartPoint :=
  match segs with
  | [] => []
  | s :: rest => seg_points s ++ flat_map (fun s' => tl (seg_points s')) rest
  end.

(** A segment closed by a transition: one or more points of its zone,
    then the transition point, whose zone differs. *)
Definition ClosedSegment (s : ZoneSegment) : Prop :=
  exists body lastp,
    seg_points s = body ++ [lastp] /\ body <> [] /\
    Forall (fun p => cp_zone p = seg_zone s) body /\
    cp_zone lastp <> seg_zone s.

(** The segment still open at the end: one or more points, all of its
    zone. *)
Definition OpenSegment (s : ZoneSegment) : Prop :=
  seg_points s <> [] /\
  Forall (fun p => cp_zone p = seg_zone s) (seg_points s).

(** Each segment ends with the point the next one starts with. *)
Fixpoint linked (l : list ZoneSegment) : Prop :=
  match l with
  | s1 :: rest =>
      match rest with
      | s2 :: _ =>
          hd_error (rev (seg_points s1)) = hd_error (seg_points s2)
          /\ linked rest
      | [] => True
      end
  | [] => True
  end.

(** Number of adjacent pairs of points whose zones differ. *)
Fixpoint zoneChanges (points : list ChartPoint) : nat :=
  match points with
  | [] => 0
  | p :: rest =>
      match rest with
      | [] => 0
      | q :: _ =>
          ((if Zone_eqb (cp_zone q) (cp_zone p) then 0 else 1)
           + zoneChanges rest)%nat
      end
  end.

(* ------------------------------------------------------------------ *)
(** ** Elevation profile of the recovery table
       (HeartRateRecoveryTable.tsx, [chartData]) *)

Record ProfilePoint : Type := mkProfilePoint {
  pf_distance : Q;
  pf_altitude : Q
}.

(** [r.altitude !== null && r.distance !== null] *)
Definition hasProfile (r : TrackRecord) : bool :=
  isSome (altitude r) && isSome (distance r).

(** km to mi, or 1. *)
Definition kmConversion (units : UnitSystem) : Q :=
  match units with imperial => 0.621371 | metric => 1 end.

Definition profileBudget : nat := 200.

Definition toProfilePoint (units : UnitSystem) (r : TrackRecord)
    : ProfilePoint :=
  mkProfilePoint (orZero (distance r) / 1000 * kmConversion units)
    (orZero (altitude r) * elevationConversion units).

Definition recoveryChartData (units : UnitSystem)
    (records : list TrackRecord) : list ProfilePoint :=
  let valid := filter hasProfile records in
  if (List.length valid =? 0)%nat then []
  else
    let step := floorStride (List.length valid) profileBudget in
    map (toProfilePoint units) (strideFilter step valid).

(* ------------------------------------------------------------------ *)
(** ** Map centre (MapView, [calculateCenter]) *)

(** [r.positionLat && r.positionLong] *)
Definition hasPosition (r : TrackRecord) : bool :=
  truthy (positionLat r) && truthy (positionLong r).

(** Longitude first, as MapLibre expects. *)
Definition defaultCenter : Q * Q := (- 74.4057, 40.0583).

Definition calculateCenter (tracks : list (list TrackRecord)) : Q * Q :=
  let allPoints := filter hasPosition (List.concat tracks) in
  if (List.length allPoints =? 0)%nat then defaultCenter
  else
    let sumLat :=
      fold_left (fun sum r => sum + orZero (positionLat r)) allPoints 0 in
    let sumLng :=
      fold_left (fun sum r => sum + orZero (positionLong r)) allPoints 0 in
    let count := inject_Z (Z.of_nat (List.length allPoints)) in
    (sumLng / count, sumLat / count).

(* ------------------------------------------------------------------ *)
(** ** Zone times and their shares (types.ts, zones.ts, ZoneBreakdownCard,
       ZoneBar) *)

Record ZoneTimes : Type := mkZoneTimes {
  zt_zone1 : Q; zt_zone2 : Q; zt_zone3 : Q; zt_zone4 : Q; zt_zone5 : Q
}.

(** [zones[key]] *)
Definition zoneTime (zones : ZoneTimes) (key : Zone) : Q :=
  match key with
  | zone1 => zt_zone1 zones
  | zone2 => zt_zone2 zones
  | zone3 => zt_zone3 zones
  | zone4 => zt_zone4 zones
  | zone5 => zt_zone5 zones
  end.

Definition ZONE_KEYS : list Zone := [zone1; zone2; zone3; zone4; zone5].

Definition zoneName (key : Zone) : string :=
  match key with
  | zone1 => "Recovery" | zone2 => "Aerobic" | zone3 => "Tempo"
  | zone4 => "Threshold" | zone5 => "VO2max"
  end%string.

Definition zoneColor (key : Zone) : string :=
  match key with
  | zone1 => "#208581" | zone2 => "#374D81" | zone3 => "#F3D16E"
  | zone4 => "#EA4B60" | zone5 => "#C3012F"
  end%string.

(** [ZONE_KEYS.reduce((sum, key) => sum + zones[key], 0)] *)
Definition zoneTotal (zones : ZoneTimes) : Q :=
  fold_left (fun sum key => sum + zoneTime zones key) ZONE_KEYS 0.

(** [total > 0 ? (zones[key] / total) * 100 : 0] *)
Definition zonePercentage (zones : ZoneTimes) (key : Zone) : Q :=
  let total := zoneTotal zones in
  if Qltb 0 total then zoneTime zones key / total * 100 else 0.

Definition percentages (zones : ZoneTimes) : list Q :=
  map (zonePercentage zones) ZONE_KEYS.

(** [Math.max(x, ...rest)] *)
Definition mathMaxOf (x : Q) (rest : list Q) : Q := fold_left Qmax rest x.

(** [Math.min(x, ...rest)] *)
Definition mathMinOf (x : Q) (rest : list Q) : Q := fold_left Qmin rest x.

(** [Math.max(...percentages)], over the five zone shares. *)
Definition maxPercentage (zones : ZoneTimes) : Q :=
  mathMaxOf (zonePercentage zones zone1)
    (map (zonePercentage zones) [zone2; zone3; zone4; zone5]).

(** [maxPercentage > 0 ? (percentage / maxPercentage) * 100 : 0] *)
Definition scaledWidth (zones : ZoneTimes) (key : Zone) : Q :=
  if Qltb 0 (maxPercentage zones)
  then zonePercentage zones key / maxPercentage zones * 100 else 0.

(** The widths [ZoneBar] draws: nothing when the total is 0, otherwise one
    segment per zone whose share is not 0. *)
Definition zoneBarSegments (zones : ZoneTimes) : list (Zone * Q) :=
  let total := zoneTotal zones in
  if Qeq_bool total 0 then []
  else
    filter (fun seg => negb (Qeq_bool (snd seg) 0))
      (map (fun key => (key, zoneTime zones key / total * 100)) ZONE_KEYS).

(** [ZONE_KEYS.reduce((max, key) => zones[key] > zones[max] ? key : max,
    ZONE_KEYS[0])] of the activity detail view. *)
Definition dominantZone (zones : ZoneTimes) : Zone :=
  fold_left
    (fun max key =>
       if Qltb (zoneTime zones max) (zoneTime zones key) then key else max)
    ZONE_KEYS zone1.

(** Position of a zone in [ZONE_KEYS]. *)
Definition zoneRank (key : Zone) : nat :=
  match key with
  | zone1 => 0 | zone2 => 1 | zone3 => 2 | zone4 => 3 | zone5 => 4
  end.

(* ------------------------------------------------------------------ *)
(** ** Per-zone heart-rate statistics (HeartRateAnalysisTable.tsx) *)

Record ZoneStat : Type := mkZoneStat {
  zs_count : nat;
  zs_sumHR : Q;
  zs_minHR : ExtQ;
  zs_maxHR : Q
}.

Definition emptyStat : ZoneStat := mkZoneStat 0 0 Infinity 0.

(** [Math.min(current.minHR, hr)], the minimum starting at [Infinity]. *)
Definition minExt (e : ExtQ) (hr : Q) : Q :=
  match e with Infinity => hr | Finite m => Qmin m hr end.

Definition addHeartRate (s : ZoneStat) (hr : Q) : ZoneStat :=
  mkZoneStat (S (zs_count s)) (zs_sumHR s + hr)
    (Finite (minExt (zs_minHR s) hr)) (Qmax (zs_maxHR s) hr).

(** The object with one entry per zone, updated in place. *)
Definition ZoneStats : Type := Zone -> ZoneStat.

Definition setStat (st : ZoneStats) (z : Zone) (s : ZoneStat) : ZoneStats :=
  fun z' => if Zone_eqb z' z then s else st z'.

(** The body of [records.forEach]; a zone label is a non-empty string, so
    [r.zone] and [zoneStats[r.zone]] are always truthy. *)
Definition aggregateStep (st : ZoneStats) (r : TrackRecord) : ZoneStats :=
  match heartRate r with
  | Some hr => setStat st (zone r) (addHeartRate (st (zone r)) hr)
  | None => st
  end.

Definition zoneStats (records : list TrackRecord) : ZoneStats :=
  fold_left aggregateStep records (fun _ => emptyStat).

(** [Math.round]: the nearest integer, halves going up. *)
Definition mathRound (x : Q) : Z := Qfloor (x + (1 # 2)).

Record ZoneRow : Type := mkZoneRow {
  row_key : Zone;
  row_name : string;
  row_color : string;
  row_duration : Q;
  row_percent : Q;
  row_avgHR : Z;
  row_minHR : ExtQ;
  row_maxHR : Q;
  row_hasData : bool
}.

Definition zoneRow (st : ZoneStats) (zones : ZoneTimes) (totalDuration : Q)
    (key : Zone) : ZoneRow :=
  let s := st key in
  let duration := zoneTime zones key in
  let percent :=
    if Qltb 0 totalDuration then duration / totalDuration * 100 else 0 in
  let hasData := (0 <? zs_count s)%nat in
  mkZoneRow key (zoneName key) (zoneColor key) duration percent
    (if hasData
     then mathRound (zs_sumHR s / inject_Z (Z.of_nat (zs_count s)))
     else 0%Z)
    (if hasData then zs_minHR s else Finite 0)
    (if hasData then zs_maxHR s else 0)
    hasData.

Definition heartRateStats (records : list TrackRecord) (zones : ZoneTimes)
    (totalDuration : Q) : list ZoneRow :=
  map (zoneRow (zoneStats records) zones totalDuration) ZONE_KEYS.

(** The heart rates recorded in zone [z], in record order. *)
Fixpoint heartRatesIn (z : Zone) (records : list TrackRecord) : list Q :=
  match records with
  | [] => []
  | r :: rest =>
      match heartRate r with
      | Some hr =>
          if Zone_eqb (zone r) z then hr :: heartRatesIn z rest
          else heartRatesIn z rest
      | None => heartRatesIn z rest
      end
  end.

(** What a zone's entry holds once the heart rates [hrs] were added to
    it. *)
Definition SummarisesHR (hrs : list Q) (s : ZoneStat) : Prop :=
  zs_count s = List.length hrs /\
  zs_sumHR s == sumQ hrs /\
  match hrs with
  | [] => zs_minHR s = Infinity
  | _ => exists m, zs_minHR s = Finite m /\ In m hrs /\
                   forall h, In h hrs -> m <= h
  end /\
  (zs_maxHR s = 0 \/ In (zs_maxHR s) hrs) /\
  0 <= zs_maxHR s /\
  forall h, In h hrs -> h <= zs_maxHR s.

(* ------------------------------------------------------------------ *)
(** ** Activity totals (ActivityDetailView) *)

(** [records.filter(r => r.f !== null).map(r => r.f!)] *)
Definition presentValues (f : TrackRecord -> option Q)
    (records : list TrackRecord) : list Q :=
  map (fun r => num (f r)) (filter (fun r => isSome (f r)) records).

(** The reducer of [elevationGain] from index 1 on; [prev] is
    [altitudes[i - 1]]. *)
Fixpoint gainLoop (prev : Q) (rest : list Q) (gain : Q) : Q :=
  match rest with
  | [] => gain
  | alt :: rest' =>
      let diff := alt - prev in
      gainLoop alt rest' (gain + (if Qltb 0 diff then diff else 0))
  end.

Definition elevationGainOf (altitudes : list Q) : Q :=
  if (1 <? List.length altitudes)%nat
  then match altitudes with
       | [] => 0
       | first :: rest => gainLoop first rest 0
       end
  else 0.

Definition elevationGain (records : list TrackRecord) : Q :=
  elevationGainOf (presentValues altitude records).

(** [altitudes.length > 0 ? Math.min(...altitudes) : null] *)
Definition minAltitude (records : list TrackRecord) : option Q :=
  match presentValues altitude records with
  | [] => None
  | a :: rest => Some (mathMinOf a rest)
  end.

Definition maxAltitude (records : list TrackRecord) : option Q :=
  match presentValues altitude records with
  | [] => None
  | a :: rest => Some (mathMaxOf a rest)
  end.

(* ------------------------------------------------------------------ *)
(** ** Duration and time labels (zones.ts, HeartRateZoneChartV2.tsx) *)

(** Truncation toward zero, the integer quotient behind [%]. *)
Definition jsTrunc (x : Q) : Z :=
  if Qltb x 0 then Qceiling x else Qfloor x.

(** [a % b] on numbers. *)
Definition jsRem (a b : Q) : Q := a - b * inject_Z (jsTrunc (a / b)).

(** [String(n)] for an integer. *)
Definition intToString (z : Z) : string :=
  NilZero.string_of_int (Z.to_int z).

(** [s.padStart(2, "0")] *)
Definition padStart2 (s : string) : string :=
  match String.length s with
  | 0%nat => "00"
  | 1%nat => "0" ++ s
  | _ => s
  end%string.

Definition hoursOf (seconds : Q) : Z := Qfloor (seconds / 3600).
Definition minutesOf (seconds : Q) : Z := Qfloor (jsRem seconds 3600 / 60).
Definition secsOf (seconds : Q) : Z := Qfloor (jsRem seconds 60).

Definition formatDuration (seconds : Q) : string :=
  let hours := hoursOf seconds in
  let minutes := minutesOf seconds in
  let secs := secsOf seconds in
  (if (0 <? hours)%Z
   then intToString hours ++ "h " ++ intToString minutes ++ "m"
   else if (0 <? minutes)%Z
   then intToString minutes ++ "m " ++ intToString secs ++ "s"
   else intToString secs ++ "s")%string.

Definition formatTime (seconds : Q) : string :=
  let h := hoursOf seconds in
  let m := minutesOf seconds in
  let s := secsOf seconds in
  (if (0 <? h)%Z
   then intToString h ++ ":" ++ padStart2 (intToString m) ++ ":"
        ++ padStart2 (intToString s)
   else intToString m ++ ":" ++ padStart2 (intToString s))%string.

(* ------------------------------------------------------------------ *)
(** ** Week columns of the activity heatmap (ActivityHeatmap) *)

(** The [days.forEach] loop: [weeksArray] and [currentWeek]. *)
Fixpoint weeksLoop {A : Type} (days : list A) (weeksArray : list (list A))
    (currentWeek : list A) : list (list A) * list A :=
  match days with
  | [] => (weeksArray, currentWeek)
  | day :: rest =>
      let week := currentWeek ++ [day] in
      if (List.length week =? 7)%nat
      then weeksLoop rest (weeksArray ++ [week]) []
      else weeksLoop rest weeksArray week
  end.

Definition groupWeeks {A : Type} (days : list A) : list (list A) :=
  let '(weeksArray, currentWeek) := weeksLoop days [] [] in
  if (0 <? List.length currentWeek)%nat then weeksArray ++ [currentWeek]
  else weeksArray.

(* ------------------------------------------------------------------ *)
(** ** Concrete series *)

(** A record with every numeric field present. *)
Definition point (t d alt hr sp : Q) : TrackRecord :=
  mkTrackRecord EmptyString t (Some hr) (Some d) (Some alt) (Some sp)
    None None None zone1.

(** One sample every 10 seconds for 400 seconds: a climb from 50 m to a
    100 m summit at 100 s, a descent to 0 m, then level ground; the heart
    rate falls by one beat per sample. *)
Definition hillSeries : list TrackRecord :=
  map (fun i =>
         let z := Z.of_nat i in
         point (inject_Z (10 * z)) (inject_Z (30 * z))
           (inject_Z (Z.max 0 (100 - 5 * Z.abs (z - 10))))
           (inject_Z (170 - z)) 3)
      (seq 0 40).

(** The same timing on level ground. *)
Definition flatSeries : list TrackRecord :=
  map (fun i =>
         let z := Z.of_nat i in
         point (inject_Z (10 * z)) (inject_Z (30 * z)) 100 150 3)
      (seq 0 25).

(** Three samples with a 50 m summit between them. *)
Definition sparseSeries : list TrackRecord :=
  [point 0 0 0 120 1; point 100 100 50 150 1; point 400 400 0 130 1].

(** Five samples one second apart. *)
Definition fiveRecords : list TrackRecord :=
  [point 0 0 10 120 1; point 1 1 11 121 1; point 2 2 12 122 1;
   point 3 3 13 123 1; point 4 4 14 124 1].

(** A stop followed by a 3 m/s sample. *)
Definition stopAndGo : list TrackRecord :=
  [point 0 0 10 140 0; point 10 30 10 140 3].

(** A single sample moving at exactly 0.1 m/s. *)
Definition crawl : list TrackRecord := [point 0 0 10 140 0.1].

(** The record the summit of [hillSeries] gives rise to. *)
Definition hillSummit : HillPeak :=
  mkHillPeak 10 100 100 160 (Some 154) (Some 148) (Some 131)
    (Some 6) (Some 12) (Some 29) 0.300.

(** Two summits of 100 m, at 100 s and at 450 s, in 800 seconds. *)
Definition twinHillSeries : list TrackRecord :=
  map (fun i =>
         let z := Z.of_nat i in
         point (inject_Z (10 * z)) (inject_Z (30 * z))
           (inject_Z (Z.max 0 (100 - 5 * Z.abs (z - 10))
                      + Z.max 0 (100 - 5 * Z.abs (z - 45))))
           (inject_Z (170 - z)) 3)
      (seq 0 80).

Definition twinSummits : list HillPeak :=
  [mkHillPeak 10 100 100 160 (Some 154) (Some 148) (Some 130)
     (Some 6) (Some 12) (Some 30) 0.300;
   mkHillPeak 45 450 100 125 (Some 119) (Some 113) (Some 95)
     (Some 6) (Some 12) (Some 30) 1.350].

(** Three samples standing still. *)
Definition restStop : list TrackRecord :=
  [point 0 0 10 120 0; point 10 0 10 118 0; point 20 0 10 116 0].

(** Five samples passing through three zones. *)
Definition zonedRecord (t hr : Q) (z : Zone) : TrackRecord :=
  mkTrackRecord EmptyString t (Some hr) (Some t) (Some 100) (Some 1)
    None None None z.

Definition zonedRecords : list TrackRecord :=
  [zonedRecord 0 100 zone1; zonedRecord 1 110 zone1; zonedRecord 2 130 zone2;
   zonedRecord 3 135 zone2; zonedRecord 4 150 zone3].

Definition zonedTimes : ZoneTimes := mkZoneTimes 600 1200 300 0 0.

Fixpoint timeSortedb (l : list TrackRecord) : bool :=
  match l with
  | [] => true
  | a :: rest =>
      match rest with
      | [] => true
      | b :: _ => Qleb (elapsedTime a) (elapsedTime b) && timeSortedb rest
      end
  end.

(* ------------------------------------------------------------------ *)
(** ** Comparison lemmas *)

Lemma Qltb_true (x y : Q) : Qltb x y = true <-> x < y.
Proof.
  unfold Qltb. rewrite negb_true_iff. split; intro H.
  - apply Qnot_le_lt. intro L. apply Qle_bool_iff in L. congruence.
  - destruct (Qle_bool y x) eqn:E; [|reflexivity].
    apply Qle_bool_iff in E. lra.
Qed.

Lemma Qltb_false (x y : Q) : Qltb x y = false <-> y <= x.
Proof.
  unfold Qltb. rewrite negb_false_iff. apply Qle_bool_iff.
Qed.

Lemma Qleb_true (x y : Q) : Qleb x y = true <-> x <= y.
Proof. apply Qle_bool_iff. Qed.

Lemma Qleb_false (x y : Q) : Qleb x y = false <-> y < x.
Proof.
  unfold Qleb. split; intro H.
  - apply Qnot_le_lt. intro L. apply Qle_bool_iff in L. congruence.
  - destruct (Qle_bool x y) eqn:E; [|reflexivity].
    apply Qle_bool_iff in E. lra.
Qed.

Ltac qprop :=
  repeat match goal with
  | H : Qltb _ _ = true |- _ => apply Qltb_true in H
  | H : Qltb _ _ = false |- _ => apply Qltb_false in H
  | H : Qleb _ _ = true |- _ => apply Qleb_true in H
  | H : Qleb _ _ = false |- _ => apply Qleb_false in H
  end.

(* ------------------------------------------------------------------ *)
(** ** List lemmas *)

Lemma skipn_cons_inv {A : Type} (l : list A) :
  forall i x rest, skipn i l = x :: rest ->
    nth_error l i = Some x /\ skipn (S i) l = rest.
Proof.
  induction l as [|a l IH]; intros i x rest H.
  - destruct i; discriminate.
  - destruct i as [|i].
    + simpl in H. inversion H; subst. split; reflexivity.
    + simpl in H. apply IH in H. exact H.
Qed.

Lemma nth_error_skipn_cons {A : Type} (l : list A) :
  forall i x, nth_error l i = Some x -> skipn i l = x :: skipn (S i) l.
Proof.
  induction l as [|a l IH]; intros i x H.
  - destruct i; discriminate.
  - destruct i as [|i].
    + simpl in H. inversion H; subst. reflexivity.
    + simpl in H. apply IH in H. exact H.
Qed.

Lemma skipn_nil_length {A : Type} (l : list A) :
  forall i, skipn i l = [] -> (List.length l <= i)%nat.
Proof.
  induction l as [|a l IH]; intros i H; simpl.
  - lia.
  - destruct i; [discriminate|]. simpl in H. apply IH in H. lia.
Qed.

Lemma lastPeakOf_nil : lastPeakOf [] = None.
Proof. reflexivity. Qed.

Lemma lastPeakOf_snoc (l : list nat) (x : nat) :
  lastPeakOf (l ++ [x]) = Some x.
Proof. unfold lastPeakOf. rewrite rev_app_distr. reflexivity. Qed.

Lemma lastPeakOf_None (l : list nat) : lastPeakOf l = None -> l = [].
Proof.
  destruct l as [|a l] using rev_ind; [reflexivity|].
  rewrite lastPeakOf_snoc. discriminate.
Qed.

Lemma lastPeakOf_Some (l : list nat) (x : nat) :
  lastPeakOf l = Some x -> exists l', l = l' ++ [x].
Proof.
  destruct l as [|a l] using rev_ind; [discriminate|].
  rewrite lastPeakOf_snoc. intro H. inversion H; subst. now exists l.
Qed.

Section StronglySortedFacts.
Context {A : Type} (R : A -> A -> Prop).

Lemma StronglySorted_snoc (l : list A) (x : A) :
  StronglySorted R l -> Forall (fun a => R a x) l ->
  StronglySorted R (l ++ [x]).
Proof.
  induction l as [|a l IH]; intros HS HF; simpl.
  - constructor; constructor.
  - apply StronglySorted_inv in HS. destruct HS as [HS Ha].
    inversion HF; subst. constructor.
    + apply IH; assumption.
    + apply Forall_app. split; [assumption|]. constructor; [assumption|constructor].
Qed.

Lemma StronglySorted_snoc_inv (l : list A) (x : A) :
  StronglySorted R (l ++ [x]) -> Forall (fun a => R a x) l.
Proof.
  induction l as [|a l IH]; intro HS; simpl in *.
  - constructor.
  - apply StronglySorted_inv in HS. destruct HS as [HS Ha].
    apply Forall_app in Ha. destruct Ha as [_ Hx].
    constructor; [now inversion Hx | now apply IH].
Qed.

Lemma StronglySorted_filter (f : A -> bool) (l : list A) :
  StronglySorted R l -> StronglySorted R (filter f l).
Proof.
  induction 1 as [|a l HS IH Ha]; simpl.
  - constructor.
  - destruct (f a).
    + constructor; [assumption|].
      apply Forall_forall. intros y Hy. apply filter_In in Hy.
      rewrite Forall_forall in Ha. apply Ha. tauto.
    + assumption.
Qed.

Lemma StronglySorted_app_inv (l1 l2 : list A) :
  StronglySorted R (l1 ++ l2) ->
  StronglySorted R l1 /\ StronglySorted R l2 /\
  (forall a b, In a l1 -> In b l2 -> R a b).
Proof.
  induction l1 as [|x l1 IH]; simpl; intro HS.
  - repeat split; [constructor|assumption|intros a b []].
  - apply StronglySorted_inv in HS. destruct HS as [HS Hx].
    destruct (IH HS) as (H1 & H2 & H3).
    apply Forall_app in Hx. destruct Hx as [Hx1 Hx2].
    repeat split.
    + constructor; assumption.
    + assumption.
    + intros a b [->|Ha] Hb.
      * rewrite Forall_forall in Hx2. now apply Hx2.
      * now apply H3.
Qed.
End StronglySortedFacts.

Lemma StronglySorted_Forall2 {A B : Type} (R : A -> A -> Prop)
    (R' : B -> B -> Prop) (F : A -> B -> Prop) :
  (forall a b a' b', F a a' -> F b b' -> R a b -> R' a' b') ->
  forall l l', Forall2 F l l' -> StronglySorted R l -> StronglySorted R' l'.
Proof.
  intros HR l l' H2. induction H2 as [|a a' l l' Ha H2 IH]; intro HS.
  - constructor.
  - apply StronglySorted_inv in HS. destruct HS as [HS Hall].
    constructor; [now apply IH|].
    clear IH HS. induction H2 as [|b b' l l' Hb H2 IH]; constructor.
    + inversion Hall; subst. eapply HR; eassumption.
    + apply IH. now inversion Hall.
Qed.

Lemma timeLe_trans : Relations_1.Transitive timeLe.
Proof. intros a b c. unfold timeLe. lra. Qed.

Lemma nonDecreasing_strongly (l : list TrackRecord) :
  nonDecreasingTime l -> StronglySorted timeLe l.
Proof. apply Sorted_StronglySorted. exact timeLe_trans. Qed.

Lemma validRecords_sorted (records : list TrackRecord) :
  nonDecreasingTime records -> StronglySorted timeLe (validRecords records).
Proof.
  intro H. apply StronglySorted_filter. now apply nonDecreasing_strongly.
Qed.

Lemma validRecords_valid (records : list TrackRecord) (r : TrackRecord) :
  In r (validRecords records) ->
  exists a h, altitude r = Some a /\ heartRate r = Some h.
Proof.
  intro H. apply filter_In in H. destruct H as [_ H].
  unfold isValid in H. apply andb_true_iff in H. destruct H as [Ha Hh].
  destruct (altitude r) as [a|]; [|discriminate].
  destruct (heartRate r) as [h|]; [|discriminate].
  now exists a, h.
Qed.

Lemma mapM_Forall2 {A B : Type} (f : A -> option B) (l : list A) :
  forall ys, mapM f l = Some ys -> Forall2 (fun x y => f x = Some y) l ys.
Proof.
  induction l as [|x l IH]; simpl; intros ys H.
  - inversion H. constructor.
  - destruct (f x) as [y|] eqn:E; [|discriminate].
    destruct (mapM f l) as [ys'|]; [|discriminate].
    inversion H; subst. constructor; [assumption|now apply IH].
Qed.

Lemma mapM_total {A B : Type} (f : A -> option B) (l : list A) :
  Forall (fun x => exists y, f x = Some y) l -> exists ys, mapM f l = Some ys.
Proof.
  induction 1 as [|x l [y Hy] _ [ys IH]]; simpl.
  - now exists [].
  - rewrite Hy, IH. now exists (y :: ys).
Qed.

(* ------------------------------------------------------------------ *)
(** ** The peak scan *)

Lemma accepted_in_range (vr : list TrackRecord) (i : nat) :
  accepted vr i -> (i < List.length vr)%nat.
Proof.
  intros (cur & nbrs & Hn & _). apply nth_error_Some. congruence.
Qed.

Lemma findRecordsInTimeWindow_defined vr i cur w :
  nth_error vr i = Some cur ->
  exists nbrs, findRecordsInTimeWindow vr i w = Some nbrs.
Proof.
  intro H. unfold findRecordsInTimeWindow. rewrite H. eauto.
Qed.

(** One iteration either leaves [peaks] alone or appends [i]; it appends
    only an index that passed both tests and is spaced from the last peak. *)
Lemma peakStep_cases vr peaks i cur :
  nth_error vr i = Some cur ->
  Forall (fun p => (p < List.length vr)%nat) peaks ->
  peakStep vr peaks i cur (skipn (S i) vr) = Some peaks \/
  (peakStep vr peaks i cur (skipn (S i) vr) = Some (peaks ++ [i]) /\
   accepted vr i /\
   forall lastPeak, lastPeakOf peaks = Some lastPeak ->
     spacedAfter vr lastPeak i).
Proof.
  intros Hcur Hrange. unfold peakStep.
  destruct (findRecordsInTimeWindow_defined vr i cur peakWindowSeconds Hcur)
    as [nbrs Hn].
  rewrite Hn.
  destruct (isLocalMax (num (altitude cur)) nbrs) eqn:Hmax; simpl;
    [|now left].
  destruct (Qltb _ minProminence) eqn:Hprom; [now left|].
  assert (Hacc : accepted vr i).
  { exists cur, nbrs. repeat split; try assumption.
    unfold prominenceAt, altAt, timeAt. rewrite Hcur. now qprop. }
  destruct (lastPeakOf peaks) as [lastPeak|] eqn:Hlast.
  - destruct (nth_error vr lastPeak) as [lp|] eqn:Hlp.
    + destruct (Qltb _ minTimeBetweenPeaks) eqn:Hgap; [now left|].
      right. repeat split; try assumption.
      intros q Hq. inversion Hq; subst q.
      unfold spacedAfter, timeAt. rewrite Hlp, Hcur. qprop. lra.
    + exfalso. apply lastPeakOf_Some in Hlast. destruct Hlast as [l' ->].
      apply Forall_app in Hrange. destruct Hrange as [_ Hr].
      inversion Hr; subst. apply nth_error_None in Hlp. lia.
  - right. repeat split; try assumption. intros q Hq. discriminate.
Qed.

Lemma spacedAfter_trans vr p q r :
  spacedAfter vr p q -> spacedAfter vr q r -> spacedAfter vr p r.
Proof. unfold spacedAfter, minTimeBetweenPeaks. lra. Qed.

Lemma PeakInv_range vr i peaks :
  PeakInv vr i peaks -> Forall (fun p => (p < List.length vr)%nat) peaks.
Proof.
  intros [H _]. eapply Forall_impl; [|exact H].
  intros p [_ Hp]. now apply accepted_in_range.
Qed.

Lemma PeakInv_step vr i peaks cur :
  nth_error vr i = Some cur ->
  PeakInv vr i peaks ->
  exists peaks',
    peakStep vr peaks i cur (skipn (S i) vr) = Some peaks' /\
    PeakInv vr (S i) peaks'.
Proof.
  intros Hcur Hinv.
  assert (Hweak : PeakInv vr (S i) peaks).
  { destruct Hinv as [H1 H2]. split; [|assumption].
    eapply Forall_impl; [|exact H1]. intros p [Hp Ha]. split; [lia|assumption]. }
  destruct (peakStep_cases vr peaks i cur Hcur (PeakInv_range _ _ _ Hinv))
    as [H|(H & Hacc & Hgap)].
  - now exists peaks.
  - exists (peaks ++ [i]). split; [assumption|].
    destruct Hweak as [H1 H2]. split.
    + apply Forall_app. split; [assumption|].
      constructor; [|constructor]. split; [lia|assumption].
    + apply StronglySorted_snoc; [assumption|].
      destruct (lastPeakOf peaks) as [lastPeak|] eqn:Hlast.
      * specialize (Hgap lastPeak eq_refl).
        apply lastPeakOf_Some in Hlast. destruct Hlast as [l' ->].
        apply Forall_app. split.
        -- apply StronglySorted_snoc_inv in H2.
           eapply Forall_impl; [|exact H2]. intros p Hp. simpl in Hp.
           exact (spacedAfter_trans vr p lastPeak i Hp Hgap).
        -- constructor; [assumption|constructor].
      * apply lastPeakOf_None in Hlast. subst. constructor.
Qed.

Lemma peakLoop_inv vr :
  forall rest i peaks,
    skipn i vr = rest -> PeakInv vr i peaks ->
    exists out, peakLoop vr i rest peaks = Some out /\
                PeakInv vr (List.length vr) out.
Proof.
  induction rest as [|cur after IH]; intros i peaks Hrest Hinv; simpl.
  - exists peaks. split; [reflexivity|].
    destruct Hinv as [H1 H2]. split; [|assumption].
    eapply Forall_impl; [|exact H1]. intros p [_ Ha].
    split; [now apply accepted_in_range|assumption].
  - apply skipn_cons_inv in Hrest. destruct Hrest as [Hcur Hafter].
    destruct (PeakInv_step vr i peaks cur Hcur Hinv) as (peaks' & Hstep & Hinv').
    rewrite <- Hafter, Hstep. rewrite Hafter.
    apply (IH (S i) peaks' Hafter Hinv').
Qed.

Lemma findPeaks_inv (vr : list TrackRecord) :
  exists peaks, findPeaks vr = Some peaks /\
                PeakInv vr (List.length vr) peaks.
Proof.
  unfold findPeaks. apply peakLoop_inv; [reflexivity|].
  split; constructor.
Qed.

Lemma hillPeakOf_defined vr i :
  (i < List.length vr)%nat -> exists hp, hillPeakOf vr i = Some hp.
Proof.
  intro H. unfold hillPeakOf.
  destruct (nth_error vr i) eqn:E; [eauto|].
  apply nth_error_None in E. lia.
Qed.

(** The component never reads outside the array: a result always exists. *)
Lemma hillPeaks_defined (records : list TrackRecord) :
  exists out, hillPeaks records = Some out.
Proof.
  unfold hillPeaks.
  destruct (List.length (validRecords records) <? minValidRecords)%nat;
    [eauto|].
  destruct (findPeaks_inv (validRecords records)) as (peaks & -> & Hinv).
  destruct (mapM_total (hillPeakOf (validRecords records)) peaks) as [d ->].
  - apply PeakInv_range in Hinv. eapply Forall_impl; [|exact Hinv].
    intros p Hp. now apply hillPeakOf_defined.
  - eauto.
Qed.

(** With a constant altitude the prominence loop never lowers its
    minimum. *)
Lemma minAfterLoop_constant (t a : Q) (l : list TrackRecord) :
  Forall (fun r => num (altitude r) == a) l ->
  forall m, m == a -> minAfterLoop t m l = m.
Proof.
  induction 1 as [|r l Hr _ IH]; intros m Hm; simpl; [reflexivity|].
  destruct (Qltb prominenceWindowSeconds _); [reflexivity|].
  destruct (Qltb (num (altitude r)) m) eqn:E.
  - qprop. lra.
  - now apply IH.
Qed.

Lemma Forall_skipn {A : Type} (P : A -> Prop) (l : list A) (n : nat) :
  Forall P l -> Forall P (skipn n l).
Proof.
  intro H. rewrite <- (firstn_skipn n l) in H.
  apply Forall_app in H. tauto.
Qed.

Lemma constant_altitude_not_accepted vr a i :
  Forall (fun r => num (altitude r) == a) vr -> ~ accepted vr i.
Proof.
  intros Hconst (cur & nbrs & Hcur & _ & _ & Hprom).
  unfold prominenceAt, altAt, timeAt in Hprom. rewrite Hcur in Hprom.
  assert (Ha : num (altitude cur) == a).
  { rewrite Forall_forall in Hconst. apply Hconst.
    eapply nth_error_In; eassumption. }
  rewrite (minAfterLoop_constant _ a) in Hprom;
    [|now apply Forall_skipn|assumption].
  unfold minProminence in Hprom. lra.
Qed.

(* ------------------------------------------------------------------ *)
(** ** The local-maximum test *)

Lemma StronglySorted_rev {A : Type} (R : A -> A -> Prop) (l : list A) :
  StronglySorted R l -> StronglySorted (fun a b => R b a) (rev l).
Proof.
  induction 1 as [|a l HS IH Ha]; simpl.
  - constructor.
  - apply StronglySorted_snoc; [assumption|].
    apply Forall_forall. intros b Hb. apply in_rev in Hb.
    rewrite Forall_forall in Ha. now apply Ha.
Qed.

Lemma localMax_backwards (ct w c : Q) :
  forall before i,
    StronglySorted (fun a b => timeLe b a) before ->
    (isLocalMax c (lookBackwards ct w i before) = true <->
     forall r, In r before -> ct - elapsedTime r <= w ->
               num (altitude r) <= c).
Proof.
  unfold isLocalMax.
  induction before as [|r rest IH]; intros i HS; simpl.
  - split; [intros _ r []|reflexivity].
  - apply StronglySorted_inv in HS. destruct HS as [HS Hr].
    rewrite Forall_forall in Hr. unfold timeLe in Hr.
    destruct (Qltb w (ct - elapsedTime r)) eqn:E; simpl.
    + split; [|reflexivity]. intros _ r' [<-|Hin] Hw; qprop.
      * lra.
      * specialize (Hr r' Hin). lra.
    + rewrite andb_true_iff, (IH (pred i) HS). split.
      * intros [Hc Hall] r' [<-|Hin] Hw; [now qprop|now apply Hall].
      * intro Hall. split.
        -- apply Qleb_true. apply Hall; [now left|now qprop].
        -- intros r' Hin. apply Hall. now right.
Qed.

Lemma localMax_forwards (ct w c : Q) :
  forall after i,
    StronglySorted timeLe after ->
    (isLocalMax c (lookForwards ct w i after) = true <->
     forall r, In r after -> elapsedTime r - ct <= w ->
               num (altitude r) <= c).
Proof.
  unfold isLocalMax.
  induction after as [|r rest IH]; intros i HS; simpl.
  - split; [intros _ r []|reflexivity].
  - apply StronglySorted_inv in HS. destruct HS as [HS Hr].
    rewrite Forall_forall in Hr. unfold timeLe in Hr.
    destruct (Qltb w (elapsedTime r - ct)) eqn:E; simpl.
    + split; [|reflexivity]. intros _ r' [<-|Hin] Hw; qprop.
      * lra.
      * specialize (Hr r' Hin). lra.
    + rewrite andb_true_iff, (IH (S i) HS). split.
      * intros [Hc Hall] r' [<-|Hin] Hw; [now qprop|now apply Hall].
      * intro Hall. split.
        -- apply Qleb_true. apply Hall; [now left|now qprop].
        -- intros r' Hin. apply Hall. now right.
Qed.

Lemma isLocalMax_app c l1 l2 :
  isLocalMax c (l1 ++ l2) = isLocalMax c l1 && isLocalMax c l2.
Proof. unfold isLocalMax. apply forallb_app. Qed.

(** How a sorted array splits around index [i]. *)
Lemma sorted_split vr i cur :
  StronglySorted timeLe vr -> nth_error vr i = Some cur ->
  StronglySorted timeLe (firstn i vr) /\
  StronglySorted timeLe (skipn (S i) vr) /\
  (forall r, In r (firstn i vr) -> elapsedTime r <= elapsedTime cur) /\
  (forall r, In r (skipn (S i) vr) -> elapsedTime cur <= elapsedTime r).
Proof.
  intros HS Hcur.
  rewrite <- (firstn_skipn i vr) in HS.
  rewrite (nth_error_skipn_cons vr i cur Hcur) in HS.
  apply StronglySorted_app_inv in HS. destruct HS as (H1 & H2 & H3).
  apply StronglySorted_inv in H2. destruct H2 as [H2 H4].
  rewrite Forall_forall in H4.
  repeat split; try assumption.
  intros r Hr. apply (H3 r cur Hr). now left.
Qed.

Lemma In_firstn_nth {A : Type} (l : list A) (i : nat) (x : A) :
  In x (firstn i l) <->
  exists j, (j < i)%nat /\ nth_error l j = Some x.
Proof.
  split.
  - intro H. apply In_nth_error in H. destruct H as [j Hj].
    assert (j < i)%nat.
    { assert (Hlt : (j < List.length (firstn i l))%nat)
        by (apply nth_error_Some; congruence).
      rewrite length_firstn in Hlt. lia. }
    exists j. split; [assumption|].
    rewrite nth_error_firstn in Hj.
    destruct (Nat.ltb_spec j i); [assumption|discriminate].
  - intros (j & Hj & Hn). apply (nth_error_In _ j).
    rewrite nth_error_firstn.
    destruct (Nat.ltb_spec j i); [assumption|lia].
Qed.

Lemma In_skipn_nth {A : Type} (l : list A) (i : nat) (x : A) :
  In x (skipn i l) <->
  exists j, (i <= j)%nat /\ nth_error l j = Some x.
Proof.
  split.
  - intro H. apply In_nth_error in H. destruct H as [j Hj].
    rewrite nth_error_skipn in Hj. exists (i + j)%nat. split; [lia|assumption].
  - intros (j & Hj & Hn). apply (nth_error_In _ (j - i)).
    rewrite nth_error_skipn. now replace (i + (j - i))%nat with j by lia.
Qed.

Lemma localMax_sorted vr i cur nbrs :
  StronglySorted timeLe vr ->
  nth_error vr i = Some cur ->
  findRecordsInTimeWindow vr i peakWindowSeconds = Some nbrs ->
  (isLocalMax (num (altitude cur)) nbrs = true <->
   forall j r, j <> i -> nth_error vr j = Some r ->
     Qabs (elapsedTime r - elapsedTime cur) <= peakWindowSeconds ->
     num (altitude r) <= num (altitude cur)).
Proof.
  intros HS Hcur Hn.
  unfold findRecordsInTimeWindow in Hn. rewrite Hcur in Hn.
  injection Hn as <-.
  destruct (sorted_split vr i cur HS Hcur) as (Hb & Ha & Hbt & Hat).
  rewrite isLocalMax_app, andb_true_iff.
  rewrite localMax_backwards by (now apply StronglySorted_rev).
  rewrite localMax_forwards by assumption.
  split.
  - intros [Hback Hfwd] j r Hj Hr Hw.
    apply Qabs_Qle_condition in Hw.
    destruct (Nat.lt_ge_cases j i) as [Hlt|Hge].
    + apply Hback; [|lra].
      rewrite <- in_rev. apply In_firstn_nth. eauto.
    + apply Hfwd; [|lra].
      apply (proj2 (In_skipn_nth vr (S i) r)).
      exists j. split; [lia|assumption].
  - intro Hall. split.
    + intros r Hin Hw. apply in_rev in Hin.
      pose proof (Hbt r Hin) as Hle.
      apply In_firstn_nth in Hin. destruct Hin as (j & Hj & Hr).
      apply (Hall j r); [lia|assumption|].
      apply Qabs_Qle_condition. lra.
    + intros r Hin Hw. pose proof (Hat r Hin) as Hle.
      apply (proj1 (In_skipn_nth vr (S i) r)) in Hin.
      destruct Hin as (j & Hj & Hr).
      apply (Hall j r); [lia|assumption|].
      apply Qabs_Qle_condition. lra.
Qed.

(* ------------------------------------------------------------------ *)
(** ** Prominence: the loop against the specification's minimum *)

Lemma fold_min_le (m : Q) (l : list Q) : fold_right Qmin m l <= m.
Proof.
  induction l as [|x l IH]; simpl; [lra|].
  destruct (Q.min_spec x (fold_right Qmin m l)) as [[? ?]|[? ?]]; lra.
Qed.

Lemma fold_min_init (a m m' : Q) (l : list Q) :
  m' == Qmin a m ->
  fold_right Qmin m' l == Qmin a (fold_right Qmin m l).
Proof.
  intro Hm. induction l as [|x l IH]; simpl; [assumption|].
  destruct (Q.min_spec x (fold_right Qmin m' l)) as [[? ?]|[? ?]];
  destruct (Q.min_spec x (fold_right Qmin m l)) as [[? ?]|[? ?]];
  destruct (Q.min_spec a (fold_right Qmin m l)) as [[? ?]|[? ?]];
  destruct (Q.min_spec a (Qmin x (fold_right Qmin m l))) as [[? ?]|[? ?]];
  lra.
Qed.

Lemma minAfterLoop_fold (t : Q) :
  forall after m,
    StronglySorted timeLe after ->
    minAfterLoop t m after ==
    fold_right Qmin m
      (map (fun r => num (altitude r)) (filter (withinProminence t) after)).
Proof.
  induction after as [|r rest IH]; intros m HS; simpl; [lra|].
  apply StronglySorted_inv in HS. destruct HS as [HS Hr].
  unfold withinProminence at 1.
  destruct (Qltb prominenceWindowSeconds (elapsedTime r - t)) eqn:E.
  - assert (Hout : Qleb (elapsedTime r - t) prominenceWindowSeconds = false)
      by (apply Qleb_false; now qprop).
    rewrite Hout.
    assert (Hnone : filter (withinProminence t) rest = []).
    { clear IH HS. induction rest as [|r' rest IH]; [reflexivity|]. simpl.
      inversion Hr; subst. unfold withinProminence at 1.
      assert (Hr' : Qleb (elapsedTime r' - t) prominenceWindowSeconds = false).
      { apply Qleb_false. unfold timeLe in *. qprop. lra. }
      rewrite Hr'. now apply IH. }
    rewrite Hnone. simpl. lra.
  - assert (Hin : Qleb (elapsedTime r - t) prominenceWindowSeconds = true)
      by (apply Qleb_true; now qprop).
    rewrite Hin. simpl. rewrite (IH _ HS).
    apply fold_min_init.
    destruct (Qltb (num (altitude r)) m) eqn:Em;
      destruct (Q.min_spec (num (altitude r)) m) as [[? ?]|[? ?]];
      qprop; lra.
Qed.

Lemma prominenceAt_spec vr i cur :
  StronglySorted timeLe vr -> nth_error vr i = Some cur ->
  prominenceAt vr i == prominenceSpec vr i.
Proof.
  intros HS Hcur.
  destruct (sorted_split vr i cur HS Hcur) as (_ & Ha & _ & _).
  unfold prominenceAt, prominenceSpec, minAltitudeFollowing, followingWindow.
  rewrite (nth_error_skipn_cons vr i cur Hcur).
  unfold altAt, timeAt. rewrite Hcur. simpl.
  assert (Hself :
    Qleb (elapsedTime cur - elapsedTime cur) prominenceWindowSeconds = true).
  { apply Qleb_true. unfold prominenceWindowSeconds. lra. }
  rewrite Hself. simpl.
  rewrite (minAfterLoop_fold (elapsedTime cur) _ _ Ha).
  fold (withinProminence (elapsedTime cur)).
  set (F := fold_right Qmin _ _).
  assert (HF : F <= num (altitude cur)) by apply fold_min_le.
  destruct (Q.min_spec (num (altitude cur)) F) as [[? ?]|[? ?]]; lra.
Qed.

(* ------------------------------------------------------------------ *)
(** ** The closest-sample search *)

#[local] Arguments Qabs : simpl never.

Lemma closestLoop_cons target r rest c cd :
  closestLoop target (r :: rest) c cd =
  let diff := Qabs (elapsedTime r - target) in
  let c' := if lt_ext diff cd then Some r else c in
  let cd' := if lt_ext diff cd then Finite diff else cd in
  if Qltb target (elapsedTime r) && gt_ext diff cd' then (c', cd')
  else closestLoop target rest c' cd'.
Proof. reflexivity. Qed.

Lemma ClosestSeen_incl target l1 l2 st :
  incl l1 l2 -> ClosestSeen target l1 st -> ClosestSeen target l2 st.
Proof.
  intros Hincl. destruct st as [[r|] [|d]]; simpl; try tauto.
  intros [Hin Hd]. split; [now apply Hincl|assumption].
Qed.

Lemma closestLoop_seen (target : Q) :
  forall l scanned c cd,
    ClosestSeen target scanned (c, cd) ->
    ClosestSeen target (scanned ++ l) (closestLoop target l c cd).
Proof.
  induction l as [|r rest IH]; intros scanned c cd Hst.
  - now rewrite app_nil_r.
  - rewrite closestLoop_cons. cbv zeta.
    set (diff := Qabs (elapsedTime r - target)).
    set (c' := if lt_ext diff cd then Some r else c).
    set (cd' := if lt_ext diff cd then Finite diff else cd).
    assert (Hst' : ClosestSeen target (scanned ++ [r]) (c', cd')).
    { subst c' cd'. destruct (lt_ext diff cd).
      - simpl. split; [apply in_or_app; right; now left|reflexivity].
      - eapply ClosestSeen_incl; [|exact Hst]. now apply incl_appl. }
    destruct (Qltb target (elapsedTime r) && gt_ext diff cd').
    + eapply ClosestSeen_incl; [|exact Hst'].
      apply incl_app; [now apply incl_appl|].
      apply incl_appr. intros x [<-|[]]. now left.
    + replace (scanned ++ r :: rest) with ((scanned ++ [r]) ++ rest)
        by (now rewrite <- app_assoc).
      now apply IH.
Qed.

Lemma closestLoop_best (target : Q) :
  forall l covered c cd,
    StronglySorted timeLe l ->
    ClosestBest target covered (c, cd) ->
    ClosestBest target (covered ++ l) (closestLoop target l c cd).
Proof.
  induction l as [|r rest IH]; intros covered c cd HS Hst.
  - now rewrite app_nil_r.
  - rewrite closestLoop_cons. cbv zeta.
    apply StronglySorted_inv in HS. destruct HS as [HS Hr].
    rewrite Forall_forall in Hr. unfold timeLe in Hr.
    set (diff := Qabs (elapsedTime r - target)).
    assert (Hst' : ClosestBest target (covered ++ [r])
              (if lt_ext diff cd then Some r else c,
               if lt_ext diff cd then Finite diff else cd)).
    { destruct c as [r0|], cd as [|d]; simpl in *; try tauto.
      - destruct Hst as (Hin & Hd & Hbest).
        destruct (Qltb diff d) eqn:E; qprop.
        + repeat split; [apply in_or_app; right; now left|].
          intros r' Hr'. apply in_app_or in Hr'.
          destruct Hr' as [Hr'|[<-|[]]].
          * specialize (Hbest r' Hr'). lra.
          * fold diff. lra.
        + repeat split; [apply in_or_app; now left|assumption|].
          intros r' Hr'. apply in_app_or in Hr'.
          destruct Hr' as [Hr'|[<-|[]]]; [now apply Hbest|].
          fold diff. lra.
      - subst covered. repeat split; [now left|].
        intros r' [<-|[]]. fold diff. lra. }
    set (c' := if lt_ext diff cd then Some r else c) in *.
    set (cd' := if lt_ext diff cd then Finite diff else cd) in *.
    clearbody c' cd'.
    destruct (Qltb target (elapsedTime r) && gt_ext diff cd') eqn:Hbrk.
    + apply andb_true_iff in Hbrk. destruct Hbrk as [Hpast Hfar].
      destruct c' as [r0|]; destruct cd' as [|d];
        simpl in *; try tauto; try discriminate.
      destruct Hst' as (Hin & Hd & Hbest). qprop.
      repeat split.
      * apply in_app_or in Hin. apply in_or_app.
        destruct Hin as [Hin|[<-|[]]]; auto. right; now left.
      * assumption.
      * intros r' Hr'. apply in_app_or in Hr'.
        destruct Hr' as [Hr'|[<-|Hr']].
        -- apply Hbest. apply in_or_app. now left.
        -- apply Hbest. apply in_or_app. right; now left.
        -- specialize (Hr r' Hr').
           assert (Hdiff : diff == elapsedTime r - target).
           { unfold diff. apply Qabs_pos. lra. }
           assert (Hr'd : Qabs (elapsedTime r' - target)
                          == elapsedTime r' - target).
           { apply Qabs_pos. lra. }
           lra.
    + replace (covered ++ r :: rest) with ((covered ++ [r]) ++ rest)
        by (now rewrite <- app_assoc).
      now apply IH.
Qed.

Lemma findClosest_seen vr peakIdx target r d :
  findClosest vr peakIdx target = (Some r, d) ->
  d = Finite (Qabs (elapsedTime r - target)) /\
  exists j, (peakIdx <= j)%nat /\ nth_error vr j = Some r.
Proof.
  intro H. unfold findClosest in H.
  pose proof (closestLoop_seen target (skipn peakIdx vr) [] None Infinity I)
    as Hseen.
  rewrite H in Hseen. simpl in Hseen.
  destruct d as [|d]; [contradiction|]. destruct Hseen as [Hin ->].
  split; [reflexivity|]. now apply In_skipn_nth.
Qed.

Lemma skipn_sorted vr n :
  StronglySorted timeLe vr -> StronglySorted timeLe (skipn n vr).
Proof.
  intro HS. rewrite <- (firstn_skipn n vr) in HS.
  apply StronglySorted_app_inv in HS. tauto.
Qed.

(** On a sorted array the search returns a sample at or after the peak
    index whose time is closest to the target among all such samples. *)
Lemma findClosest_best vr peakIdx peakRecord target :
  StronglySorted timeLe vr ->
  nth_error vr peakIdx = Some peakRecord ->
  exists closest j,
    findClosest vr peakIdx target
      = (Some closest, Finite (Qabs (elapsedTime closest - target))) /\
    (peakIdx <= j)%nat /\ nth_error vr j = Some closest /\
    forall k r, (peakIdx <= k)%nat -> nth_error vr k = Some r ->
      Qabs (elapsedTime closest - target) <= Qabs (elapsedTime r - target).
Proof.
  intros HS Hpeak. unfold findClosest.
  pose proof (closestLoop_best target (skipn peakIdx vr) [] None Infinity
                (skipn_sorted vr peakIdx HS) eq_refl) as Hbest.
  simpl in Hbest.
  destruct (closestLoop target (skipn peakIdx vr) None Infinity)
    as [[closest|] [|d]]; simpl in Hbest; try contradiction.
  - destruct Hbest as (Hin & -> & Hmin).
    apply In_skipn_nth in Hin. destruct Hin as (j & Hj & Hn).
    exists closest, j. repeat split; try assumption.
    intros k r Hk Hr. apply Hmin. apply In_skipn_nth. eauto.
  - rewrite (nth_error_skipn_cons vr peakIdx peakRecord Hpeak) in Hbest.
    discriminate.
Qed.

Lemma recoveryOf_Some peakHR hr v :
  recoveryOf peakHR hr = Some v <-> exists h, hr = Some h /\ v = peakHR - h.
Proof.
  destruct hr as [h|]; simpl; split.
  - intro H. inversion H. now exists h.
  - intros (h' & H & ->). now inversion H.
  - discriminate.
  - intros (h' & H & _). discriminate.
Qed.

(** The fields of the record built for a peak index. *)
Lemma hillPeakOf_fields vr peakIdx hp :
  hillPeakOf vr peakIdx = Some hp ->
  exists peakRecord,
    nth_error vr peakIdx = Some peakRecord /\
    hp_index hp = peakIdx /\
    hp_elapsedTime hp = elapsedTime peakRecord /\
    hp_altitude hp = num (altitude peakRecord) /\
    hp_peakHR hp = num (heartRate peakRecord) /\
    forall o,
      hp_hr o hp
        = findHRAtOffset vr peakIdx (elapsedTime peakRecord) (offsetSeconds o)
      /\ hp_recovery o hp = recoveryOf (hp_peakHR hp) (hp_hr o hp).
Proof.
  unfold hillPeakOf. intro H.
  destruct (nth_error vr peakIdx) as [peakRecord|]; [|discriminate].
  injection H as <-. exists peakRecord. simpl.
  repeat split; destruct o; reflexivity.
Qed.

Lemma Forall2_In_r {A B : Type} (F : A -> B -> Prop) l l' y :
  Forall2 F l l' -> In y l' -> exists x, In x l /\ F x y.
Proof.
  induction 1 as [|a b l l' Hab _ IH]; intros Hin; [destruct Hin|].
  destruct Hin as [<-|Hin].
  - exists a. split; [now left|assumption].
  - destruct (IH Hin) as (x & Hx & Hf). exists x. split; [now right|assumption].
Qed.

Lemma Forall2_In_l {A B : Type} (F : A -> B -> Prop) l l' x :
  Forall2 F l l' -> In x l -> exists y, In y l' /\ F x y.
Proof.
  induction 1 as [|a b l l' Hab _ IH]; intros Hin; [destruct Hin|].
  destruct Hin as [<-|Hin].
  - exists b. split; [now left|assumption].
  - destruct (IH Hin) as (y & Hy & Hf). exists y. split; [now right|assumption].
Qed.

(** The result of the memo once the guard on the sample count is passed. *)
Lemma hillPeaks_unfold records out :
  (minValidRecords <= List.length (validRecords records))%nat ->
  hillPeaks records = Some out ->
  exists peaks data,
    findPeaks (validRecords records) = Some peaks /\
    Forall2 (fun p hp => hillPeakOf (validRecords records) p = Some hp)
      peaks data /\
    out = filter hasRecovery data.
Proof.
  intros Hlen H. unfold hillPeaks in H.
  destruct (Nat.ltb_spec (List.length (validRecords records)) minValidRecords);
    [lia|].
  destruct (findPeaks (validRecords records)) as [peaks|]; [|discriminate].
  destruct (mapM _ peaks) as [data|] eqn:Hm; [|discriminate].
  injection H as <-. exists peaks, data.
  repeat split. now apply mapM_Forall2.
Qed.

Lemma hillPeaks_sparse records :
  (List.length (validRecords records) < minValidRecords)%nat ->
  hillPeaks records = Some [].
Proof.
  intro H. unfold hillPeaks.
  destruct (Nat.ltb_spec (List.length (validRecords records)) minValidRecords);
    [reflexivity|lia].
Qed.

(** Every emitted record was built from an accepted peak index. *)
Lemma hillPeaks_In records out hp :
  hillPeaks records = Some out -> In hp out ->
  exists peaks,
    findPeaks (validRecords records) = Some peaks /\
    In (hp_index hp) peaks /\
    hillPeakOf (validRecords records) (hp_index hp) = Some hp /\
    hasRecovery hp = true.
Proof.
  intros H Hin.
  destruct (Nat.lt_ge_cases (List.length (validRecords records))
              minValidRecords) as [Hlt|Hge].
  - rewrite (hillPeaks_sparse records Hlt) in H. injection H as <-.
    destruct Hin.
  - destruct (hillPeaks_unfold records out Hge H) as (peaks & data & Hp & H2 & ->).
    apply filter_In in Hin. destruct Hin as [Hin Hrec].
    destruct (Forall2_In_r _ _ _ _ H2 Hin) as (p & Hpin & Hhp).
    destruct (hillPeakOf_fields _ _ _ Hhp) as (pr & _ & Hidx & _).
    rewrite Hidx. exists peaks. repeat split; assumption.
Qed.

Lemma StronglySorted_weaken {A : Type} (R R' : A -> A -> Prop) (l : list A) :
  (forall a b, R a b -> R' a b) -> StronglySorted R l -> StronglySorted R' l.
Proof.
  intros HR. induction 1 as [|a l HS IH Ha]; constructor; [assumption|].
  eapply Forall_impl; [|exact Ha]. intros b. apply HR.
Qed.

Lemma findPeaks_accepted vr peaks p :
  findPeaks vr = Some peaks -> In p peaks -> accepted vr p.
Proof.
  intros Hp Hin. destruct (findPeaks_inv vr) as (peaks' & Hp' & Hall & _).
  rewrite Hp in Hp'. injection Hp' as <-.
  rewrite Forall_forall in Hall. now apply Hall.
Qed.

Lemma accepted_prominent vr p :
  StronglySorted timeLe vr -> accepted vr p ->
  minProminence <= prominenceSpec vr p.
Proof.
  intros HS (cur & nbrs & Hcur & _ & _ & Hprom).
  rewrite <- (prominenceAt_spec vr p cur HS Hcur). exact Hprom.
Qed.

Lemma hillPeakOf_time vr p hp :
  hillPeakOf vr p = Some hp -> hp_elapsedTime hp = timeAt vr p.
Proof.
  intro H. destruct (hillPeakOf_fields vr p hp H) as (r & Hr & _ & Ht & _).
  unfold timeAt. now rewrite Hr.
Qed.

(* ------------------------------------------------------------------ *)
(** ** Peak detector *)

(** C1. On a series whose elapsedTime never decreases, both the accepted
    peak indices and the emitted hill-peak records are strictly increasing
    in elapsedTime, consecutive ones lie at least 120 seconds apart, and
    each has prominence at least 15, the prominence being its altitude
    minus the least altitude among the valid samples within the following
    300 seconds. *)
Theorem peaks_increasing_spaced_prominent (records : list TrackRecord) :
  nonDecreasingTime records ->
  let vr := validRecords records in
  exists peaks out,
    findPeaks vr = Some peaks /\
    hillPeaks records = Some out /\
    StronglySorted (fun p q => timeAt vr p < timeAt vr q) peaks /\
    Sorted (fun p q => timeAt vr p + 120 <= timeAt vr q) peaks /\
    Forall (fun p => 15 <= prominenceSpec vr p) peaks /\
    StronglySorted (fun a b => hp_elapsedTime a < hp_elapsedTime b) out /\
    Sorted (fun a b => hp_elapsedTime a + 120 <= hp_elapsedTime b) out /\
    Forall (fun hp => 15 <= prominenceSpec vr (hp_index hp)) out.
Proof.
  intros Hsorted vr.
  pose proof (validRecords_sorted records Hsorted) as HS. fold vr in HS.
  destruct (findPeaks_inv vr) as (peaks & Hp & Hall & Hspaced).
  destruct (hillPeaks_defined records) as [out Hout].
  exists peaks, out.
  assert (Hprom : forall p, In p peaks -> 15 <= prominenceSpec vr p).
  { intros p Hin. apply (accepted_prominent vr p HS).
    rewrite Forall_forall in Hall. now apply Hall. }
  assert (Hout_sp :
    StronglySorted (fun a b => hp_elapsedTime a + 120 <= hp_elapsedTime b) out).
  { destruct (Nat.lt_ge_cases (List.length vr) minValidRecords) as [Hlt|Hge].
    - rewrite (hillPeaks_sparse records Hlt) in Hout. injection Hout as <-.
      constructor.
    - destruct (hillPeaks_unfold records out Hge Hout)
        as (peaks' & data & Hp' & H2 & ->).
      fold vr in Hp', H2. rewrite Hp in Hp'. injection Hp' as <-.
      apply StronglySorted_filter.
      apply (StronglySorted_Forall2 (spacedAfter vr) _ _ ) with (3 := Hspaced)
        (2 := H2).
      intros a b a' b' Ha Hb Hab.
      rewrite (hillPeakOf_time vr a a' Ha), (hillPeakOf_time vr b b' Hb).
      exact Hab. }
  repeat split; try assumption.
  - eapply StronglySorted_weaken; [|exact Hspaced].
    intros a b. unfold spacedAfter, minTimeBetweenPeaks. lra.
  - apply StronglySorted_Sorted. exact Hspaced.
  - now apply Forall_forall.
  - eapply StronglySorted_weaken; [|exact Hout_sp]. intros a b. simpl. lra.
  - now apply StronglySorted_Sorted.
  - apply Forall_forall. intros hp Hin.
    destruct (hillPeaks_In records out hp Hout Hin) as (peaks' & Hp' & Hpin & _).
    fold vr in Hp'. rewrite Hp in Hp'. injection Hp' as <-.
    now apply Hprom.
Qed.

(** C4. When fewer than 20 samples carry both altitude and heart rate (the
    empty series included), the result is the empty list, and it is a
    result: no read outside the array occurs. *)
Theorem sparse_series_yields_no_peaks (records : list TrackRecord) :
  (List.length (validRecords records) < 20)%nat ->
  hillPeaks records = Some [].
Proof. apply hillPeaks_sparse. Qed.

(** C5. On a time-ordered valid subset, index [i] passes the local-maximum
    test exactly when its altitude is at least that of every other sample
    whose elapsedTime differs from its own by at most 60 seconds; in
    particular a sample whose neighbours in that window all share its
    altitude passes. *)
Theorem local_maximum_test (records : list TrackRecord) (i : nat)
    (cur : TrackRecord) :
  nonDecreasingTime records ->
  let vr := validRecords records in
  nth_error vr i = Some cur ->
  exists nbrs,
    findRecordsInTimeWindow vr i peakWindowSeconds = Some nbrs /\
    (isLocalMax (num (altitude cur)) nbrs = true <->
     forall j r, j <> i -> nth_error vr j = Some r ->
       Qabs (elapsedTime r - elapsedTime cur) <= 60 ->
       num (altitude r) <= num (altitude cur)) /\
    ((forall j r, j <> i -> nth_error vr j = Some r ->
        Qabs (elapsedTime r - elapsedTime cur) <= 60 ->
        num (altitude r) == num (altitude cur)) ->
     isLocalMax (num (altitude cur)) nbrs = true).
Proof.
  intros Hsorted vr Hcur.
  pose proof (validRecords_sorted records Hsorted) as HS. fold vr in HS.
  destruct (findRecordsInTimeWindow_defined vr i cur peakWindowSeconds Hcur)
    as [nbrs Hn].
  exists nbrs. split; [assumption|].
  pose proof (localMax_sorted vr i cur nbrs HS Hcur Hn) as Hiff.
  split; [exact Hiff|].
  intro Heq. apply Hiff. intros j r Hj Hr Hw.
  specialize (Heq j r Hj Hr Hw). lra.
Qed.

(** C6. When every valid sample has the same altitude, each candidate's
    prominence is 0, below the threshold of 15, so no peak is accepted and
    the result is empty. *)
Theorem constant_altitude_yields_no_peaks (records : list TrackRecord)
    (a : Q) :
  Forall (fun r => num (altitude r) == a) (validRecords records) ->
  findPeaks (validRecords records) = Some [] /\
  (forall i, (i < List.length (validRecords records))%nat ->
     prominenceAt (validRecords records) i == 0) /\
  hillPeaks records = Some [].
Proof.
  intro Hconst. set (vr := validRecords records) in *.
  assert (Hpeaks : findPeaks vr = Some []).
  { destruct (findPeaks_inv vr) as (peaks & Hp & Hall & _).
    destruct peaks as [|p peaks]; [assumption|].
    inversion Hall as [|? ? [_ Hacc] _]; subst.
    exfalso. exact (constant_altitude_not_accepted vr a p Hconst Hacc). }
  repeat split.
  - exact Hpeaks.
  - intros i Hi. unfold prominenceAt, altAt, timeAt.
    destruct (nth_error vr i) as [cur|] eqn:Hcur.
    + assert (Ha : num (altitude cur) == a).
      { rewrite Forall_forall in Hconst. apply Hconst.
        eapply nth_error_In; eassumption. }
      rewrite (minAfterLoop_constant _ a);
        [lra|now apply Forall_skipn|assumption].
    + apply nth_error_None in Hcur. lia.
  - unfold hillPeaks. fold vr. rewrite Hpeaks. simpl.
    now destruct (List.length vr <? minValidRecords)%nat.
Qed.

(* ------------------------------------------------------------------ *)
(** ** Recovery analyzer *)

Lemma findHRAtOffset_of_closest vr peakIdx peakTime offset closest :
  findClosest vr peakIdx (peakTime + offset)
    = (Some closest,
       Finite (Qabs (elapsedTime closest - (peakTime + offset)))) ->
  findHRAtOffset vr peakIdx peakTime offset =
  if Qleb (Qabs (elapsedTime closest - (peakTime + offset))) recoveryTolerance
  then heartRate closest else None.
Proof.
  intro H. unfold findHRAtOffset. rewrite H. simpl.
  destruct (Qleb _ recoveryTolerance); [|reflexivity].
  now destruct (heartRate closest).
Qed.

(** C2. For an accepted peak of a time-ordered series and each offset of
    60, 120 and 300 seconds, the search settles on a sample at or after the
    peak's index whose elapsedTime is closest to the target among all such
    samples; when it lies within 15 seconds of the target the heart rate at
    the offset is that sample's and the recovery value is the peak heart
    rate minus it, otherwise both are the no-data marker. *)
Theorem recovery_value_from_closest_sample (records : list TrackRecord)
    (peaks : list nat) (peakIdx : nat) (o : RecoveryOffset) :
  nonDecreasingTime records ->
  let vr := validRecords records in
  findPeaks vr = Some peaks ->
  In peakIdx peaks ->
  exists peakRecord hrPeak hp closest j hr,
    nth_error vr peakIdx = Some peakRecord /\
    heartRate peakRecord = Some hrPeak /\
    hillPeakOf vr peakIdx = Some hp /\
    hp_peakHR hp = hrPeak /\
    (peakIdx <= j)%nat /\
    nth_error vr j = Some closest /\
    heartRate closest = Some hr /\
    let target := elapsedTime peakRecord + offsetSeconds o in
    (forall k r, (peakIdx <= k)%nat -> nth_error vr k = Some r ->
       Qabs (elapsedTime closest - target) <= Qabs (elapsedTime r - target)) /\
    (Qabs (elapsedTime closest - target) <= 15 ->
       hp_hr o hp = Some hr /\ hp_recovery o hp = Some (hrPeak - hr)) /\
    (15 < Qabs (elapsedTime closest - target) ->
       hp_hr o hp = None /\ hp_recovery o hp = None).
Proof.
  intros Hsorted vr Hp Hin.
  pose proof (validRecords_sorted records Hsorted) as HS. fold vr in HS.
  pose proof (findPeaks_accepted vr peaks peakIdx Hp Hin) as Hacc.
  destruct Hacc as (peakRecord & _ & Hpeak & _).
  destruct (hillPeakOf_defined vr peakIdx) as [hp Hhp].
  { apply nth_error_Some. congruence. }
  destruct (hillPeakOf_fields vr peakIdx hp Hhp)
    as (peakRecord' & Hpeak' & _ & _ & _ & HpHR & Hfields).
  rewrite Hpeak in Hpeak'. injection Hpeak' as <-.
  destruct (validRecords_valid records peakRecord) as (a & hrPeak & _ & HhrP).
  { eapply nth_error_In; exact Hpeak. }
  destruct (findClosest_best vr peakIdx peakRecord
              (elapsedTime peakRecord + offsetSeconds o) HS Hpeak)
    as (closest & j & Hc & Hj & Hn & Hmin).
  destruct (validRecords_valid records closest) as (a' & hr & _ & Hhr).
  { eapply nth_error_In; exact Hn. }
  exists peakRecord, hrPeak, hp, closest, j, hr.
  destruct (Hfields o) as [Hhr_o Hrec_o].
  rewrite (findHRAtOffset_of_closest _ _ _ _ _ Hc) in Hhr_o.
  assert (HpHR' : hp_peakHR hp = hrPeak) by (rewrite HpHR, HhrP; reflexivity).
  unfold recoveryTolerance in Hhr_o.
  do 7 (split; [assumption|]).
  cbv zeta. split; [exact Hmin|]. split.
  - intro Hw. apply Qleb_true in Hw. rewrite Hw in Hhr_o.
    split; [congruence|].
    rewrite Hrec_o, HpHR', Hhr_o, Hhr. reflexivity.
  - intro Hw. apply Qleb_false in Hw. rewrite Hw in Hhr_o.
    split; [exact Hhr_o|].
    rewrite Hrec_o, Hhr_o. reflexivity.
Qed.

Lemma recoveryOf_isSome peakHR hr : isSome (recoveryOf peakHR hr) = isSome hr.
Proof. now destruct hr. Qed.

Lemma hasRecovery_iff vr peakIdx hp :
  hillPeakOf vr peakIdx = Some hp ->
  (hasRecovery hp = true <-> exists o, hp_hr o hp <> None).
Proof.
  intro Hhp. destruct (hillPeakOf_fields vr peakIdx hp Hhp)
    as (pr & _ & _ & _ & _ & _ & Hf).
  unfold hasRecovery.
  pose proof (proj2 (Hf after1min)) as H1.
  pose proof (proj2 (Hf after2min)) as H2.
  pose proof (proj2 (Hf after5min)) as H5.
  simpl in H1, H2, H5. rewrite H1, H2, H5, !recoveryOf_isSome.
  split.
  - intro H. apply orb_true_iff in H. destruct H as [H|H];
      [apply orb_true_iff in H; destruct H as [H|H]|].
    + exists after1min. simpl. now destruct (hp_hr1min hp).
    + exists after2min. simpl. now destruct (hp_hr2min hp).
    + exists after5min. simpl. now destruct (hp_hr5min hp).
  - intros [[| |] H]; simpl in H.
    + destruct (hp_hr1min hp); [reflexivity|contradiction].
    + destruct (hp_hr2min hp); [apply orb_true_iff; left; apply orb_true_r
                               |contradiction].
    + destruct (hp_hr5min hp); [apply orb_true_r|contradiction].
Qed.

(** C3. Once the sample-count guard is passed, the record built for an
    accepted peak is in the final output exactly when at least one of the
    three offsets produced a match; when all three recovery values are the
    no-data marker the output holds no record for that peak. *)
Theorem record_emitted_iff_offset_matched (records : list TrackRecord)
    (out : list HillPeak) (peaks : list nat) (peakIdx : nat) (hp : HillPeak) :
  let vr := validRecords records in
  (20 <= List.length vr)%nat ->
  hillPeaks records = Some out ->
  findPeaks vr = Some peaks ->
  In peakIdx peaks ->
  hillPeakOf vr peakIdx = Some hp ->
  (In hp out <-> exists o, hp_hr o hp <> None) /\
  (In hp out <-> exists o, hp_recovery o hp <> None) /\
  ((forall o, hp_recovery o hp = None) ->
   forall q, In q out -> hp_index q <> peakIdx).
Proof.
  intros vr Hlen Hout Hp Hin Hhp.
  destruct (hillPeaks_unfold records out Hlen Hout)
    as (peaks' & data & Hp' & H2 & ->).
  fold vr in Hp', H2. rewrite Hp in Hp'. injection Hp' as <-.
  destruct (hillPeakOf_fields vr peakIdx hp Hhp)
    as (pr & _ & _ & _ & _ & _ & Hf).
  assert (Hrec : (exists o, hp_hr o hp <> None) <->
                 (exists o, hp_recovery o hp <> None)).
  { split; intros [o Ho]; exists o; rewrite (proj2 (Hf o)) in *;
      destruct (hp_hr o hp); simpl in *; congruence. }
  assert (Hmain : In hp (filter hasRecovery data) <->
                  exists o, hp_hr o hp <> None).
  { rewrite filter_In, (hasRecovery_iff vr peakIdx hp Hhp).
    split; [tauto|]. intro H. split; [|assumption].
    destruct (Forall2_In_l _ _ _ _ H2 Hin) as (hp' & Hin' & Hhp').
    simpl in Hhp'. congruence. }
  split; [exact Hmain|]. split; [now rewrite Hmain|].
  intros Hnone q Hq Hidx.
  apply filter_In in Hq. destruct Hq as [Hq Hqrec].
  destruct (Forall2_In_r _ _ _ _ H2 Hq) as (p & Hpin & Hq').
  simpl in Hq'.
  destruct (hillPeakOf_fields vr p q Hq') as (pr' & _ & Hqi & _).
  assert (q = hp) by congruence. subst q.
  apply (hasRecovery_iff vr peakIdx hp Hhp) in Hqrec.
  apply Hrec in Hqrec. destruct Hqrec as [o Ho]. now apply Ho.
Qed.

(** C10. For every emitted record and every offset that produced a match,
    the matched sample's elapsedTime is at least the peak time plus the
    offset minus 15, hence at least 45 seconds past the peak: it is a
    strictly later sample than the peak itself, and the recovery value is
    the peak heart rate minus that sample's heart rate. *)
Theorem matched_sample_strictly_after_peak (records : list TrackRecord)
    (out : list HillPeak) (hp : HillPeak) (o : RecoveryOffset) (h : Q) :
  hillPeaks records = Some out ->
  In hp out ->
  hp_hr o hp = Some h ->
  let vr := validRecords records in
  exists closest j,
    fst (findClosest vr (hp_index hp) (hp_elapsedTime hp + offsetSeconds o))
      = Some closest /\
    nth_error vr j = Some closest /\
    heartRate closest = Some h /\
    hp_recovery o hp = Some (hp_peakHR hp - h) /\
    hp_elapsedTime hp + offsetSeconds o - 15 <= elapsedTime closest /\
    hp_elapsedTime hp + 45 <= elapsedTime closest /\
    hp_elapsedTime hp < elapsedTime closest /\
    (hp_index hp < j)%nat.
Proof.
  intros Hout Hin Hh vr.
  destruct (hillPeaks_In records out hp Hout Hin) as (peaks & Hp & Hpin & Hhp & _).
  fold vr in Hp, Hhp.
  destruct (hillPeakOf_fields vr (hp_index hp) hp Hhp)
    as (peakRecord & Hpeak & _ & Ht & _ & _ & Hf).
  destruct (Hf o) as [Hhr_o Hrec_o].
  rewrite Hh in Hhr_o. rewrite Hh in Hrec_o. simpl in Hrec_o.
  rewrite <- Ht in Hhr_o.
  unfold findHRAtOffset in Hhr_o.
  destruct (findClosest vr (hp_index hp) (hp_elapsedTime hp + offsetSeconds o))
    as [[closest|] d] eqn:Hc; [|discriminate].
  destruct (findClosest_seen _ _ _ _ _ Hc) as (-> & j & Hj & Hn).
  simpl in Hhr_o.
  destruct (Qleb _ recoveryTolerance) eqn:Hw; [|discriminate].
  destruct (heartRate closest) as [h'|] eqn:Hhr; [|discriminate].
  simpl in Hhr_o. injection Hhr_o as ->.
  apply Qleb_true in Hw. apply Qabs_Qle_condition in Hw.
  unfold recoveryTolerance in Hw.
  assert (Hoff : 60 <= offsetSeconds o) by (destruct o; simpl; lra).
  assert (Hlater : hp_elapsedTime hp < elapsedTime closest) by lra.
  exists closest, j. repeat split; try assumption; try lra.
  destruct (Nat.eq_dec j (hp_index hp)) as [->|Hne]; [|lia].
  rewrite Hpeak in Hn. injection Hn as <-. rewrite Ht in Hlater. lra.
Qed.

(* ------------------------------------------------------------------ *)
(** ** Stride downsampling *)

Section Stride.
Context {A : Type}.
Variable s : nat.
Hypothesis s_pos : (0 < s)%nat.

Lemma modIsZero_mod (i : nat) : modIsZero s i = (i mod s =? 0)%nat.
Proof.
  unfold modIsZero. destruct (Nat.eqb_spec s 0); [lia|reflexivity].
Qed.

Lemma modIsZero_period (i : nat) : modIsZero s (i + s) = modIsZero s i.
Proof.
  rewrite !modIsZero_mod.
  replace (i + s)%nat with (i + 1 * s)%nat by lia.
  now rewrite Nat.Div0.mod_add.
Qed.

Lemma filterIndexed_period (l : list A) :
  forall c, filterIndexed (modIsZero s) (c + s) l
            = filterIndexed (modIsZero s) c l.
Proof.
  induction l as [|x xs IH]; intro c; simpl; [reflexivity|].
  rewrite modIsZero_period.
  change (S (c + s)) with (S c + s)%nat. now rewrite IH.
Qed.

(** Starting inside a period, nothing is kept before the next multiple
    of the stride. *)
Lemma filterIndexed_offset (l : list A) :
  forall c, (0 < c <= s)%nat ->
    filterIndexed (modIsZero s) c l
    = filterIndexed (modIsZero s) 0 (skipn (s - c) l).
Proof.
  induction l as [|x xs IH]; intros c Hc.
  - now rewrite skipn_nil.
  - destruct (Nat.eq_dec c s) as [->|Hne].
    + rewrite Nat.sub_diag. simpl skipn.
      apply (filterIndexed_period (x :: xs) 0).
    + simpl filterIndexed at 1. rewrite modIsZero_mod.
      rewrite Nat.mod_small by lia.
      destruct (Nat.eqb_spec c 0); [lia|].
      rewrite IH by lia.
      replace (s - c)%nat with (S (s - S c)) by lia.
      reflexivity.
Qed.

Lemma strideFilter_cons (x : A) (xs : list A) :
  strideFilter s (x :: xs) = x :: strideFilter s (skipn s (x :: xs)).
Proof.
  unfold strideFilter. simpl filterIndexed at 1.
  rewrite modIsZero_mod, Nat.Div0.mod_0_l. simpl.
  rewrite (filterIndexed_offset xs 1) by lia.
  destruct s as [|s']; [lia|].
  simpl. now rewrite Nat.sub_0_r.
Qed.

(** The [k]-th kept element is the element at index [k * s]. *)
Lemma nth_error_strideFilter :
  forall k (l : list A),
    nth_error (strideFilter s l) k = nth_error l (k * s).
Proof.
  induction k as [|k IH]; intros [|x xs].
  - reflexivity.
  - rewrite strideFilter_cons. reflexivity.
  - simpl. now rewrite nth_error_nil.
  - rewrite strideFilter_cons. simpl nth_error at 1.
    rewrite IH, nth_error_skipn. reflexivity.
Qed.

(** The number of kept elements [L] is the least with [n <= L * s]. *)
Lemma length_strideFilter (l : list A) :
  (List.length l <= List.length (strideFilter s l) * s)%nat /\
  (forall k, (k < List.length (strideFilter s l))%nat ->
             (k * s < List.length l)%nat).
Proof.
  split.
  - apply nth_error_None. rewrite <- nth_error_strideFilter.
    now apply nth_error_None.
  - intros k Hk. apply nth_error_Some.
    rewrite <- nth_error_strideFilter. now apply nth_error_Some.
Qed.
End Stride.

Lemma strideFilter_one {A : Type} (l : list A) : strideFilter 1 l = l.
Proof.
  apply nth_error_ext. intro k.
  rewrite nth_error_strideFilter by lia. f_equal. lia.
Qed.

Lemma ceilDiv_covers (n m : nat) : (0 < m)%nat -> (n <= ceilDiv n m * m)%nat.
Proof.
  intro Hm. unfold ceilDiv.
  pose proof (Nat.div_mod_eq n m) as E.
  pose proof (Nat.mod_upper_bound n m) as U.
  destruct (Nat.eqb_spec (n mod m) 0); nia.
Qed.

Lemma ceilDiv_pos (n m : nat) :
  (0 < m)%nat -> (0 < n)%nat -> (0 < ceilDiv n m)%nat.
Proof.
  intros Hm Hn. pose proof (ceilDiv_covers n m Hm). nia.
Qed.

Lemma ceilDiv_small (n m : nat) :
  (0 < n <= m)%nat -> ceilDiv n m = 1%nat.
Proof.
  intros [Hn Hm]. unfold ceilDiv.
  destruct (Nat.eq_dec n m) as [->|Hne].
  - rewrite Nat.div_same, Nat.Div0.mod_same by lia. reflexivity.
  - rewrite Nat.div_small, Nat.mod_small by lia.
    destruct (Nat.eqb_spec n 0); [lia|reflexivity].
Qed.

Lemma floorStride_pos (n m : nat) : (0 < floorStride n m)%nat.
Proof. unfold floorStride. lia. Qed.

Lemma floorStride_bound (n m : nat) :
  (0 < m)%nat -> (n < (floorStride n m + 1) * m)%nat.
Proof.
  intro Hm. unfold floorStride.
  pose proof (Nat.div_mod_eq n m) as E.
  pose proof (Nat.mod_upper_bound n m) as U.
  destruct (Nat.max_spec 1 (n / m)) as [[? ->]|[? ->]]; nia.
Qed.

Lemma floorStride_small (n m : nat) :
  (n < 2 * m)%nat -> floorStride n m = 1%nat.
Proof.
  intro H. unfold floorStride.
  assert (n / m <= 1)%nat.
  { destruct m as [|m]; [simpl; lia|].
    apply Nat.lt_succ_r. apply Nat.Div0.div_lt_upper_bound. lia. }
  lia.
Qed.

Lemma downsample_stride (records : list TrackRecord) (M : nat) :
  (0 < M)%nat ->
  downsample records M
  = map toChartPoint
      (strideFilter (floorStride (List.length records) M) records).
Proof.
  intro HM. unfold downsample.
  destruct (Nat.eqb_spec M 0); [lia|reflexivity].
Qed.

(** C7 (as amended). With a positive budget [M] and a non-empty input of
    [n] points: the ceiling-stride step of the elevation and pace charts
    keeps exactly the points at indices 0, s, 2s, ... for s = ceil(n/M),
    unchanged, the first one included, returns the input itself when
    n <= M, and keeps at most M points; [downsample] strides by
    max(1, floor(n/M)) instead, yields the chart points of the records at
    the multiples of that stride, the first one included, keeps every
    record when n < 2M, and yields fewer than 2M points. *)
Theorem stride_downsample_contract (records : list TrackRecord) (M : nat) :
  (0 < M)%nat ->
  records <> [] ->
  let n := List.length records in
  (let s := ceilDiv n M in
   let out := ceilSample M records in
   (forall k, nth_error out k = nth_error records (k * s)) /\
   nth_error out 0 = nth_error records 0 /\
   (n <= M -> out = records)%nat /\
   (List.length out <= M)%nat) /\
  (let s := floorStride n M in
   let out := downsample records M in
   (forall k, nth_error out k
              = option_map toChartPoint (nth_error records (k * s))) /\
   nth_error out 0 = option_map toChartPoint (nth_error records 0) /\
   (n < 2 * M -> out = map toChartPoint records)%nat /\
   (List.length out < 2 * M)%nat).
Proof.
  intros HM Hne n.
  assert (Hn : (0 < n)%nat).
  { subst n. destruct records; [contradiction|simpl; lia]. }
  split.
  - intros s out.
    assert (Hs : (0 < s)%nat) by (now apply ceilDiv_pos).
    assert (Hnth : forall k, nth_error out k = nth_error records (k * s)).
    { intro k. apply nth_error_strideFilter. exact Hs. }
    split; [exact Hnth|]. split; [apply Hnth|]. split.
    + intro Hle. unfold out, ceilSample. fold n.
      rewrite (ceilDiv_small n M) by lia. apply strideFilter_one.
    + destruct (length_strideFilter s Hs records) as [_ Hup].
      fold n in Hup. change (strideFilter s records) with out in Hup.
      pose proof (ceilDiv_covers n M HM) as Hcov. fold s in Hcov.
      destruct (List.length out) as [|L]; [lia|].
      specialize (Hup L (Nat.lt_succ_diag_r L)). nia.
  - intros s out.
    assert (Hs : (0 < s)%nat) by apply floorStride_pos.
    assert (Hout : out = map toChartPoint (strideFilter s records))
      by (now apply downsample_stride).
    assert (Hnth : forall k, nth_error out k
              = option_map toChartPoint (nth_error records (k * s))).
    { intro k. rewrite Hout, nth_error_map. f_equal.
      apply nth_error_strideFilter. exact Hs. }
    split; [exact Hnth|]. split; [apply Hnth|]. split.
    + intro Hlt. rewrite Hout. unfold s. fold n.
      rewrite (floorStride_small n M Hlt). now rewrite strideFilter_one.
    + destruct (length_strideFilter s Hs records) as [_ Hup].
      fold n in Hup.
      rewrite Hout, length_map.
      pose proof (floorStride_bound n M HM) as Hb. fold s in Hb.
      destruct (List.length (strideFilter s records)) as [|L]; [lia|].
      specialize (Hup L (Nat.lt_succ_diag_r L)). nia.
Qed.

(* ------------------------------------------------------------------ *)
(** ** Windowed estimators *)

Lemma mapiM_nth {A B : Type} (f : nat -> A -> option B) :
  forall l off,
    (forall i x, nth_error l i = Some x -> exists y, f (off + i)%nat x = Some y) ->
    exists out,
      mapiM f off l = Some out /\
      forall i x, nth_error l i = Some x ->
        exists y, nth_error out i = Some y /\ f (off + i)%nat x = Some y.
Proof.
  induction l as [|a l IH]; intros off Hf; simpl.
  - exists []. split; [reflexivity|]. intros i x H. now destruct i.
  - destruct (Hf 0%nat a eq_refl) as [y Hy].
    rewrite Nat.add_0_r in Hy. rewrite Hy.
    destruct (IH (S off)) as (out & Hout & Hnth).
    { intros i x Hi. replace (S off + i)%nat with (off + S i)%nat by lia.
      now apply Hf. }
    rewrite Hout. exists (y :: out). split; [reflexivity|].
    intros [|i] x Hi; simpl in *.
    + injection Hi as <-. exists y. rewrite Nat.add_0_r. now split.
    + destruct (Hnth i x Hi) as (y' & H1 & H2). exists y'.
      split; [assumption|].
      now replace (off + S i)%nat with (S off + i)%nat by lia.
Qed.

Lemma mapi_nth {A B : Type} (f : nat -> A -> B) :
  forall l off i,
    nth_error (mapi f off l) i
    = option_map (f (off + i)%nat) (nth_error l i).
Proof.
  induction l as [|a l IH]; intros off [|i]; simpl; try reflexivity.
  - now rewrite Nat.add_0_r.
  - rewrite IH. now replace (S off + i)%nat with (off + S i)%nat by lia.
Qed.

Lemma window_bounds_in_range {A : Type} (arr : list A) (i : nat) :
  (i < List.length arr)%nat ->
  (startIdxOf i <= i)%nat /\ (i <= endIdxOf arr i)%nat /\
  (endIdxOf arr i < List.length arr)%nat.
Proof. unfold startIdxOf, endIdxOf, windowSize. lia. Qed.

Lemma clampVam_spec (limit v : Q) :
  0 <= limit -> clampVam limit v == Qmax (- limit) (Qmin limit v).
Proof.
  intro Hl. unfold clampVam.
  destruct (Q.min_spec limit v) as [[? Emin]|[? Emin]];
  destruct (Q.max_spec (- limit) (Qmin limit v)) as [[? Emax]|[? Emax]];
  destruct (Qltb limit v) eqn:E1; cbv beta iota zeta;
  match goal with
  | |- context [Qltb ?a ?b] => destruct (Qltb a b) eqn:E2
  end; qprop; lra.
Qed.

(** The metric vertical speed of one window, in terms of its time span and
    altitude difference. *)
Lemma vamOf_metric (startP endP : TrackRecord) :
  let span := elapsedTime endP - elapsedTime startP in
  let rise := num (altitude endP) - num (altitude startP) in
  (span <= 3.6 -> vamOf metric startP endP == 0) /\
  (3.6 < span ->
   vamOf metric startP endP
   == Qmax (- (2000)) (Qmin 2000 (rise * 3600 / span))) /\
  - (2000) <= vamOf metric startP endP <= 2000.
Proof.
  intros span rise. unfold vamOf. fold span rise.
  assert (Hlim : 0 <= vamLimit metric) by (simpl; lra).
  assert (Hbound : forall v, - (2000) <= clampVam (vamLimit metric) v <= 2000).
  { intro v. rewrite (clampVam_spec _ v Hlim). simpl vamLimit.
    destruct (Q.min_spec 2000 v) as [[? Emin]|[? Emin]];
    destruct (Q.max_spec (- (2000)) (Qmin 2000 v)) as [[? Emax]|[? Emax]];
    lra. }
  split; [|split].
  - intro Hs. assert (E : Qltb 0.001 (span / 3600) = false).
    { apply Qltb_false. change (span / 3600) with (span * (1 # 3600)). lra. }
    rewrite E, (clampVam_spec _ 0 Hlim). simpl vamLimit.
    destruct (Q.min_spec 2000 0) as [[? Emin]|[? Emin]];
    destruct (Q.max_spec (- (2000)) (Qmin 2000 0)) as [[? Emax]|[? Emax]];
    lra.
  - intro Hs. assert (E : Qltb 0.001 (span / 3600) = true).
    { apply Qltb_true. change (span / 3600) with (span * (1 # 3600)). lra. }
    rewrite E, (clampVam_spec _ _ Hlim). simpl vamLimit.
    simpl elevationConversion.
    assert (Hv : rise * 1 / (span / 3600) == rise * 3600 / span).
    { field. lra. }
    rewrite Hv. reflexivity.
  - apply Hbound.
Qed.

(** C8. In SI mode, for each index [i] of the sampled sequence of [n]
    points, with lo = max(0, i - 5) and hi = min(n - 1, i + 5): the point's
    vertical rate is 0 when the time span elapsedTime[hi] - elapsedTime[lo]
    is at most 3.6 seconds, and otherwise the altitude difference over the
    time span scaled to one hour, (altitude[hi] - altitude[lo]) * 3600 /
    span, clamped to the range from -2000 to 2000; in all cases it lies in
    that range. *)
Theorem vertical_rate_estimate (records : list TrackRecord) (i : nat) :
  let arr := elevationSampled records in
  let n := List.length arr in
  (i < n)%nat ->
  exists out pt startP endP,
    elevationData metric records = Some out /\
    nth_error out i = Some pt /\
    nth_error arr (Nat.max 0 (i - 5)) = Some startP /\
    nth_error arr (Nat.min (n - 1) (i + 5)) = Some endP /\
    let span := elapsedTime endP - elapsedTime startP in
    let rise := num (altitude endP) - num (altitude startP) in
    (span <= 3.6 -> ep_vam pt == 0) /\
    (3.6 < span ->
     ep_vam pt == Qmax (- (2000)) (Qmin 2000 (rise * 3600 / span))) /\
    - (2000) <= ep_vam pt <= 2000.
Proof.
  intros arr n Hi.
  assert (Hdef : forall k x, nth_error arr k = Some x ->
            exists y, elevationPointAt metric arr (0 + k) x = Some y).
  { intros k x Hk. simpl. unfold elevationPointAt.
    assert (Hlt : (k < List.length arr)%nat)
      by (apply nth_error_Some; congruence).
    destruct (window_bounds_in_range arr k Hlt) as (H1 & H2 & H3).
    destruct (nth_error arr (startIdxOf k)) eqn:Es.
    - destruct (nth_error arr (endIdxOf arr k)) eqn:Ee; [eauto|].
      apply nth_error_None in Ee. lia.
    - apply nth_error_None in Es. lia. }
  destruct (mapiM_nth (elevationPointAt metric arr) arr 0 Hdef)
    as (out & Hout & Hnth).
  destruct (nth_error arr i) as [p|] eqn:Hp;
    [|apply nth_error_None in Hp; lia].
  destruct (Hnth i p Hp) as (pt & Hpt & Hat).
  simpl in Hat. unfold elevationPointAt in Hat.
  change (Nat.max 0 (i - 5)) with (startIdxOf i).
  change (Nat.min (n - 1) (i + 5)) with (endIdxOf arr i).
  destruct (nth_error arr (startIdxOf i)) as [startP|]; [|discriminate].
  destruct (nth_error arr (endIdxOf arr i)) as [endP|]; [|discriminate].
  injection Hat as <-.
  exists out, (mkElevationPoint
                 (orZero (distance p) * distanceConversion metric)
                 (orZero (altitude p) * elevationConversion metric)
                 (vamOf metric startP endP)), startP, endP.
  repeat (split; [assumption || reflexivity|]).
  exact (vamOf_metric startP endP).
Qed.

(* ------------------------------------------------------------------ *)
(** *** Pace *)

Lemma speedLoop_spec (window : list TrackRecord) :
  forall sumSpeed count,
    fst (speedLoop window sumSpeed count)
      == sumSpeed + sumQ (map (fun r => num (speed r)) (movingSamples window))
    /\ snd (speedLoop window sumSpeed count)
       = (count + List.length (movingSamples window))%nat.
Proof.
  induction window as [|r rest IH]; intros sumSpeed count; simpl.
  - split; [lra|lia].
  - destruct (truthy (speed r)); simpl.
    + destruct (IH (sumSpeed + num (speed r)) (S count)) as [H1 H2].
      split; [rewrite H1; lra|rewrite H2; lia].
    + apply IH.
Qed.

(** The average the loop computes is the mean over the samples whose speed
    is truthy, i.e. present and not 0. *)
Lemma avgSpeedOf_spec (window : list TrackRecord) :
  avgSpeedOf window
  == meanQ (map (fun r => num (speed r)) (movingSamples window)).
Proof.
  unfold avgSpeedOf.
  destruct (speedLoop_spec window 0 0%nat) as [H1 H2].
  destruct (speedLoop window 0 0%nat) as [sumSpeed count].
  cbn [fst snd] in H1, H2. rewrite Nat.add_0_l in H2. subst count.
  unfold meanQ.
  destruct (movingSamples window) as [|r l].
  - reflexivity.
  - change (0 <? List.length (r :: l))%nat with true. cbv iota.
    rewrite length_map. cbn [map].
    rewrite H1, Qplus_0_l. reflexivity.
Qed.

(** Where no present speed is 0 the loop counts exactly the present speeds. *)
Lemma movingSamples_nonzero (window : list TrackRecord) :
  (forall r v, In r window -> speed r = Some v -> ~ v == 0) ->
  map (fun r => num (speed r)) (movingSamples window) = presentSpeeds window.
Proof.
  induction window as [|r rest IH]; intro H; simpl; [reflexivity|].
  assert (Hrest : forall r' v, In r' rest -> speed r' = Some v -> ~ v == 0)
    by (intros r' v Hr'; apply H; now right).
  destruct (speed r) as [v|] eqn:Ev; simpl.
  - assert (Hv : ~ v == 0) by (apply (H r v); [now left|assumption]).
    destruct (Qeq_bool v 0) eqn:E.
    + apply Qeq_bool_iff in E. contradiction.
    + simpl. rewrite Ev. simpl. f_equal. now apply IH.
  - now apply IH.
Qed.

(** Where every present speed is 0 the loop counts no sample. *)
Lemma movingSamples_stationary (window : list TrackRecord) :
  (forall r v, In r window -> speed r = Some v -> v == 0) ->
  movingSamples window = [].
Proof.
  induction window as [|r rest IH]; intro H; simpl; [reflexivity|].
  assert (Hrest : forall r' v, In r' rest -> speed r' = Some v -> v == 0)
    by (intros r' v Hr'; apply H; now right).
  destruct (speed r) as [v|] eqn:Ev; simpl.
  - assert (Hv : v == 0) by (apply (H r v); [now left|assumption]).
    apply Qeq_bool_iff in Hv. rewrite Hv. simpl. now apply IH.
  - now apply IH.
Qed.

Lemma presentSpeeds_In (window : list TrackRecord) (v : Q) :
  In v (presentSpeeds window) ->
  exists r, In r window /\ speed r = Some v.
Proof.
  induction window as [|r rest IH]; simpl; [intros []|].
  destruct (speed r) as [w|] eqn:Ew.
  - intros [E|Hin].
    + subst w. exists r. split; [now left|assumption].
    + destruct (IH Hin) as (r' & Hr' & E). exists r'. split; [now right|assumption].
  - intro Hin. destruct (IH Hin) as (r' & Hr' & E).
    exists r'. split; [now right|assumption].
Qed.

Lemma sumQ_zero (l : list Q) :
  (forall x, In x l -> x == 0) -> sumQ l == 0.
Proof.
  induction l as [|x l IH]; intro H; simpl; [reflexivity|].
  rewrite (H x (or_introl eq_refl)), IH; [lra|].
  intros y Hy. apply H. now right.
Qed.

Lemma meanQ_zero (l : list Q) :
  (forall x, In x l -> x == 0) -> meanQ l == 0.
Proof.
  intro H. unfold meanQ. destruct l as [|x l]; [reflexivity|].
  rewrite (sumQ_zero (x :: l) H). unfold Qdiv. apply Qmult_0_l.
Qed.

Lemma paceOf_spec (units : UnitSystem) (avgSpeed : Q) :
  (avgSpeed <= 0.1 -> paceOf units avgSpeed = 0) /\
  (0.1 < avgSpeed ->
   paceOf units avgSpeed == Qmin 20 (paceMeters units / avgSpeed / 60)) /\
  paceOf units avgSpeed <= 20.
Proof.
  unfold paceOf, minPaceSpeed, paceCap.
  destruct (Qltb 0.1 avgSpeed) eqn:E; qprop.
  - set (pace := paceMeters units / avgSpeed / 60).
    destruct (Q.min_spec 20 pace) as [[? Emin]|[? Emin]];
      destruct (Qltb 20 pace) eqn:E2; qprop;
      (split; [intro; lra|split; [intro|]; lra]).
  - split; [reflexivity|]. split; [intro; lra|].
    change (Qltb 20 0) with false. cbv iota. lra.
Qed.

Lemma speedWindow_In (arr : list TrackRecord) (i : nat) (r : TrackRecord) :
  (i < List.length arr)%nat ->
  (In r (speedWindow arr i) <->
   exists j, (Nat.max 0 (i - 5) <= j <= Nat.min (List.length arr - 1) (i + 5))%nat
             /\ nth_error arr j = Some r).
Proof.
  intro Hi. unfold speedWindow.
  change (Nat.max 0 (i - 5)) with (startIdxOf i).
  change (Nat.min (List.length arr - 1) (i + 5)) with (endIdxOf arr i).
  destruct (window_bounds_in_range arr i Hi) as (H1 & H2 & H3).
  rewrite In_firstn_nth. split.
  - intros (k & Hk & Hn). rewrite nth_error_skipn in Hn.
    exists (startIdxOf i + k)%nat. split; [lia|assumption].
  - intros (j & Hj & Hn). exists (j - startIdxOf i)%nat. split; [lia|].
    rewrite nth_error_skipn.
    now replace (startIdxOf i + (j - startIdxOf i))%nat with j by lia.
Qed.

(** C9 (as amended). For each index [i] of the sampled sequence, over the
    window of the samples at indices max(0, i - 5) to min(n - 1, i + 5):
    when no speed in the window is a recorded 0, the reported average
    speed is the arithmetic mean of the speeds that are present; when
    every present speed is 0 the average is that mean as well, and the
    pace is the stationary value 0; an average of at most 0.1 m/s gives
    the pace 0, a greater one gives the time per distance unit in minutes,
    capped at 20; the pace never exceeds 20.  Windows that mix a recorded
    0 with other speeds are left out of the statement. *)
Theorem pace_estimate (units : UnitSystem) (records : list TrackRecord)
    (i : nat) :
  let arr := paceSampled records in
  let n := List.length arr in
  (i < n)%nat ->
  exists pt,
    nth_error (paceData units records) i = Some pt /\
    let window := speedWindow arr i in
    (forall r, In r window <->
       exists j, (Nat.max 0 (i - 5) <= j <= Nat.min (n - 1) (i + 5))%nat /\
                 nth_error arr j = Some r) /\
    ((forall r v, In r window -> speed r = Some v -> ~ v == 0) ->
     pp_rawSpeed pt == meanOfPresentSpeeds window) /\
    ((forall r v, In r window -> speed r = Some v -> v == 0) ->
     pp_rawSpeed pt == meanOfPresentSpeeds window /\ pp_pace pt = 0) /\
    (pp_rawSpeed pt <= 0.1 -> pp_pace pt = 0) /\
    (0.1 < pp_rawSpeed pt ->
     pp_pace pt == Qmin 20 (paceMeters units / pp_rawSpeed pt / 60)) /\
    pp_pace pt <= 20.
Proof.
  intros arr n Hi.
  destruct (nth_error arr i) as [p|] eqn:Hp;
    [|apply nth_error_None in Hp; lia].
  exists (pacePointAt units arr i p). split.
  - unfold paceData. fold arr. rewrite mapi_nth, Hp. reflexivity.
  - cbv zeta. unfold pacePointAt. cbn [pp_rawSpeed pp_pace].
    split; [intro r; now apply speedWindow_In|].
    split.
    { intro Hnz. rewrite avgSpeedOf_spec. unfold meanOfPresentSpeeds.
      now rewrite movingSamples_nonzero. }
    split.
    { intro Hz.
      assert (Havg : avgSpeedOf (speedWindow arr i) == 0).
      { rewrite avgSpeedOf_spec, movingSamples_stationary by assumption.
        reflexivity. }
      split.
      - rewrite Havg. symmetry. apply meanQ_zero.
        intros v Hv. apply presentSpeeds_In in Hv.
        destruct Hv as (r & Hr & E). exact (Hz r v Hr E).
      - apply paceOf_spec. rewrite Havg. discriminate. }
    apply paceOf_spec.
Qed.

(* ------------------------------------------------------------------ *)
(** ** Where the code departs from the stated contract *)

(** C7. [downsample] with a budget of 3 keeps all of five records: its
    stride is floor(5/3) = 1, not ceil(5/3) = 2, and its output is longer
    than the budget. *)
Lemma downsample_exceeds_budget :
  List.length fiveRecords = 5%nat /\
  List.length (downsample fiveRecords 3) = 5%nat /\
  ~ (List.length (downsample fiveRecords 3) <= 3)%nat /\
  ceilDiv 5 3 = 2%nat /\
  nth_error (downsample fiveRecords 3) 1
    <> option_map toChartPoint (nth_error fiveRecords (1 * ceilDiv 5 3)).
Proof.
  repeat split; try reflexivity.
  - vm_compute. lia.
  - intro H. vm_compute in H. discriminate H.
Qed.

(** C9. An average speed of exactly 0.1 m/s is not below the threshold,
    yet the pace reported for it is 0 and not the capped pace 20: the
    test is [avgSpeed > 0.1]. *)
Lemma pace_zero_at_threshold :
  exists pt,
    nth_error (paceData metric crawl) 0 = Some pt /\
    pp_rawSpeed pt == meanOfPresentSpeeds (speedWindow (paceSampled crawl) 0) /\
    pp_rawSpeed pt == 0.1 /\
    ~ pp_rawSpeed pt < 0.1 /\
    pp_pace pt == 0 /\
    Qmin 20 (paceMeters metric / pp_rawSpeed pt / 60) == 20 /\
    ~ pp_pace pt == Qmin 20 (paceMeters metric / pp_rawSpeed pt / 60).
Proof.
  eexists. split; [vm_compute; reflexivity|].
  repeat split; try (vm_compute; reflexivity).
  - intro H. vm_compute in H. discriminate H.
  - intro H. vm_compute in H. discriminate H.
Qed.

(** The summing loop of the pace chart tests [arr[j].speed] for truthiness,
    so a recorded speed of 0 is left out of the sum and of the count: of a
    stop and a 3 m/s sample it reports the average 3, while the mean of
    the two recorded speeds is 3/2. *)
Lemma average_speed_omits_recorded_zero :
  exists pt,
    nth_error (paceData metric stopAndGo) 0 = Some pt /\
    presentSpeeds (speedWindow (paceSampled stopAndGo) 0) = [0; 3] /\
    meanOfPresentSpeeds (speedWindow (paceSampled stopAndGo) 0) == 3 # 2 /\
    pp_rawSpeed pt == 3 /\
    ~ pp_rawSpeed pt
      == meanOfPresentSpeeds (speedWindow (paceSampled stopAndGo) 0).
Proof.
  eexists. split; [vm_compute; reflexivity|].
  repeat split; try (vm_compute; reflexivity).
  intro H. vm_compute in H. discriminate H.
Qed.

(* ------------------------------------------------------------------ *)
(** ** The statements at concrete series *)

Lemma timeSortedb_sound (l : list TrackRecord) :
  timeSortedb l = true -> nonDecreasingTime l.
Proof.
  unfold nonDecreasingTime.
  induction l as [|a rest IH]; intro H; [constructor|].
  destruct rest as [|b rest'].
  - constructor; constructor.
  - simpl in H. apply andb_true_iff in H. destruct H as [Hab Hrest].
    constructor.
    + apply IH. exact Hrest.
    + constructor. unfold timeLe. now apply Qleb_true.
Defined.

Lemma hillSeries_sorted : nonDecreasingTime hillSeries.
Proof. apply timeSortedb_sound. vm_compute. reflexivity. Defined.

Lemma peaks_increasing_spaced_prominent_witness :
  nonDecreasingTime hillSeries /\
  exists peaks out,
    findPeaks (validRecords hillSeries) = Some peaks /\
    hillPeaks hillSeries = Some out /\
    Sorted (fun a b => hp_elapsedTime a + 120 <= hp_elapsedTime b) out /\
    Forall (fun hp => 15 <= prominenceSpec (validRecords hillSeries)
                                           (hp_index hp)) out.
Proof.
  split; [exact hillSeries_sorted|].
  destruct (peaks_increasing_spaced_prominent hillSeries hillSeries_sorted)
    as (peaks & out & H1 & H2 & _ & _ & _ & _ & H7 & H8).
  exists peaks, out. repeat split; assumption.
Defined.

Lemma recovery_value_from_closest_sample_witness :
  findPeaks (validRecords hillSeries) = Some [10%nat] /\
  exists hp hr,
    hillPeakOf (validRecords hillSeries) 10 = Some hp /\
    hp_hr after5min hp = Some hr /\
    hp_recovery after5min hp = Some (hp_peakHR hp - hr).
Proof.
  assert (Hp : findPeaks (validRecords hillSeries) = Some [10%nat])
    by (vm_compute; reflexivity).
  split; [exact Hp|].
  destruct (recovery_value_from_closest_sample hillSeries [10%nat] 10
              after5min hillSeries_sorted Hp (or_introl eq_refl))
    as (peakRecord & hrPeak & hp & closest & j & hr & Hpk & HhrP & Hhp
        & HpHR & Hj & Hn & Hhr & Hmin & Hin & Hout).
  exists hp, hr. split; [exact Hhp|].
  assert (Hpk' : nth_error (validRecords hillSeries) 10
                 = Some (point 100 300 100 160 3))
    by (vm_compute; reflexivity).
  rewrite Hpk' in Hpk. injection Hpk as <-.
  assert (Hw : Qabs (elapsedTime closest
                 - (elapsedTime (point 100 300 100 160 3)
                    + offsetSeconds after5min)) <= 15).
  { eapply Qle_trans.
    - apply (Hmin 39%nat (point 390 1170 0 131 3)); [lia|].
      vm_compute. reflexivity.
    - vm_compute. discriminate. }
  destruct (Hin Hw) as [H1 H2]. rewrite HpHR. split; assumption.
Defined.

Lemma record_emitted_iff_offset_matched_witness :
  In hillSummit [hillSummit] <-> exists o, hp_hr o hillSummit <> None.
Proof.
  refine (proj1 (record_emitted_iff_offset_matched hillSeries [hillSummit]
                   [10%nat] 10 hillSummit _ _ _ _ _)).
  - vm_compute. lia.
  - vm_compute. reflexivity.
  - vm_compute. reflexivity.
  - now left.
  - vm_compute. reflexivity.
Defined.

Lemma sparse_series_yields_no_peaks_witness :
  (List.length (validRecords sparseSeries) < 20)%nat /\
  hillPeaks sparseSeries = Some [].
Proof.
  assert (H : (List.length (validRecords sparseSeries) < 20)%nat)
    by (vm_compute; lia).
  split; [exact H|]. exact (sparse_series_yields_no_peaks sparseSeries H).
Defined.

Lemma local_maximum_test_witness :
  nth_error (validRecords hillSeries) 10 = Some (point 100 300 100 160 3) /\
  exists nbrs,
    findRecordsInTimeWindow (validRecords hillSeries) 10 peakWindowSeconds
      = Some nbrs /\
    (isLocalMax 100 nbrs = true <->
     forall j r, j <> 10%nat ->
       nth_error (validRecords hillSeries) j = Some r ->
       Qabs (elapsedTime r - 100) <= 60 -> num (altitude r) <= 100).
Proof.
  assert (H : nth_error (validRecords hillSeries) 10
              = Some (point 100 300 100 160 3)) by (vm_compute; reflexivity).
  split; [exact H|].
  destruct (local_maximum_test hillSeries 10 (point 100 300 100 160 3)
              hillSeries_sorted H) as (nbrs & Hn & Hiff & _).
  exists nbrs. split; [exact Hn|exact Hiff].
Defined.

Lemma constant_altitude_yields_no_peaks_witness :
  Forall (fun r => num (altitude r) == 100) (validRecords flatSeries) /\
  hillPeaks flatSeries = Some [].
Proof.
  assert (H : Forall (fun r => num (altitude r) == 100)
                (validRecords flatSeries)).
  { apply Forall_forall. intros r Hr. apply Qeq_bool_iff.
    revert r Hr. apply forallb_forall. vm_compute. reflexivity. }
  split; [exact H|].
  exact (proj2 (proj2 (constant_altitude_yields_no_peaks flatSeries 100 H))).
Defined.

Lemma stride_downsample_contract_witness :
  (List.length (ceilSample 3 fiveRecords) <= 3)%nat /\
  (List.length (downsample fiveRecords 3) < 2 * 3)%nat.
Proof.
  assert (HM : (0 < 3)%nat) by lia.
  assert (Hne : fiveRecords <> []) by discriminate.
  destruct (stride_downsample_contract fiveRecords 3 HM Hne)
    as [(_ & _ & _ & H1) (_ & _ & _ & H2)].
  split; [exact H1|exact H2].
Defined.

Lemma vertical_rate_estimate_witness :
  (7 < List.length (elevationSampled hillSeries))%nat /\
  exists out pt,
    elevationData metric hillSeries = Some out /\
    nth_error out 7 = Some pt /\
    - (2000) <= ep_vam pt <= 2000.
Proof.
  assert (H : (7 < List.length (elevationSampled hillSeries))%nat)
    by (vm_compute; lia).
  split; [exact H|].
  destruct (vertical_rate_estimate hillSeries 7 H)
    as (out & pt & startP & endP & H1 & H2 & _ & _ & _ & _ & H3).
  exists out, pt. repeat split; try assumption; apply H3.
Defined.

Lemma pace_estimate_witness :
  (2 < List.length (paceSampled fiveRecords))%nat /\
  exists pt,
    nth_error (paceData metric fiveRecords) 2 = Some pt /\
    pp_rawSpeed pt
      == meanOfPresentSpeeds (speedWindow (paceSampled fiveRecords) 2) /\
    pp_pace pt == Qmin 20 (paceMeters metric / pp_rawSpeed pt / 60) /\
    pp_pace pt <= 20.
Proof.
  assert (H : (2 < List.length (paceSampled fiveRecords))%nat)
    by (vm_compute; lia).
  split; [exact H|].
  destruct (pace_estimate metric fiveRecords 2 H)
    as (pt & H1 & _ & Hmean & _ & _ & Hfast & Hcap).
  assert (Hnz : forall r v,
             In r (speedWindow (paceSampled fiveRecords) 2) ->
             speed r = Some v -> ~ v == 0).
  { intros r v Hr E Hv.
    vm_compute in Hr.
    repeat (destruct Hr as [Hr|Hr];
            [subst r; injection E as E; subst v; vm_compute in Hv;
             discriminate Hv|]).
    exact Hr. }
  exists pt. split; [exact H1|].
  split; [exact (Hmean Hnz)|].
  split; [|exact Hcap].
  apply Hfast. rewrite (Hmean Hnz). vm_compute. reflexivity.
Defined.

Lemma matched_sample_strictly_after_peak_witness :
  hillPeaks hillSeries = Some [hillSummit] /\
  exists closest,
    heartRate closest = Some 131 /\
    hp_elapsedTime hillSummit + 45 <= elapsedTime closest.
Proof.
  assert (H : hillPeaks hillSeries = Some [hillSummit])
    by (vm_compute; reflexivity).
  split; [exact H|].
  destruct (matched_sample_strictly_after_peak hillSeries [hillSummit]
              hillSummit after5min 131 H (or_introl eq_refl) eq_refl)
    as (closest & j & _ & _ & Hhr & _ & _ & H45 & _).
  exists closest. split; assumption.
Defined.

(* ------------------------------------------------------------------ *)
(** ** Further properties of the hill-peak memo *)

Lemma peakLoop_index_sorted vr :
  forall rest i peaks,
    skipn i vr = rest -> PeakInv vr i peaks ->
    StronglySorted lt peaks ->
    forall out, peakLoop vr i rest peaks = Some out -> StronglySorted lt out.
Proof.
  induction rest as [|cur after IH]; intros i peaks Hrest Hinv Hs out Hout.
  - simpl in Hout. now injection Hout as <-.
  - apply skipn_cons_inv in Hrest. destruct Hrest as [Hcur Hafter].
    simpl in Hout. rewrite <- Hafter in Hout.
    destruct (PeakInv_step vr i peaks cur Hcur Hinv) as (peaks' & Hstep & Hinv').
    rewrite Hstep in Hout. rewrite Hafter in Hout.
    apply (IH (S i) peaks' Hafter Hinv'); [|exact Hout].
    destruct (peakStep_cases vr peaks i cur Hcur (PeakInv_range _ _ _ Hinv))
      as [H|(H & _)]; rewrite H in Hstep; injection Hstep as <-.
    + exact Hs.
    + apply StronglySorted_snoc; [exact Hs|].
      destruct Hinv as [Hall _].
      apply Forall_forall. intros p Hp.
      rewrite Forall_forall in Hall. exact (proj1 (Hall p Hp)).
Qed.

Lemma findPeaks_index_sorted vr peaks :
  findPeaks vr = Some peaks -> StronglySorted lt peaks.
Proof.
  intro H. apply (peakLoop_index_sorted vr vr 0%nat [] eq_refl); try assumption.
  - split; constructor.
  - constructor.
Qed.

(** The emitted list as the filtered image of the accepted indices, in
    both branches of the sample-count guard. *)
Lemma hillPeaks_image records out :
  hillPeaks records = Some out ->
  exists peaks data,
    StronglySorted lt peaks /\
    StronglySorted (spacedAfter (validRecords records)) peaks /\
    Forall2 (fun p hp => hillPeakOf (validRecords records) p = Some hp)
      peaks data /\
    out = filter hasRecovery data.
Proof.
  intro Hout.
  destruct (Nat.lt_ge_cases (List.length (validRecords records))
              minValidRecords) as [Hlt|Hge].
  - rewrite (hillPeaks_sparse records Hlt) in Hout. injection Hout as <-.
    exists [], []. repeat split; constructor.
  - destruct (hillPeaks_unfold records out Hge Hout)
      as (peaks & data & Hp & H2 & ->).
    exists peaks, data. repeat split; try assumption.
    + exact (findPeaks_index_sorted _ _ Hp).
    + destruct (findPeaks_inv (validRecords records)) as (peaks' & Hp' & _ & Hs).
      rewrite Hp in Hp'. now injection Hp' as <-.
Qed.

(** X1. The memo never reads outside the valid subset: it always returns
    a list. Each emitted record points at a valid sample and carries that
    sample's elapsedTime, altitude, heart rate and distance in km, and the
    records appear in strictly increasing index order. *)
Theorem hill_peaks_records_reflect_samples (records : list TrackRecord) :
  exists out,
    hillPeaks records = Some out /\
    StronglySorted (fun a b => (hp_index a < hp_index b)%nat) out /\
    Forall (fun hp =>
      exists r,
        nth_error (validRecords records) (hp_index hp) = Some r /\
        hp_elapsedTime hp = elapsedTime r /\
        altitude r = Some (hp_altitude hp) /\
        heartRate r = Some (hp_peakHR hp) /\
        hp_distance hp = orZero (distance r) / 1000) out.
Proof.
  destruct (hillPeaks_defined records) as [out Hout]. exists out.
  split; [exact Hout|]. split.
  - destruct (hillPeaks_image records out Hout)
      as (peaks & data & Hidx & _ & H2 & ->).
    apply StronglySorted_filter.
    apply (StronglySorted_Forall2 lt _ _ ) with (3 := Hidx) (2 := H2).
    intros a b a' b' Ha Hb Hab.
    destruct (hillPeakOf_fields _ _ _ Ha) as (ra & _ & -> & _).
    destruct (hillPeakOf_fields _ _ _ Hb) as (rb & _ & -> & _).
    exact Hab.
  - apply Forall_forall. intros hp Hin.
    destruct (hillPeaks_In records out hp Hout Hin) as (peaks & _ & _ & Hhp & _).
    unfold hillPeakOf in Hhp.
    destruct (nth_error (validRecords records) (hp_index hp)) as [r|] eqn:Hr;
      [|discriminate].
    destruct (validRecords_valid records r) as (a & h & Ha & Hh).
    { eapply nth_error_In; exact Hr. }
    exists r. split; [reflexivity|].
    injection Hhp as <-. simpl. rewrite Ha, Hh. repeat split.
Qed.

(** X2. On a time-ordered series every emitted peak is a local maximum:
    no valid sample within 60 seconds of it is higher. *)
Theorem emitted_peak_is_local_maximum (records : list TrackRecord)
    (out : list HillPeak) (hp : HillPeak) :
  nonDecreasingTime records ->
  hillPeaks records = Some out ->
  In hp out ->
  forall j r,
    nth_error (validRecords records) j = Some r ->
    Qabs (elapsedTime r - hp_elapsedTime hp) <= 60 ->
    num (altitude r) <= hp_altitude hp.
Proof.
  intros Hsorted Hout Hin j r Hr Hw.
  pose proof (validRecords_sorted records Hsorted) as HS.
  destruct (hillPeaks_In records out hp Hout Hin) as (peaks & Hp & Hpin & Hhp & _).
  destruct (hillPeakOf_fields _ _ _ Hhp) as (cur & Hcur & _ & Ht & Ha & _).
  rewrite Ht in Hw. rewrite Ha.
  destruct (findPeaks_accepted _ _ _ Hp Hpin)
    as (cur' & nbrs & Hcur' & Hn & Hmax & _).
  rewrite Hcur in Hcur'. injection Hcur' as <-.
  destruct (Nat.eq_dec j (hp_index hp)) as [->|Hne].
  - rewrite Hcur in Hr. injection Hr as <-. lra.
  - apply (proj1 (localMax_sorted _ _ _ _ HS Hcur Hn) Hmax j r Hne Hr Hw).
Qed.

Lemma spaced_span (l : list Q) :
  StronglySorted (fun a b => a + 120 <= b) l ->
  forall first last,
    hd_error l = Some first -> hd_error (rev l) = Some last ->
    120 * inject_Z (Z.of_nat (List.length l - 1)) <= last - first.
Proof.
  induction 1 as [|a l HS IH Ha]; intros first last Hf Hl; [discriminate|].
  simpl in Hf. injection Hf as <-.
  destruct l as [|b l'].
  - simpl in Hl. injection Hl as <-.
    change (inject_Z (Z.of_nat (List.length [a] - 1))) with 0. lra.
  - assert (Hl' : hd_error (rev (b :: l')) = Some last).
    { simpl in Hl. simpl.
      destruct (rev l' ++ [b]) as [|x xs] eqn:E.
      - destruct (rev l'); discriminate.
      - simpl in Hl. exact Hl. }
    specialize (IH b last eq_refl Hl').
    inversion Ha as [|? ? Hab _]; subst.
    replace (List.length (a :: b :: l') - 1)%nat
      with (S (List.length (b :: l') - 1)) by (simpl; lia).
    rewrite Nat2Z.inj_succ. unfold Z.succ. rewrite inject_Z_plus.
    change (inject_Z 1) with 1. lra.
Qed.

(** X3. Emitted peaks are at least 120 seconds apart, so [k] of them span
    at least 120 * (k - 1) seconds from the first to the last. *)
Theorem emitted_peaks_span (records : list TrackRecord)
    (out : list HillPeak) (first last : HillPeak) :
  hillPeaks records = Some out ->
  hd_error out = Some first ->
  hd_error (rev out) = Some last ->
  120 * inject_Z (Z.of_nat (List.length out - 1))
  <= hp_elapsedTime last - hp_elapsedTime first.
Proof.
  intros Hout Hf Hl.
  destruct (hillPeaks_image records out Hout)
    as (peaks & data & _ & Hsp & H2 & ->).
  set (out := filter hasRecovery data) in *.
  assert (HS : StronglySorted (fun a b => a + 120 <= b)
                 (map hp_elapsedTime out)).
  { assert (HS' : StronglySorted
        (fun a b => hp_elapsedTime a + 120 <= hp_elapsedTime b) out).
    { apply StronglySorted_filter.
      apply (StronglySorted_Forall2 (spacedAfter (validRecords records)) _ _)
        with (3 := Hsp) (2 := H2).
      intros a b a' b' Ha Hb Hab.
      rewrite (hillPeakOf_time _ a a' Ha), (hillPeakOf_time _ b b' Hb).
      exact Hab. }
    clear -HS'. induction HS' as [|a l _ IH Ha]; simpl; constructor.
    - exact IH.
    - apply Forall_map. exact Ha. }
  pose proof (spaced_span (map hp_elapsedTime out) HS
                (hp_elapsedTime first) (hp_elapsedTime last)) as Hspan.
  rewrite length_map in Hspan. apply Hspan.
  - destruct out; [discriminate|]. simpl in *. now injection Hf as ->.
  - rewrite <- map_rev. destruct (rev out); [discriminate|].
    simpl in *. now injection Hl as ->.
Qed.

(** X4. On a time-ordered series, an offset of a peak's record holds a
    heart rate exactly when some valid sample at or after the peak's index
    lies within 15 seconds of the peak time plus the offset. *)
Theorem offset_matched_iff_sample_in_tolerance (records : list TrackRecord)
    (peakIdx : nat) (hp : HillPeak) (o : RecoveryOffset) :
  nonDecreasingTime records ->
  hillPeakOf (validRecords records) peakIdx = Some hp ->
  (hp_hr o hp <> None <->
   exists j r,
     (peakIdx <= j)%nat /\
     nth_error (validRecords records) j = Some r /\
     Qabs (elapsedTime r - (hp_elapsedTime hp + offsetSeconds o)) <= 15).
Proof.
  intros Hsorted Hhp.
  pose proof (validRecords_sorted records Hsorted) as HS.
  destruct (hillPeakOf_fields _ _ _ Hhp) as (pr & Hpeak & _ & Ht & _ & _ & Hf).
  destruct (Hf o) as [Hhr _]. rewrite Ht.
  destruct (findClosest_best _ peakIdx pr
              (elapsedTime pr + offsetSeconds o) HS Hpeak)
    as (closest & j & Hc & Hj & Hn & Hmin).
  rewrite (findHRAtOffset_of_closest _ _ _ _ _ Hc) in Hhr.
  destruct (validRecords_valid records closest) as (a & h & _ & Hh).
  { eapply nth_error_In; exact Hn. }
  unfold recoveryTolerance in Hhr. rewrite Hhr. split.
  - intro Hsome.
    destruct (Qleb _ 15) eqn:E; [|contradiction].
    exists j, closest. repeat split; try assumption. now apply Qleb_true.
  - intros (k & r & Hk & Hr & Hw).
    assert (E : Qleb (Qabs (elapsedTime closest
                  - (elapsedTime pr + offsetSeconds o))) 15 = true).
    { apply Qleb_true. eapply Qle_trans; [apply (Hmin k r Hk Hr)|exact Hw]. }
    rewrite E, Hh. discriminate.
Qed.

(* ------------------------------------------------------------------ *)
(** ** Further properties of the chart estimators *)

Lemma length_ceilSample {A : Type} (M : nat) (l : list A) :
  (0 < M)%nat -> (List.length (ceilSample M l) <= M)%nat.
Proof.
  intro HM. destruct l as [|x xs]; [simpl; lia|].
  unfold ceilSample.
  set (n := List.length (x :: xs)).
  assert (Hn : (0 < n)%nat) by (subst n; simpl; lia).
  assert (Hs : (0 < ceilDiv n M)%nat) by (now apply ceilDiv_pos).
  destruct (length_strideFilter (ceilDiv n M) Hs (x :: xs)) as [_ Hup].
  fold n in Hup. pose proof (ceilDiv_covers n M HM) as Hcov.
  destruct (List.length (strideFilter (ceilDiv n M) (x :: xs))) as [|L];
    [lia|].
  specialize (Hup L (Nat.lt_succ_diag_r L)). nia.
Qed.

Lemma mapiM_length {A B : Type} (f : nat -> A -> option B) :
  forall l off out, mapiM f off l = Some out ->
                    List.length out = List.length l.
Proof.
  induction l as [|a l IH]; intros off out H; simpl in H.
  - now injection H as <-.
  - destruct (f off a); [|discriminate].
    destruct (mapiM f (S off) l) as [ys|] eqn:E; [|discriminate].
    injection H as <-. simpl. f_equal. now apply (IH (S off)).
Qed.

Lemma mapi_length {A B : Type} (f : nat -> A -> B) :
  forall l off, List.length (mapi f off l) = List.length l.
Proof.
  induction l as [|a l IH]; intro off; simpl; [reflexivity|].
  now rewrite IH.
Qed.

Lemma elevationPointAt_defined units (arr : list TrackRecord) i p :
  nth_error arr i = Some p ->
  exists startP endP,
    nth_error arr (startIdxOf i) = Some startP /\
    nth_error arr (endIdxOf arr i) = Some endP /\
    elevationPointAt units arr i p
    = Some (mkElevationPoint
              (orZero (distance p) * distanceConversion units)
              (orZero (altitude p) * elevationConversion units)
              (vamOf units startP endP)).
Proof.
  intro Hp. unfold elevationPointAt.
  assert (Hlt : (i < List.length arr)%nat)
    by (apply nth_error_Some; congruence).
  destruct (window_bounds_in_range arr i Hlt) as (H1 & H2 & H3).
  destruct (nth_error arr (startIdxOf i)) as [startP|] eqn:Es;
    [|apply nth_error_None in Es; lia].
  destruct (nth_error arr (endIdxOf arr i)) as [endP|] eqn:Ee;
    [|apply nth_error_None in Ee; lia].
  now exists startP, endP.
Qed.

Lemma elevationData_points units records :
  exists out,
    elevationData units records = Some out /\
    forall i p, nth_error (elevationSampled records) i = Some p ->
      exists pt, nth_error out i = Some pt /\
        elevationPointAt units (elevationSampled records) i p = Some pt.
Proof.
  unfold elevationData. set (arr := elevationSampled records).
  destruct (mapiM_nth (elevationPointAt units arr) arr 0) as (out & Ho & Hn).
  - intros i x Hx. simpl.
    destruct (elevationPointAt_defined units arr i x Hx) as (s & e & _ & _ & ->).
    eauto.
  - exists out. split; [exact Ho|]. intros i p Hp.
    destruct (Hn i p Hp) as (pt & H1 & H2). exists pt. now split.
Qed.

Lemma clampVam_bounds (limit v : Q) :
  0 <= limit ->
  - limit <= clampVam limit v <= limit /\
  (0 <= v -> 0 <= clampVam limit v) /\
  (v <= 0 -> clampVam limit v <= 0).
Proof.
  intro Hl. rewrite (clampVam_spec limit v Hl).
  destruct (Q.min_spec limit v) as [[? Emin]|[? Emin]];
  destruct (Q.max_spec (- limit) (Qmin limit v)) as [[? Emax]|[? Emax]];
  (split; [split; lra|split; intros Hv; lra]).
Qed.

Lemma vamLimit_nonneg units : 0 <= vamLimit units.
Proof. destruct units; simpl; lra. Qed.

Lemma elevationConversion_pos units : 0 < elevationConversion units.
Proof. destruct units; simpl; lra. Qed.

(** The vertical speed of one window never leaves the clamp range and
    never has the sign opposite to the altitude change. *)
Lemma vamOf_sign units (startP endP : TrackRecord) :
  - vamLimit units <= vamOf units startP endP <= vamLimit units /\
  (num (altitude startP) <= num (altitude endP) ->
   0 <= vamOf units startP endP) /\
  (num (altitude endP) <= num (altitude startP) ->
   vamOf units startP endP <= 0).
Proof.
  unfold vamOf.
  set (timeDiff := (elapsedTime endP - elapsedTime startP) / 3600).
  set (rise := num (altitude endP) - num (altitude startP)).
  pose proof (vamLimit_nonneg units) as Hl.
  pose proof (elevationConversion_pos units) as Hc.
  destruct (Qltb 0.001 timeDiff) eqn:E.
  - apply Qltb_true in E.
    assert (Hinv : 0 <= / timeDiff) by (apply Qinv_le_0_compat; lra).
    set (v := rise * elevationConversion units / timeDiff).
    destruct (clampVam_bounds (vamLimit units) v Hl) as (Hb & Hpos & Hneg).
    split; [exact Hb|]. split; intro Hr.
    + apply Hpos. unfold v, Qdiv.
      apply Qmult_le_0_compat; [|exact Hinv].
      apply Qmult_le_0_compat; [unfold rise|]; lra.
    + apply Hneg.
      assert (Hv : 0 <= (- rise) * elevationConversion units * / timeDiff).
      { apply Qmult_le_0_compat; [|exact Hinv].
        apply Qmult_le_0_compat; [unfold rise|]; lra. }
      assert (Heq : (- rise) * elevationConversion units * / timeDiff
                    == - v) by (unfold v, Qdiv; ring).
      lra.
  - destruct (clampVam_bounds (vamLimit units) 0 Hl) as (Hb & Hpos & Hneg).
    split; [exact Hb|]. split; intros _; [apply Hpos|apply Hneg]; lra.
Qed.

(** X5. In either unit system, for every index of the sampled sequence
    the vertical speed lies within the clamp limit (2000 metric, 6000
    imperial) and its sign follows the altitude change between the two
    ends of the window: not negative when the window climbs, not positive
    when it descends, hence 0 when both ends are level. *)
Theorem vertical_rate_sign_and_limit (units : UnitSystem)
    (records : list TrackRecord) (i : nat) :
  let arr := elevationSampled records in
  let n := List.length arr in
  (i < n)%nat ->
  exists out pt startP endP,
    elevationData units records = Some out /\
    nth_error out i = Some pt /\
    nth_error arr (Nat.max 0 (i - 5)) = Some startP /\
    nth_error arr (Nat.min (n - 1) (i + 5)) = Some endP /\
    - vamLimit units <= ep_vam pt <= vamLimit units /\
    (num (altitude startP) <= num (altitude endP) -> 0 <= ep_vam pt) /\
    (num (altitude endP) <= num (altitude startP) -> ep_vam pt <= 0).
Proof.
  intros arr n Hi.
  destruct (elevationData_points units records) as (out & Hout & Hn).
  destruct (nth_error arr i) as [p|] eqn:Hp;
    [|apply nth_error_None in Hp; lia].
  destruct (Hn i p Hp) as (pt & Hpt & Hat).
  destruct (elevationPointAt_defined units arr i p Hp)
    as (startP & endP & Hs & He & Hdef).
  fold arr in Hat. rewrite Hdef in Hat. injection Hat as <-.
  exists out, (mkElevationPoint
                 (orZero (distance p) * distanceConversion units)
                 (orZero (altitude p) * elevationConversion units)
                 (vamOf units startP endP)), startP, endP.
  repeat (split; [assumption|]).
  exact (vamOf_sign units startP endP).
Qed.

(** X6. The elevation chart data is always produced, has one point per
    sampled record and at most 300 points, and the point at each position
    carries that record's distance and altitude scaled by the unit
    factors. *)
Theorem elevation_data_shape (units : UnitSystem)
    (records : list TrackRecord) :
  exists out,
    elevationData units records = Some out /\
    List.length out = List.length (elevationSampled records) /\
    (List.length out <= 300)%nat /\
    forall i p, nth_error (elevationSampled records) i = Some p ->
      exists pt,
        nth_error out i = Some pt /\
        ep_distance pt = orZero (distance p) * distanceConversion units /\
        ep_altitude pt = orZero (altitude p) * elevationConversion units.
Proof.
  destruct (elevationData_points units records) as (out & Hout & Hn).
  exists out. split; [exact Hout|].
  assert (Hlen : List.length out = List.length (elevationSampled records)).
  { unfold elevationData in Hout. now apply mapiM_length in Hout. }
  split; [exact Hlen|]. split.
  - rewrite Hlen. unfold elevationSampled, sampled.
    apply length_ceilSample. unfold chartBudget. lia.
  - intros i p Hp. destruct (Hn i p Hp) as (pt & Hpt & Hat).
    destruct (elevationPointAt_defined units _ i p Hp)
      as (startP & endP & _ & _ & Hdef).
    rewrite Hdef in Hat. injection Hat as <-.
    eexists. split; [exact Hpt|]. split; reflexivity.
Qed.

Lemma paceOf_range units avgSpeed :
  0 <= paceOf units avgSpeed <= 20 /\
  (0.1 < avgSpeed -> 0 < paceOf units avgSpeed).
Proof.
  destruct (paceOf_spec units avgSpeed) as (Hlow & Hhigh & Hcap).
  assert (Hpm : 0 < paceMeters units) by (destruct units; simpl; lra).
  destruct (Qlt_le_dec 0.1 avgSpeed) as [Hgt|Hle].
  - assert (Hpos : 0 < paceMeters units / avgSpeed / 60).
    { unfold Qdiv. apply Qmult_lt_0_compat; [|reflexivity].
      apply Qmult_lt_0_compat; [exact Hpm|].
      apply Qinv_lt_0_compat. lra. }
    specialize (Hhigh Hgt).
    destruct (Q.min_spec 20 (paceMeters units / avgSpeed / 60))
      as [[? E]|[? E]]; (split; [split|intros _]; lra).
  - rewrite (Hlow Hle). split; [lra|]. intro. lra.
Qed.

Lemma paceOf_antitone units a b :
  0.1 < a -> a <= b -> paceOf units b <= paceOf units a.
Proof.
  intros Ha Hab.
  destruct (paceOf_spec units a) as (_ & Ea & _).
  destruct (paceOf_spec units b) as (_ & Eb & _).
  rewrite (Ea Ha), (Eb ltac:(lra)).
  assert (Hpm : 0 < paceMeters units) by (destruct units; simpl; lra).
  assert (Hle : paceMeters units / b / 60 <= paceMeters units / a / 60).
  { unfold Qdiv at 1 3. apply Qmult_le_compat_r; [|discriminate].
    apply Qle_shift_div_r; [lra|].
    assert (E : paceMeters units / a * a == paceMeters units)
      by (field; lra).
    assert (0 <= paceMeters units / a).
    { unfold Qdiv. apply Qmult_le_0_compat; [lra|].
      apply Qinv_le_0_compat. lra. }
    assert (a * (paceMeters units / a) <= b * (paceMeters units / a)).
    { apply Qmult_le_compat_r; assumption. }
    set (k := paceMeters units / a) in *. lra. }
  destruct (Q.min_spec 20 (paceMeters units / b / 60)) as [[? E1]|[? E1]];
  destruct (Q.min_spec 20 (paceMeters units / a / 60)) as [[? E2]|[? E2]];
  lra.
Qed.

Lemma paceData_points units records :
  forall i, nth_error (paceData units records) i
            = option_map (pacePointAt units (paceSampled records) i)
                (nth_error (paceSampled records) i).
Proof. intro i. unfold paceData. now rewrite mapi_nth. Qed.

Lemma paceData_In units records pt :
  In pt (paceData units records) ->
  pp_pace pt = paceOf units (pp_rawSpeed pt).
Proof.
  intro H. apply In_nth_error in H. destruct H as [i Hi].
  rewrite paceData_points in Hi.
  destruct (nth_error (paceSampled records) i); [|discriminate].
  simpl in Hi. injection Hi as <-. reflexivity.
Qed.

(** X7. The pace chart data has one point per sampled record and at most
    300 points; the point at each position carries that record's heart
    rate and scaled distance, and its pace lies between 0 and 20. *)
Theorem pace_data_shape (units : UnitSystem) (records : list TrackRecord) :
  let out := paceData units records in
  List.length out = List.length (paceSampled records) /\
  (List.length out <= 300)%nat /\
  forall i p, nth_error (paceSampled records) i = Some p ->
    exists pt,
      nth_error out i = Some pt /\
      pp_heartRate pt = heartRate p /\
      pp_distance pt = orZero (distance p) * distanceConversion units /\
      0 <= pp_pace pt <= 20.
Proof.
  intro out.
  assert (Hlen : List.length out = List.length (paceSampled records))
    by apply mapi_length.
  split; [exact Hlen|]. split.
  - rewrite Hlen. unfold paceSampled, sampled.
    apply length_ceilSample. unfold chartBudget. lia.
  - intros i p Hp. unfold out. rewrite paceData_points, Hp. simpl.
    eexists. split; [reflexivity|]. cbn [pp_heartRate pp_distance pp_pace].
    repeat split; apply paceOf_range.
Qed.

Lemma speedLoop_stationary (window : list TrackRecord) :
  (forall r, In r window -> truthy (speed r) = false) ->
  forall sumSpeed count,
    speedLoop window sumSpeed count = (sumSpeed, count).
Proof.
  induction window as [|r rest IH]; intros H sumSpeed count; simpl;
    [reflexivity|].
  rewrite (H r (or_introl eq_refl)). apply IH.
  intros r' Hr'. apply H. now right.
Qed.

Lemma truthy_zero (o : option Q) : num o == 0 -> truthy o = false.
Proof.
  destruct o as [v|]; simpl; [|reflexivity].
  intro H. apply negb_false_iff. now apply Qeq_bool_iff.
Qed.

(** X8. When every sample of the window around index [i] has speed 0, the
    point's average speed is exactly 0 and its pace is the stationary
    value 0, whatever the unit system. *)
Theorem stationary_window_reports_zero (units : UnitSystem)
    (records : list TrackRecord) (i : nat) :
  let arr := paceSampled records in
  let n := List.length arr in
  (i < n)%nat ->
  (forall j r,
     (Nat.max 0 (i - 5) <= j <= Nat.min (n - 1) (i + 5))%nat ->
     nth_error arr j = Some r -> num (speed r) == 0) ->
  exists pt,
    nth_error (paceData units records) i = Some pt /\
    pp_rawSpeed pt = 0 /\ pp_pace pt = 0.
Proof.
  intros arr n Hi Hzero.
  destruct (nth_error arr i) as [p|] eqn:Hp;
    [|apply nth_error_None in Hp; lia].
  exists (pacePointAt units arr i p). split.
  - rewrite paceData_points. fold arr. now rewrite Hp.
  - unfold pacePointAt. cbn [pp_rawSpeed pp_pace].
    assert (Havg : avgSpeedOf (speedWindow arr i) = 0).
    { unfold avgSpeedOf. rewrite speedLoop_stationary; [reflexivity|].
      intros r Hr. apply truthy_zero.
      apply (speedWindow_In arr i r Hi) in Hr.
      destruct Hr as (j & Hj & Hn). now apply (Hzero j r). }
    rewrite Havg. split; [reflexivity|].
    apply paceOf_spec. discriminate.
Qed.

(** X9. Among the points of the pace chart whose average speed exceeds
    0.1 m/s, a faster point never shows a larger pace, and the pace shown
    is positive. *)
Theorem pace_decreases_with_speed (units : UnitSystem)
    (records : list TrackRecord) (pt1 pt2 : PacePoint) :
  In pt1 (paceData units records) ->
  In pt2 (paceData units records) ->
  0.1 < pp_rawSpeed pt1 ->
  pp_rawSpeed pt1 <= pp_rawSpeed pt2 ->
  pp_pace pt2 <= pp_pace pt1 /\ 0 < pp_pace pt2.
Proof.
  intros H1 H2 Hgt Hle.
  rewrite (paceData_In units records pt1 H1), (paceData_In units records pt2 H2).
  split.
  - now apply paceOf_antitone.
  - apply paceOf_range. lra.
Qed.

(* ------------------------------------------------------------------ *)
(** ** Zone segments *)

Lemma Zone_eqb_eq (a b : Zone) : Zone_eqb a b = true <-> a = b.
Proof. destruct a, b; simpl; split; intro H; congruence. Qed.

Lemma Zone_eqb_neq (a b : Zone) : Zone_eqb a b = false <-> a <> b.
Proof. destruct a, b; simpl; split; intro H; congruence. Qed.

Lemma joinSegments_snoc (segs : list ZoneSegment) (c : ZoneSegment) :
  segs <> [] ->
  joinSegments (segs ++ [c]) = joinSegments segs ++ tl (seg_points c).
Proof.
  destruct segs as [|s rest]; [contradiction|]. intros _. simpl.
  rewrite flat_map_app. simpl. rewrite app_nil_r. apply app_assoc.
Qed.

Lemma joinSegments_push (segs : list ZoneSegment) (c : ZoneSegment)
    (p : ChartPoint) :
  seg_points c <> [] ->
  joinSegments (segs ++ [pushPoint c p]) = joinSegments (segs ++ [c]) ++ [p].
Proof.
  intro Hne. destruct segs as [|s rest].
  - simpl. now rewrite !app_nil_r.
  - rewrite !joinSegments_snoc by discriminate.
    unfold pushPoint. cbn [seg_points].
    destruct (seg_points c) as [|x xs]; [contradiction|].
    simpl tl. now rewrite app_assoc.
Qed.

Lemma groupLoop_join :
  forall rest segs cur,
    seg_points cur <> [] ->
    joinSegments (groupLoop rest segs cur)
    = joinSegments (segs ++ [cur]) ++ rest.
Proof.
  induction rest as [|p rest IH]; intros segs cur Hne; simpl.
  - now rewrite app_nil_r.
  - destruct (Zone_eqb (cp_zone p) (seg_zone cur)).
    + rewrite IH.
      * rewrite (joinSegments_push segs cur p Hne).
        now rewrite <- app_assoc.
      * unfold pushPoint. simpl. now destruct (seg_points cur).
    + rewrite IH by discriminate.
      rewrite joinSegments_snoc by (now destruct segs).
      rewrite (joinSegments_push segs cur p Hne). simpl tl.
      rewrite app_nil_r, <- app_assoc. reflexivity.
Qed.

(** X10. [groupByZone] loses no point and adds none except the repeated
    transition points: joining the segments, each after the first without
    its leading point, gives back the input; the result is empty only for
    an empty input. *)
Theorem group_by_zone_rejoins (points : list ChartPoint) :
  joinSegments (groupByZone points) = points /\
  (groupByZone points = [] <-> points = []).
Proof.
  destruct points as [|p0 rest]; [now split|]. split.
  - unfold groupByZone. rewrite groupLoop_join by discriminate. reflexivity.
  - split; [|discriminate]. intro H.
    assert (Hj : joinSegments (groupByZone (p0 :: rest)) = p0 :: rest).
    { unfold groupByZone. now rewrite groupLoop_join by discriminate. }
    rewrite H in Hj. discriminate Hj.
Qed.

Lemma zoneChanges_cons (prev p : ChartPoint) (rest : list ChartPoint) :
  zoneChanges (prev :: p :: rest)
  = ((if Zone_eqb (cp_zone p) (cp_zone prev) then 0 else 1)
     + zoneChanges (p :: rest))%nat.
Proof. reflexivity. Qed.

Lemma groupLoop_length :
  forall rest segs cur prev,
    seg_zone cur = cp_zone prev ->
    List.length (groupLoop rest segs cur)
    = (List.length segs + S (zoneChanges (prev :: rest)))%nat.
Proof.
  induction rest as [|p rest IH]; intros segs cur prev Hz.
  - simpl. rewrite length_app. simpl. lia.
  - cbn [groupLoop]. rewrite zoneChanges_cons, Hz.
    destruct (Zone_eqb (cp_zone p) (cp_zone prev)) eqn:E.
    + rewrite (IH segs (pushPoint cur p) p).
      * lia.
      * unfold pushPoint. simpl. apply Zone_eqb_eq in E. congruence.
    + rewrite (IH (segs ++ [pushPoint cur p])
                 (mkZoneSegment (cp_zone p) [p]) p eq_refl).
      rewrite length_app. simpl. lia.
Qed.

(** X11. A non-empty list of chart points is cut into one segment more
    than it has zone changes between adjacent points. *)
Theorem group_by_zone_counts_changes (points : list ChartPoint) :
  points <> [] ->
  List.length (groupByZone points) = S (zoneChanges points).
Proof.
  destruct points as [|p0 rest]; [contradiction|]. intros _.
  unfold groupByZone.
  now rewrite (groupLoop_length rest [] (mkZoneSegment (cp_zone p0) [p0])
                 p0 eq_refl).
Qed.

Lemma linked_snoc_replace (segs : list ZoneSegment) (c c' : ZoneSegment) :
  linked (segs ++ [c]) ->
  hd_error (seg_points c) = hd_error (seg_points c') ->
  linked (segs ++ [c']).
Proof.
  intros Hl Hhd. induction segs as [|s segs IH]; [exact I|].
  destruct segs as [|s2 segs'].
  - simpl in *. destruct Hl as [H _]. split; [congruence|exact I].
  - simpl in Hl. destruct Hl as [H1 H2]. simpl. split; [exact H1|].
    apply IH. exact H2.
Qed.

Lemma linked_snoc_add (segs : list ZoneSegment) (c d : ZoneSegment) :
  linked (segs ++ [c]) ->
  hd_error (rev (seg_points c)) = hd_error (seg_points d) ->
  linked ((segs ++ [c]) ++ [d]).
Proof.
  intros Hl Hhd. induction segs as [|s segs IH].
  - simpl. split; [exact Hhd|exact I].
  - destruct segs as [|s2 segs'].
    + simpl in *. destruct Hl as [H _]. repeat split; assumption.
    + simpl in Hl. destruct Hl as [H1 H2]. simpl. split; [exact H1|].
      apply IH. exact H2.
Qed.

Lemma linked_nth (l : list ZoneSegment) :
  linked l ->
  forall i s1 s2,
    nth_error l i = Some s1 -> nth_error l (S i) = Some s2 ->
    hd_error (rev (seg_points s1)) = hd_error (seg_points s2).
Proof.
  induction l as [|s l IH]; intros Hl i s1 s2 H1 H2; [now destruct i|].
  destruct l as [|s' l']; [now destruct i|].
  simpl in Hl. destruct Hl as [Hh Hl].
  destruct i as [|i].
  - simpl in H1, H2. injection H1 as <-. injection H2 as <-. exact Hh.
  - apply (IH Hl i s1 s2); assumption.
Qed.

Lemma groupLoop_inv :
  forall rest segs cur,
    Forall ClosedSegment segs -> OpenSegment cur ->
    linked (segs ++ [cur]) ->
    exists closed final,
      groupLoop rest segs cur = closed ++ [final] /\
      Forall ClosedSegment closed /\ OpenSegment final /\
      linked (closed ++ [final]).
Proof.
  induction rest as [|p rest IH]; intros segs cur Hc Ho Hl; simpl.
  - now exists segs, cur.
  - destruct Ho as [Hne Hall].
    assert (Hhd : hd_error (seg_points cur)
                  = hd_error (seg_points (pushPoint cur p))).
    { unfold pushPoint. simpl. now destruct (seg_points cur). }
    pose proof (linked_snoc_replace segs cur _ Hl Hhd) as Hl'.
    destruct (Zone_eqb (cp_zone p) (seg_zone cur)) eqn:E.
    + apply Zone_eqb_eq in E. apply IH; try assumption.
      split.
      * unfold pushPoint. simpl. now destruct (seg_points cur).
      * unfold pushPoint. simpl. apply Forall_app. split; [exact Hall|].
        constructor; [exact E|constructor].
    + apply Zone_eqb_neq in E. apply IH.
      * apply Forall_app. split; [exact Hc|]. constructor; [|constructor].
        exists (seg_points cur), p. repeat split; assumption.
      * split; [discriminate|]. simpl. constructor; [reflexivity|constructor].
      * apply linked_snoc_add; [exact Hl'|].
        unfold pushPoint. simpl. rewrite rev_app_distr. reflexivity.
Qed.

Lemma segment_head_zone (s : ZoneSegment) :
  ClosedSegment s \/ OpenSegment s ->
  exists p, hd_error (seg_points s) = Some p /\ cp_zone p = seg_zone s.
Proof.
  intros [(body & lastp & Hp & Hne & Hall & _)|[Hne Hall]].
  - rewrite Hp. destruct body as [|b body']; [contradiction|].
    exists b. split; [reflexivity|]. now inversion Hall.
  - destruct (seg_points s) as [|b l]; [contradiction|].
    exists b. split; [reflexivity|]. now inversion Hall.
Qed.

(** X12. For a non-empty input the result is a run of closed segments
    followed by one open segment. A closed segment holds one or more
    points of its own zone and then the transition point, whose zone
    differs; the open segment holds only points of its zone. Each segment
    ends with the very point the next one starts with, and adjacent
    segments have different zones. *)
Theorem group_by_zone_segments (points : list ChartPoint) :
  points <> [] ->
  exists closed final,
    groupByZone points = closed ++ [final] /\
    Forall ClosedSegment closed /\
    OpenSegment final /\
    forall i s1 s2,
      nth_error (groupByZone points) i = Some s1 ->
      nth_error (groupByZone points) (S i) = Some s2 ->
      hd_error (rev (seg_points s1)) = hd_error (seg_points s2) /\
      seg_zone s1 <> seg_zone s2.
Proof.
  destruct points as [|p0 rest]; [contradiction|]. intros _.
  destruct (groupLoop_inv rest [] (mkZoneSegment (cp_zone p0) [p0]))
    as (closed & final & Hg & Hc & Ho & Hl).
  - constructor.
  - split; [discriminate|]. simpl. constructor; [reflexivity|constructor].
  - exact I.
  - exists closed, final. unfold groupByZone. rewrite Hg.
    split; [reflexivity|]. do 2 (split; [assumption|]).
    intros i s1 s2 H H0. split.
    + now apply (linked_nth _ Hl i).
    + pose proof (linked_nth _ Hl i s1 s2 H H0) as Hlink.
      assert (Hi : (S i < List.length (closed ++ [final]))%nat)
        by (apply nth_error_Some; congruence).
      rewrite length_app in Hi. simpl in Hi.
      assert (H1 : In s1 closed).
      { rewrite nth_error_app1 in H by lia. eapply nth_error_In; exact H. }
      assert (H2 : ClosedSegment s2 \/ OpenSegment s2).
      { apply nth_error_In in H0. apply in_app_or in H0.
        destruct H0 as [Hin|[<-|[]]]; [left|right; exact Ho].
        rewrite Forall_forall in Hc. now apply Hc. }
      rewrite Forall_forall in Hc.
      destruct (Hc s1 H1) as (body & lastp & Hp & _ & _ & Hz).
      destruct (segment_head_zone s2 H2) as (q & Hq & Hqz).
      rewrite Hp, rev_app_distr, Hq in Hlink. simpl in Hlink.
      injection Hlink as ->. congruence.
Qed.

(* ------------------------------------------------------------------ *)
(** ** Elevation profile of the recovery table *)

(** X13. The profile under the recovery table is empty exactly when no
    record has both altitude and distance; otherwise its [k]-th point is
    the converted record at index [k * step] of those records, for
    step = max(1, floor(n / 200)), and it has fewer than 400 points. *)
Theorem recovery_chart_profile (units : UnitSystem)
    (records : list TrackRecord) :
  let valid := filter hasProfile records in
  let step := floorStride (List.length valid) profileBudget in
  let out := recoveryChartData units records in
  (out = [] <-> valid = []) /\
  (forall k, nth_error out k
             = option_map (toProfilePoint units) (nth_error valid (k * step)))
  /\ (List.length out < 400)%nat.
Proof.
  intros valid step out. unfold out, recoveryChartData. fold valid. fold step.
  destruct valid as [|v vs] eqn:Hv.
  - simpl. repeat split; try reflexivity; try lia.
    intro k. now rewrite !nth_error_nil.
  - change (List.length (v :: vs) =? 0)%nat with false. cbv iota.
    assert (Hs : (0 < step)%nat) by apply floorStride_pos.
    assert (Hnth : forall k,
      nth_error (map (toProfilePoint units) (strideFilter step (v :: vs))) k
      = option_map (toProfilePoint units) (nth_error (v :: vs) (k * step))).
    { intro k. rewrite nth_error_map. f_equal.
      now apply nth_error_strideFilter. }
    split; [|split].
    + split; [|discriminate]. intro H.
      specialize (Hnth 0%nat). rewrite H in Hnth. discriminate Hnth.
    + exact Hnth.
    + rewrite length_map.
      destruct (length_strideFilter step Hs (v :: vs)) as [_ Hup].
      assert (Hb : (List.length (v :: vs) < (step + 1) * 200)%nat).
      { apply (floorStride_bound _ profileBudget). unfold profileBudget. lia. }
      destruct (List.length (strideFilter step (v :: vs))) as [|L]; [lia|].
      specialize (Hup L (Nat.lt_succ_diag_r L)). nia.
Qed.

(* ------------------------------------------------------------------ *)
(** ** Sums and means *)

Lemma fold_left_sum {A : Type} (f : A -> Q) (l : list A) :
  forall a, fold_left (fun sum r => sum + f r) l a == a + sumQ (map f l).
Proof.
  induction l as [|x l IH]; intro a; simpl; [lra|].
  rewrite IH. lra.
Qed.

Lemma count_succ (n : nat) :
  inject_Z (Z.of_nat (S n)) == inject_Z (Z.of_nat n) + 1.
Proof. rewrite Nat2Z.inj_succ. unfold Z.succ. rewrite inject_Z_plus. reflexivity. Qed.

Lemma count_pos (n : nat) : (0 < n)%nat -> 0 < inject_Z (Z.of_nat n).
Proof.
  intro H. change 0 with (inject_Z 0). rewrite <- Zlt_Qlt. lia.
Qed.

Lemma sumQ_bounds (lo hi : Q) (l : list Q) :
  (forall x, In x l -> lo <= x <= hi) ->
  lo * inject_Z (Z.of_nat (List.length l)) <= sumQ l
  <= hi * inject_Z (Z.of_nat (List.length l)).
Proof.
  induction l as [|x l IH]; intro H.
  - change (inject_Z (Z.of_nat (List.length (@nil Q)))) with 0.
    change (sumQ []) with 0. lra.
  - change (sumQ (x :: l)) with (x + sumQ l).
    change (List.length (x :: l)) with (S (List.length l)).
    rewrite count_succ.
    destruct (H x (or_introl eq_refl)) as [H1 H2].
    destruct IH as [I1 I2]; [intros y Hy; apply H; now right|].
    split; lra.
Qed.

(** The mean of a non-empty list lies between any bounds of its
    elements. *)
Lemma mean_bounds (lo hi : Q) (l : list Q) :
  l <> [] ->
  (forall x, In x l -> lo <= x <= hi) ->
  lo <= sumQ l / inject_Z (Z.of_nat (List.length l)) <= hi.
Proof.
  intros Hne H.
  assert (Hn : 0 < inject_Z (Z.of_nat (List.length l))).
  { apply count_pos. destruct l; [contradiction|simpl; lia]. }
  destruct (sumQ_bounds lo hi l H) as [H1 H2]. split.
  - apply Qle_shift_div_l; assumption.
  - apply Qle_shift_div_r; assumption.
Qed.

Lemma mean_map_bounds {A : Type} (f : A -> Q) (lo hi : Q) (l : list A) :
  l <> [] ->
  (forall r, In r l -> lo <= f r <= hi) ->
  lo <= sumQ (map f l) / inject_Z (Z.of_nat (List.length l)) <= hi.
Proof.
  intros Hne H. rewrite <- (length_map f l).
  apply mean_bounds.
  - destruct l; [contradiction|discriminate].
  - intros x Hx. apply in_map_iff in Hx. destruct Hx as (r & <- & Hr).
    now apply H.
Qed.

(* ------------------------------------------------------------------ *)
(** ** Map centre *)

(** X14. Without a record whose latitude and longitude are both present
    and not 0, the map centre is the fixed default. Otherwise each
    coordinate of the centre is the mean over those records, so it lies
    within any bounds that hold for all of them: the centre is inside
    their bounding box. *)
Theorem map_center_within_bounds (tracks : list (list TrackRecord))
    (west east south north : Q) :
  let used := filter hasPosition (List.concat tracks) in
  (used = [] -> calculateCenter tracks = defaultCenter) /\
  (used <> [] ->
   (forall r, In r used ->
      west <= num (positionLong r) <= east /\
      south <= num (positionLat r) <= north) ->
   west <= fst (calculateCenter tracks) <= east /\
   south <= snd (calculateCenter tracks) <= north).
Proof.
  intro used. unfold calculateCenter. fold used. split.
  - intros ->. reflexivity.
  - intros Hne Hbox.
    destruct used as [|u us] eqn:Hu; [contradiction|].
    change (List.length (u :: us) =? 0)%nat with false. cbv iota.
    cbn [fst snd]. rewrite !fold_left_sum, !Qplus_0_l.
    unfold orZero. split.
    + apply (mean_map_bounds (fun r => num (positionLong r))); [discriminate|].
      intros r Hr. apply (Hbox r Hr).
    + apply (mean_map_bounds (fun r => num (positionLat r))); [discriminate|].
      intros r Hr. apply (Hbox r Hr).
Qed.

(* ------------------------------------------------------------------ *)
(** ** Zone shares *)

Lemma zoneTotal_sum (zones : ZoneTimes) :
  zoneTotal zones
  == zt_zone1 zones + zt_zone2 zones + zt_zone3 zones + zt_zone4 zones
     + zt_zone5 zones.
Proof.
  unfold zoneTotal, ZONE_KEYS. cbn [fold_left zoneTime]. ring.
Qed.

Lemma share_range (z t : Q) :
  0 <= z -> z <= t -> 0 < t -> 0 <= z / t * 100 <= 100.
Proof.
  intros Hz Hzt Ht.
  assert (H0 : 0 <= z / t).
  { unfold Qdiv. apply Qmult_le_0_compat; [assumption|].
    apply Qinv_le_0_compat. lra. }
  assert (H1 : z / t <= 1) by (apply Qle_shift_div_r; lra).
  set (q := z / t) in *. lra.
Qed.

Lemma shares_sum (z1 z2 z3 z4 z5 t : Q) :
  ~ t == 0 -> t == z1 + z2 + z3 + z4 + z5 ->
  z1 / t * 100 + (z2 / t * 100 + (z3 / t * 100
    + (z4 / t * 100 + (z5 / t * 100 + 0)))) == 100.
Proof.
  intros Ht E.
  assert (H : z1 / t * 100 + (z2 / t * 100 + (z3 / t * 100
                + (z4 / t * 100 + (z5 / t * 100 + 0))))
              == (z1 + z2 + z3 + z4 + z5) / t * 100) by (field; exact Ht).
  rewrite H, <- E. field. exact Ht.
Qed.

Lemma zonePercentage_shares (zones : ZoneTimes) :
  (forall key, 0 <= zoneTime zones key) ->
  0 < zoneTotal zones ->
  sumQ (percentages zones) == 100 /\
  forall key, 0 <= zonePercentage zones key <= 100.
Proof.
  intros Hnn Hpos.
  pose proof (zoneTotal_sum zones) as Ht.
  assert (E : Qltb 0 (zoneTotal zones) = true) by (now apply Qltb_true).
  split.
  - unfold percentages, ZONE_KEYS, zonePercentage. rewrite E.
    cbn [map sumQ fold_right zoneTime].
    apply shares_sum; [lra|exact Ht].
  - intro key. unfold zonePercentage. rewrite E.
    apply share_range; [apply Hnn| |exact Hpos].
    pose proof (Hnn zone1). pose proof (Hnn zone2). pose proof (Hnn zone3).
    pose proof (Hnn zone4). pose proof (Hnn zone5).
    destruct key; simpl in *; lra.
Qed.

(** X15. When no zone time is negative and their total is positive, the
    five zone percentages of the breakdown card add up to 100 and each
    lies between 0 and 100. *)
Theorem zone_percentages_sum_to_100 (zones : ZoneTimes) :
  (forall key, 0 <= zoneTime zones key) ->
  0 < zoneTotal zones ->
  sumQ (percentages zones) == 100 /\
  forall key, 0 <= zonePercentage zones key <= 100.
Proof. exact (zonePercentage_shares zones). Qed.

Lemma Qmax_cases (a b : Q) : Qmax a b = a \/ Qmax a b = b.
Proof.
  unfold Qmax, GenericMinMax.gmax. destruct (a ?= b); auto.
Qed.

Lemma Qmin_cases (a b : Q) : Qmin a b = a \/ Qmin a b = b.
Proof.
  unfold Qmin, GenericMinMax.gmin. destruct (a ?= b); auto.
Qed.

(** [Math.max] over a non-empty list is one of its elements and bounds
    them all. *)
Lemma mathMaxOf_spec (rest : list Q) :
  forall x, In (mathMaxOf x rest) (x :: rest) /\
            forall y, In y (x :: rest) -> y <= mathMaxOf x rest.
Proof.
  unfold mathMaxOf.
  induction rest as [|r rest IH]; intro x; simpl.
  - split; [now left|]. intros y [<-|[]]. lra.
  - destruct (IH (Qmax x r)) as [Hin Hub]. split.
    + destruct Hin as [Hin|Hin]; [|now right; right].
      rewrite <- Hin. destruct (Qmax_cases x r) as [->| ->]; auto.
    + intros y Hy.
      assert (Hm : Qmax x r <= fold_left Qmax rest (Qmax x r))
        by (apply Hub; now left).
      pose proof (Q.le_max_l x r). pose proof (Q.le_max_r x r).
      destruct Hy as [<-|[<-|Hy]]; try lra.
      apply Hub. now right.
Qed.

Lemma mathMinOf_spec (rest : list Q) :
  forall x, In (mathMinOf x rest) (x :: rest) /\
            forall y, In y (x :: rest) -> mathMinOf x rest <= y.
Proof.
  unfold mathMinOf.
  induction rest as [|r rest IH]; intro x; simpl.
  - split; [now left|]. intros y [<-|[]]. lra.
  - destruct (IH (Qmin x r)) as [Hin Hlb]. split.
    + destruct Hin as [Hin|Hin]; [|now right; right].
      rewrite <- Hin. destruct (Qmin_cases x r) as [->| ->]; auto.
    + intros y Hy.
      assert (Hm : fold_left Qmin rest (Qmin x r) <= Qmin x r)
        by (apply Hlb; now left).
      pose proof (Q.le_min_l x r). pose proof (Q.le_min_r x r).
      destruct Hy as [<-|[<-|Hy]]; try lra.
      apply Hlb. now right.
Qed.

(** X16. Under the same conditions the widths of the stacked view, each
    share divided by the largest share, lie between 0 and 100, and some
    zone has width 100. *)
Theorem stacked_widths_scaled_to_largest (zones : ZoneTimes) :
  (forall key, 0 <= zoneTime zones key) ->
  0 < zoneTotal zones ->
  (forall key, 0 <= scaledWidth zones key <= 100) /\
  exists key, scaledWidth zones key == 100.
Proof.
  intros Hnn Hpos.
  destruct (zonePercentage_shares zones Hnn Hpos) as [Hsum Hrange].
  set (others := map (zonePercentage zones) [zone2; zone3; zone4; zone5]).
  destruct (mathMaxOf_spec others (zonePercentage zones zone1)) as [Hin Hub].
  fold (maxPercentage zones) in Hin, Hub.
  assert (Hall : forall key, zonePercentage zones key <= maxPercentage zones).
  { intro key. apply Hub. unfold others. destruct key; simpl; auto 6. }
  assert (Hmax : 0 < maxPercentage zones).
  { unfold percentages, ZONE_KEYS in Hsum. cbn [map sumQ fold_right] in Hsum.
    pose proof (Hall zone1). pose proof (Hall zone2). pose proof (Hall zone3).
    pose proof (Hall zone4). pose proof (Hall zone5). lra. }
  assert (E : Qltb 0 (maxPercentage zones) = true) by (now apply Qltb_true).
  split.
  - intro key. unfold scaledWidth. rewrite E.
    apply share_range; [apply Hrange|apply Hall|exact Hmax].
  - assert (Hkey : exists key, zonePercentage zones key = maxPercentage zones).
    { unfold others in Hin. simpl in Hin.
      destruct Hin as [H|[H|[H|[H|[H|[]]]]]]; eauto. }
    destruct Hkey as [key Hkey]. exists key.
    unfold scaledWidth. rewrite E, Hkey. field. lra.
Qed.

Lemma sumQ_drop_zero (l : list (Zone * Q)) :
  sumQ (map snd (filter (fun seg => negb (Qeq_bool (snd seg) 0)) l))
  == sumQ (map snd l).
Proof.
  induction l as [|[k w] l IH]; [reflexivity|].
  cbn [filter snd map].
  destruct (Qeq_bool w 0) eqn:E; cbn [negb map snd].
  - apply Qeq_bool_iff in E.
    change (sumQ (w :: map snd l)) with (w + sumQ (map snd l)).
    rewrite IH, E. ring.
  - change (sumQ (w :: map snd l)) with (w + sumQ (map snd l)).
    change (sumQ (w :: map snd
              (filter (fun seg => negb (Qeq_bool (snd seg) 0)) l)))
      with (w + sumQ (map snd
              (filter (fun seg => negb (Qeq_bool (snd seg) 0)) l))).
    rewrite IH. reflexivity.
Qed.

(** X17. The zone bar is empty when the zone times total 0; for any other
    total its segments, one per zone with a non-zero share, have widths
    that add up to 100, and none of them is 0. *)
Theorem zone_bar_fills_width (zones : ZoneTimes) :
  (zoneTotal zones == 0 -> zoneBarSegments zones = []) /\
  (~ zoneTotal zones == 0 ->
   sumQ (map snd (zoneBarSegments zones)) == 100 /\
   Forall (fun seg => ~ snd seg == 0) (zoneBarSegments zones)).
Proof.
  unfold zoneBarSegments. split.
  - intro H. apply Qeq_bool_iff in H. now rewrite H.
  - intro H.
    assert (E : Qeq_bool (zoneTotal zones) 0 = false).
    { destruct (Qeq_bool (zoneTotal zones) 0) eqn:E; [|reflexivity].
      apply Qeq_bool_iff in E. contradiction. }
    rewrite E. split.
    + rewrite sumQ_drop_zero. unfold ZONE_KEYS.
      cbn [map snd sumQ fold_right zoneTime].
      apply shares_sum; [exact H|apply zoneTotal_sum].
    + apply Forall_forall. intros seg Hseg. apply filter_In in Hseg.
      destruct Hseg as [_ Hnz]. apply negb_true_iff in Hnz.
      intro Hz. apply Qeq_bool_iff in Hz. congruence.
Qed.

(** X18. The dominant zone of the detail view has the largest zone time,
    and among zones tied for it the first in zone order wins: every
    earlier zone has strictly less time. *)
Theorem dominant_zone_is_first_maximum (zones : ZoneTimes) :
  forall key,
    zoneTime zones key <= zoneTime zones (dominantZone zones) /\
    ((zoneRank key < zoneRank (dominantZone zones))%nat ->
     zoneTime zones key < zoneTime zones (dominantZone zones)).
Proof.
  intro key. unfold dominantZone, ZONE_KEYS. cbn [fold_left].
  repeat match goal with
  | |- context [Qltb (zoneTime zones ?k1) (zoneTime zones ?k2)] =>
      is_constructor k1; is_constructor k2;
      let E := fresh "E" in
      destruct (Qltb (zoneTime zones k1) (zoneTime zones k2)) eqn:E;
      cbv iota
  end;
  qprop; destruct key; cbn [zoneTime zoneRank] in *;
  (split; [lra|intro Hr; try lia; lra]).
Qed.

(* ------------------------------------------------------------------ *)
(** ** Per-zone heart-rate statistics *)

Lemma sumQ_snoc (l : list Q) (x : Q) : sumQ (l ++ [x]) == sumQ l + x.
Proof.
  induction l as [|y l IH].
  - change (sumQ ([] ++ [x])) with (x + 0). change (sumQ []) with 0. ring.
  - change (sumQ ((y :: l) ++ [x])) with (y + sumQ (l ++ [x])).
    change (sumQ (y :: l)) with (y + sumQ l). rewrite IH. ring.
Qed.

Lemma addHeartRate_summarises (hrs : list Q) (s : ZoneStat) (hr : Q) :
  SummarisesHR hrs s -> SummarisesHR (hrs ++ [hr]) (addHeartRate s hr).
Proof.
  intros (Hc & Hs & Hmin & Hmax & Hnn & Hub).
  unfold SummarisesHR, addHeartRate. cbn [zs_count zs_sumHR zs_minHR zs_maxHR].
  split; [rewrite length_app; simpl; lia|].
  split; [rewrite sumQ_snoc, Hs; reflexivity|].
  split; [|split; [|split]].
  - assert (Hgoal : exists m, Finite (minExt (zs_minHR s) hr) = Finite m /\
                      In m (hrs ++ [hr]) /\
                      forall h, In h (hrs ++ [hr]) -> m <= h).
    { destruct hrs as [|h0 hrs'].
      - rewrite Hmin. simpl. exists hr. split; [reflexivity|].
        split; [now left|]. intros h [<-|[]]. lra.
      - destruct Hmin as (m & Hm & Hin & Hlb). rewrite Hm. simpl minExt.
        exists (Qmin m hr). split; [reflexivity|]. split.
        + apply in_or_app.
          destruct (Qmin_cases m hr) as [->| ->]; [now left|right; now left].
        + intros h Hh. apply in_app_or in Hh.
          pose proof (Q.le_min_l m hr). pose proof (Q.le_min_r m hr).
          destruct Hh as [Hh|[<-|[]]]; [|lra].
          specialize (Hlb h Hh). lra. }
    destruct (hrs ++ [hr]) eqn:E; [now destruct hrs|exact Hgoal].
  - destruct (Qmax_cases (zs_maxHR s) hr) as [->| ->].
    + destruct Hmax as [H|H]; [now left|right]. apply in_or_app. now left.
    + right. apply in_or_app. right. now left.
  - pose proof (Q.le_max_l (zs_maxHR s) hr). lra.
  - intros h Hh. apply in_app_or in Hh.
    pose proof (Q.le_max_l (zs_maxHR s) hr).
    pose proof (Q.le_max_r (zs_maxHR s) hr).
    destruct Hh as [Hh|[<-|[]]]; [|lra].
    specialize (Hub h Hh). lra.
Qed.

Lemma heartRatesIn_app (z : Zone) (l1 l2 : list TrackRecord) :
  heartRatesIn z (l1 ++ l2) = heartRatesIn z l1 ++ heartRatesIn z l2.
Proof.
  induction l1 as [|r l1 IH]; simpl; [reflexivity|].
  destruct (heartRate r); [|exact IH].
  destruct (Zone_eqb (zone r) z); [|exact IH].
  simpl. now rewrite IH.
Qed.

Lemma zoneStats_summarises (records : list TrackRecord) (z : Zone) :
  SummarisesHR (heartRatesIn z records) (zoneStats records z).
Proof.
  induction records as [|r records IH] using rev_ind.
  - unfold zoneStats, SummarisesHR. simpl.
    repeat split; try reflexivity; try lra; try (now left).
    intros h [].
  - unfold zoneStats in *. rewrite fold_left_app, heartRatesIn_app.
    cbn [fold_left heartRatesIn]. unfold aggregateStep.
    destruct (heartRate r) as [hr|]; [|now rewrite app_nil_r].
    unfold setStat.
    destruct (Zone_eqb z (zone r)) eqn:E1; destruct (Zone_eqb (zone r) z) eqn:E2.
    + apply Zone_eqb_eq in E1. subst z. now apply addHeartRate_summarises.
    + apply Zone_eqb_eq in E1. apply Zone_eqb_neq in E2. congruence.
    + apply Zone_eqb_eq in E2. apply Zone_eqb_neq in E1. congruence.
    + now rewrite app_nil_r.
Qed.

Lemma heartRateStats_In records zones totalDuration row :
  In row (heartRateStats records zones totalDuration) ->
  row = zoneRow (zoneStats records) zones totalDuration (row_key row).
Proof.
  intro H. unfold heartRateStats in H. apply in_map_iff in H.
  destruct H as (key & <- & _). reflexivity.
Qed.

(** X19. The table always has the five zone rows in zone order, and a row
    is marked as having data exactly when some record with a heart rate
    carries its zone. *)
Theorem zone_rows_mark_data (records : list TrackRecord) (zones : ZoneTimes)
    (totalDuration : Q) :
  let rows := heartRateStats records zones totalDuration in
  map row_key rows = ZONE_KEYS /\
  forall row, In row rows ->
    (row_hasData row = true <->
     exists r hr, In r records /\ heartRate r = Some hr /\
                  zone r = row_key row).
Proof.
  intro rows. split; [reflexivity|].
  intros row Hrow. rewrite (heartRateStats_In _ _ _ _ Hrow).
  cbn [row_hasData row_key zoneRow].
  set (key := row_key row).
  destruct (zoneStats_summarises records key) as (Hc & _).
  rewrite Hc. clear.
  induction records as [|r records IH]; simpl.
  - split; [discriminate|]. intros (r & hr & [] & _).
  - destruct (heartRate r) as [hr|] eqn:Hhr.
    + destruct (Zone_eqb (zone r) key) eqn:E.
      * split; [|reflexivity]. intros _. exists r, hr.
        apply Zone_eqb_eq in E. auto.
      * apply Zone_eqb_neq in E. rewrite IH. split.
        -- intros (r' & hr' & Hin & H1 & H2). exists r', hr'. auto.
        -- intros (r' & hr' & [<-|Hin] & H1 & H2); [contradiction|].
           exists r', hr'. auto.
    + rewrite IH. split.
      * intros (r' & hr' & Hin & H1 & H2). exists r', hr'. auto.
      * intros (r' & hr' & [<-|Hin] & H1 & H2); [congruence|].
        exists r', hr'. auto.
Qed.

(** X20. In a row with data the minimum is one of the zone's heart rates
    and at most every one of them, and the maximum is at least every one
    of them; the maximum is one of them too unless it is 0, the value the
    running maximum starts from. *)
Theorem zone_row_heart_rate_range (records : list TrackRecord)
    (zones : ZoneTimes) (totalDuration : Q) (row : ZoneRow) :
  In row (heartRateStats records zones totalDuration) ->
  row_hasData row = true ->
  let hrs := heartRatesIn (row_key row) records in
  exists m,
    row_minHR row = Finite m /\
    In m hrs /\
    (forall h, In h hrs -> m <= h <= row_maxHR row) /\
    (row_maxHR row = 0 \/ In (row_maxHR row) hrs).
Proof.
  intros Hrow Hdata hrs. rewrite (heartRateStats_In _ _ _ _ Hrow) in *.
  cbn [row_hasData row_key row_minHR row_maxHR zoneRow] in *.
  set (key := row_key row) in *. rewrite Hdata.
  destruct (zoneStats_summarises records key)
    as (Hc & _ & Hmin & Hmax & _ & Hub).
  fold hrs in Hc, Hmin, Hmax, Hub.
  destruct hrs as [|h0 hrs'] eqn:Eh.
  - rewrite Hc in Hdata. discriminate.
  - destruct Hmin as (m & Hm & Hin & Hlb). exists m.
    repeat split; try assumption; [now apply Hlb|now apply Hub].
Qed.

(** X21. In a row with data the average shown is the mean heart rate of
    the zone rounded to the nearest integer, so it differs from the mean
    by at most one half and lies within one half of any bounds that hold
    for all heart rates of the zone. *)
Theorem zone_row_average (records : list TrackRecord) (zones : ZoneTimes)
    (totalDuration : Q) (row : ZoneRow) (lo hi : Q) :
  In row (heartRateStats records zones totalDuration) ->
  row_hasData row = true ->
  let hrs := heartRatesIn (row_key row) records in
  (forall h, In h hrs -> lo <= h <= hi) ->
  let mean := sumQ hrs / inject_Z (Z.of_nat (List.length hrs)) in
  mean - (1 # 2) < inject_Z (row_avgHR row) <= mean + (1 # 2) /\
  lo - (1 # 2) < inject_Z (row_avgHR row) <= hi + (1 # 2).
Proof.
  intros Hrow Hdata hrs Hbounds mean.
  rewrite (heartRateStats_In _ _ _ _ Hrow) in *.
  cbn [row_hasData row_key row_avgHR zoneRow] in *.
  set (key := row_key row) in *. rewrite Hdata.
  destruct (zoneStats_summarises records key) as (Hc & Hs & _).
  fold hrs in Hc, Hs.
  assert (Hne : hrs <> []).
  { intro E. rewrite E in Hc. rewrite Hc in Hdata. discriminate. }
  assert (Hmean : zs_sumHR (zoneStats records key)
                    / inject_Z (Z.of_nat (zs_count (zoneStats records key)))
                  == mean).
  { unfold mean. rewrite Hc, Hs. reflexivity. }
  unfold mathRound. rewrite Hmean.
  pose proof (Qfloor_le (mean + (1 # 2))) as H1.
  pose proof (Qlt_floor (mean + (1 # 2))) as H2.
  rewrite inject_Z_plus in H2. change (inject_Z 1) with 1 in H2.
  pose proof (mean_bounds lo hi hrs Hne Hbounds) as Hmb. fold mean in Hmb.
  split; split; lra.
Qed.

(** X22. When the total duration is positive and equals the sum of the
    five zone times, the percentages of the table rows add up to 100. *)
Theorem zone_row_percentages_sum (records : list TrackRecord)
    (zones : ZoneTimes) (totalDuration : Q) :
  0 < totalDuration ->
  zoneTotal zones == totalDuration ->
  sumQ (map row_percent (heartRateStats records zones totalDuration)) == 100.
Proof.
  intros Hpos Htot.
  assert (E : Qltb 0 totalDuration = true) by (now apply Qltb_true).
  unfold heartRateStats, ZONE_KEYS. cbn [map row_percent zoneRow].
  rewrite E. cbn [sumQ fold_right zoneTime].
  apply shares_sum; [lra|].
  rewrite <- Htot. apply zoneTotal_sum.
Qed.

(* ------------------------------------------------------------------ *)
(** ** Activity totals *)

Lemma gainLoop_grows (rest : list Q) :
  forall prev gain, gain <= gainLoop prev rest gain.
Proof.
  induction rest as [|alt rest IH]; intros prev gain; simpl; [lra|].
  eapply Qle_trans; [|apply IH].
  destruct (Qltb 0 (alt - prev)) eqn:E; qprop; lra.
Qed.

(** From the sample the loop starts at, every later sample is reached by
    climbing no more than the gain added. *)
Lemma gainLoop_covers_climb (rest : list Q) :
  forall prev gain x,
    In x rest -> x - prev <= gainLoop prev rest gain - gain.
Proof.
  induction rest as [|alt rest IH]; intros prev gain x Hx; [destruct Hx|].
  simpl.
  set (gain' := gain + (if Qltb 0 (alt - prev) then alt - prev else 0)).
  assert (Hg : gain + (alt - prev) <= gain').
  { unfold gain'. destruct (Qltb 0 (alt - prev)) eqn:E; qprop; lra. }
  destruct Hx as [<-|Hx].
  - pose proof (gainLoop_grows rest alt gain'). lra.
  - pose proof (IH alt gain' x Hx). lra.
Qed.

Lemma last_cons_default {A : Type} (l : list A) :
  forall a d, last (a :: l) d = last l a.
Proof.
  induction l as [|b l IH]; intros a d; [reflexivity|].
  change (last (a :: b :: l) d) with (last (b :: l) d).
  now rewrite !IH.
Qed.

Lemma gainLoop_app (l1 l2 : list Q) :
  forall prev gain,
    gainLoop prev (l1 ++ l2) gain
    = gainLoop (last l1 prev) l2 (gainLoop prev l1 gain).
Proof.
  induction l1 as [|a l1 IH]; intros prev gain; [reflexivity|].
  cbn [app gainLoop]. rewrite IH. f_equal.
  now rewrite last_cons_default.
Qed.

Lemma elevationGainOf_cons (first : Q) (rest : list Q) :
  elevationGainOf (first :: rest) = gainLoop first rest 0 \/
  (rest = [] /\ elevationGainOf (first :: rest) = 0).
Proof.
  destruct rest as [|a rest]; [right; now split|left; reflexivity].
Qed.

Lemma elevationGainOf_loop (first : Q) (rest : list Q) :
  elevationGainOf (first :: rest) == gainLoop first rest 0.
Proof.
  destruct rest as [|a rest]; reflexivity.
Qed.

(** X23. The elevation gain is never negative, and it is at least the
    climb between any two altitude samples taken in recording order: a
    later altitude minus an earlier one never exceeds it. *)
Theorem elevation_gain_covers_every_climb (records : list TrackRecord) :
  let altitudes := presentValues altitude records in
  0 <= elevationGain records /\
  forall i j a b,
    (i <= j)%nat ->
    nth_error altitudes i = Some a -> nth_error altitudes j = Some b ->
    b - a <= elevationGain records.
Proof.
  intro altitudes. unfold elevationGain. fold altitudes.
  destruct altitudes as [|first rest].
  - split; [unfold elevationGainOf; simpl; lra|].
    intros i j a b _ Ha. now destruct i.
  - pose proof (elevationGainOf_loop first rest) as Hg.
    assert (Hnn : 0 <= gainLoop first rest 0) by apply gainLoop_grows.
    split; [lra|].
    intros i j a b Hij Ha Hb.
    assert (Hmain : b - a <= gainLoop first rest 0); [|lra].
    clear Hg.
    destruct (Nat.eq_dec i j) as [->|Hne].
    { rewrite Ha in Hb. injection Hb as <-. lra. }
    destruct i as [|i].
    + simpl in Ha. injection Ha as <-.
      destruct j as [|j]; [lia|]. simpl in Hb.
      pose proof (gainLoop_covers_climb rest first 0 b
                    (nth_error_In _ _ Hb)). lra.
    + simpl in Ha. destruct j as [|j]; [lia|]. simpl in Hb.
      destruct (nth_error_split rest i Ha) as (l1 & l2 & Hrest & Hlen).
      assert (Hin : In b l2).
      { rewrite Hrest in Hb. rewrite nth_error_app2 in Hb by lia.
        replace (j - List.length l1)%nat
          with (S (j - List.length l1 - 1)) in Hb by lia.
        simpl in Hb. eapply nth_error_In; exact Hb. }
      rewrite Hrest.
      replace (l1 ++ a :: l2) with ((l1 ++ [a]) ++ l2)
        by (now rewrite <- app_assoc).
      rewrite gainLoop_app, last_last.
      pose proof (gainLoop_covers_climb l2 a
                    (gainLoop first (l1 ++ [a]) 0) b Hin).
      pose proof (gainLoop_grows (l1 ++ [a]) first 0). lra.
Qed.

Lemma gainLoop_ascending (rest : list Q) :
  forall prev gain,
    Sorted Qle (prev :: rest) ->
    gainLoop prev rest gain == gain + (last rest prev - prev).
Proof.
  induction rest as [|alt rest IH]; intros prev gain HS; simpl gainLoop.
  - simpl. ring.
  - apply Sorted_inv in HS. destruct HS as [HS Hhd].
    apply HdRel_inv in Hhd.
    rewrite (IH alt _ HS).
    rewrite (last_cons_default rest alt prev).
    destruct (Qltb 0 (alt - prev)) eqn:E; qprop; lra.
Qed.

Lemma gainLoop_descending (rest : list Q) :
  forall prev gain,
    Sorted (fun a b => b <= a) (prev :: rest) -> gainLoop prev rest gain == gain.
Proof.
  induction rest as [|alt rest IH]; intros prev gain HS; simpl gainLoop.
  - reflexivity.
  - apply Sorted_inv in HS. destruct HS as [HS Hhd].
    apply HdRel_inv in Hhd.
    rewrite (IH alt _ HS).
    destruct (Qltb 0 (alt - prev)) eqn:E; qprop; lra.
Qed.

(** X24. On altitudes that never decrease the elevation gain is the last
    altitude minus the first; on altitudes that never increase it is 0. *)
Theorem elevation_gain_on_monotone_profiles (records : list TrackRecord)
    (first : Q) (rest : list Q) :
  presentValues altitude records = first :: rest ->
  (Sorted Qle (first :: rest) ->
   elevationGain records == last rest first - first) /\
  (Sorted (fun a b => b <= a) (first :: rest) -> elevationGain records == 0).
Proof.
  intro Halt. unfold elevationGain. rewrite Halt, elevationGainOf_loop.
  split; intro HS.
  - rewrite (gainLoop_ascending rest first 0 HS). ring.
  - apply (gainLoop_descending rest first 0 HS).
Qed.

(** X25. The minimum and the maximum altitude are absent exactly when no
    record has an altitude; otherwise each is the altitude of some record
    and every recorded altitude lies between them. *)
Theorem altitude_extremes (records : list TrackRecord) :
  let altitudes := presentValues altitude records in
  match minAltitude records, maxAltitude records with
  | Some lo, Some hi =>
      In lo altitudes /\ In hi altitudes /\
      forall a, In a altitudes -> lo <= a <= hi
  | None, None => altitudes = []
  | _, _ => False
  end.
Proof.
  intro altitudes. unfold minAltitude, maxAltitude. fold altitudes.
  destruct altitudes as [|a rest]; [reflexivity|].
  destruct (mathMinOf_spec rest a) as [Hmin Hlb].
  destruct (mathMaxOf_spec rest a) as [Hmax Hub].
  repeat split; try assumption; [now apply Hlb|now apply Hub].
Qed.

(* ------------------------------------------------------------------ *)
(** ** Duration and time labels *)

Lemma Qfloor_unique (x : Q) (z : Z) :
  inject_Z z <= x -> x < inject_Z z + 1 -> Qfloor x = z.
Proof.
  intros Hle Hlt.
  pose proof (Qfloor_le x) as H1. pose proof (Qlt_floor x) as H2.
  rewrite inject_Z_plus in H2. change (inject_Z 1) with 1 in H2.
  assert (Ha : (Qfloor x < z + 1)%Z).
  { rewrite Zlt_Qlt, inject_Z_plus. change (inject_Z 1) with 1. lra. }
  assert (Hb : (z < Qfloor x + 1)%Z).
  { rewrite Zlt_Qlt, inject_Z_plus. change (inject_Z 1) with 1. lra. }
  lia.
Qed.

Lemma Qfloor_bounds (x : Q) :
  inject_Z (Qfloor x) <= x /\ x < inject_Z (Qfloor x) + 1.
Proof.
  split; [apply Qfloor_le|].
  pose proof (Qlt_floor x) as H. rewrite inject_Z_plus in H. exact H.
Qed.

Lemma jsTrunc_nonneg (x : Q) : 0 <= x -> jsTrunc x = Qfloor x.
Proof.
  intro H. unfold jsTrunc.
  destruct (Qltb x 0) eqn:E; [apply Qltb_true in E; lra|reflexivity].
Qed.

Lemma jsRem_nonneg (a b : Q) :
  0 <= a -> 0 < b -> jsRem a b == a - b * inject_Z (Qfloor (a / b)).
Proof.
  intros Ha Hb. unfold jsRem. rewrite jsTrunc_nonneg; [reflexivity|].
  unfold Qdiv. apply Qmult_le_0_compat; [exact Ha|].
  apply Qinv_le_0_compat. lra.
Qed.

(** The three fields of a non-negative number of seconds. *)
Lemma duration_fields (seconds : Q) :
  0 <= seconds ->
  let h := hoursOf seconds in
  let m := minutesOf seconds in
  let s := secsOf seconds in
  inject_Z h * 3600 <= seconds < inject_Z h * 3600 + 3600 /\
  (0 <= h /\ 0 <= m < 60 /\ 0 <= s < 60)%Z /\
  (3600 * h + 60 * m + s = Qfloor seconds)%Z.
Proof.
  intros Hs h m s.
  (* hours *)
  destruct (Qfloor_bounds (seconds / 3600)) as [Hh1 Hh2]. fold (hoursOf seconds) in Hh1, Hh2.
  fold h in Hh1, Hh2.
  change (seconds / 3600) with (seconds * (1 # 3600)) in Hh1, Hh2.
  (* minutes *)
  assert (Er1 : jsRem seconds 3600 == seconds - 3600 * inject_Z h)
    by (apply jsRem_nonneg; [exact Hs|reflexivity]).
  destruct (Qfloor_bounds (jsRem seconds 3600 / 60)) as [Hm1 Hm2].
  fold (minutesOf seconds) in Hm1, Hm2. fold m in Hm1, Hm2.
  change (jsRem seconds 3600 / 60)
    with (jsRem seconds 3600 * (1 # 60)) in Hm1, Hm2.
  rewrite Er1 in Hm1, Hm2.
  (* seconds *)
  set (q := Qfloor (seconds / 60)).
  assert (Er2 : jsRem seconds 60 == seconds - 60 * inject_Z q)
    by (apply jsRem_nonneg; [exact Hs|reflexivity]).
  destruct (Qfloor_bounds (seconds / 60)) as [Hq1 Hq2]. fold q in Hq1, Hq2.
  change (seconds / 60) with (seconds * (1 # 60)) in Hq1, Hq2.
  destruct (Qfloor_bounds (jsRem seconds 60)) as [Hs1 Hs2].
  fold (secsOf seconds) in Hs1, Hs2. fold s in Hs1, Hs2.
  rewrite Er2 in Hs1, Hs2.
  (* integer consequences *)
  clearbody h m s q. clear Er1 Er2.
  assert (Zh : (0 <= h)%Z).
  { assert (H : (-1 < h)%Z); [|lia].
    rewrite Zlt_Qlt. change (inject_Z (-1)) with (- (1)). lra. }
  assert (Zm : (0 <= m < 60)%Z).
  { split.
    - assert (H : (-1 < m)%Z); [|lia].
      rewrite Zlt_Qlt. change (inject_Z (-1)) with (- (1)). lra.
    - rewrite Zlt_Qlt. change (inject_Z 60) with 60. lra. }
  assert (Zs : (0 <= s < 60)%Z).
  { split.
    - assert (H : (-1 < s)%Z); [|lia].
      rewrite Zlt_Qlt. change (inject_Z (-1)) with (- (1)). lra.
    - rewrite Zlt_Qlt. change (inject_Z 60) with 60. lra. }
  assert (Zq : (60 * h + m = q)%Z).
  { assert (H1 : (60 * h + m < q + 1)%Z).
    { rewrite Zlt_Qlt, !inject_Z_plus, inject_Z_mult.
      change (inject_Z 60) with 60. change (inject_Z 1) with 1. lra. }
    assert (H2 : (q < 60 * h + m + 1)%Z).
    { rewrite Zlt_Qlt, !inject_Z_plus, inject_Z_mult.
      change (inject_Z 60) with 60. change (inject_Z 1) with 1. lra. }
    lia. }
  split; [split; lra|]. split; [tauto|].
  symmetry. apply Qfloor_unique.
  - rewrite !inject_Z_plus, !inject_Z_mult.
    change (inject_Z 3600) with 3600. change (inject_Z 60) with 60.
    assert (Eq : inject_Z q == 60 * inject_Z h + inject_Z m).
    { rewrite <- Zq, inject_Z_plus, inject_Z_mult. reflexivity. }
    lra.
  - rewrite !inject_Z_plus, !inject_Z_mult.
    change (inject_Z 3600) with 3600. change (inject_Z 60) with 60.
    assert (Eq : inject_Z q == 60 * inject_Z h + inject_Z m).
    { rewrite <- Zq, inject_Z_plus, inject_Z_mult. reflexivity. }
    lra.
Qed.

(** X26. For a non-negative number of seconds the hours, minutes and
    seconds fields are non-negative, minutes and seconds stay below 60,
    and 3600 * hours + 60 * minutes + seconds is the whole number of
    seconds. From one hour on the label shows hours and minutes only,
    from one minute on minutes and seconds, below that the whole seconds
    alone. *)
Theorem format_duration_fields (seconds : Q) :
  0 <= seconds ->
  let h := hoursOf seconds in
  let m := minutesOf seconds in
  let s := secsOf seconds in
  (0 <= h /\ 0 <= m < 60 /\ 0 <= s < 60)%Z /\
  (3600 * h + 60 * m + s = Qfloor seconds)%Z /\
  (3600 <= seconds ->
   formatDuration seconds
   = (intToString h ++ "h " ++ intToString m ++ "m")%string) /\
  (60 <= seconds -> seconds < 3600 ->
   formatDuration seconds
   = (intToString m ++ "m " ++ intToString s ++ "s")%string) /\
  (seconds < 60 ->
   formatDuration seconds = (intToString (Qfloor seconds) ++ "s")%string).
Proof.
  intros Hs h m s.
  destruct (duration_fields seconds Hs) as (Hh & Hz & Hsum).
  fold h m s in Hh, Hz, Hsum.
  destruct (Qfloor_bounds seconds) as [Hf1 Hf2].
  split; [exact Hz|]. split; [exact Hsum|].
  unfold formatDuration. fold h m s.
  clearbody h m s.
  assert (Hh0 : seconds < 3600 -> h = 0%Z).
  { intro Hlt. assert (H : (h < 1)%Z); [|lia].
    rewrite Zlt_Qlt. change (inject_Z 1) with 1. lra. }
  split; [|split].
  - intro Hge. assert (H : (0 < h)%Z).
    { rewrite Zlt_Qlt. change (inject_Z 0) with 0. lra. }
    apply Z.ltb_lt in H. now rewrite H.
  - intros Hge Hlt. rewrite (Hh0 Hlt). simpl Z.ltb. cbv iota.
    assert (H : (0 < m)%Z).
    { assert (H59 : (59 < Qfloor seconds)%Z).
      { rewrite Zlt_Qlt. change (inject_Z 59) with 59. lra. }
      rewrite (Hh0 Hlt) in Hsum. lia. }
    apply Z.ltb_lt in H. now rewrite H.
  - intro Hlt. rewrite (Hh0 ltac:(lra)). simpl Z.ltb. cbv iota.
    assert (H60 : (Qfloor seconds < 60)%Z).
    { rewrite Zlt_Qlt. change (inject_Z 60) with 60. lra. }
    rewrite (Hh0 ltac:(lra)) in Hsum.
    assert (Hm0 : m = 0%Z) by lia.
    rewrite Hm0. simpl Z.ltb. cbv iota.
    assert (Es : s = Qfloor seconds) by lia.
    now rewrite Es.
Qed.

Lemma padStart2_length (z : Z) :
  (0 <= z < 100)%Z -> String.length (padStart2 (intToString z)) = 2%nat.
Proof.
  intro Hz.
  assert (Hall : forallb
            (fun n => (String.length (padStart2 (intToString (Z.of_nat n)))
                       =? 2)%nat) (seq 0 100) = true)
    by (vm_compute; reflexivity).
  rewrite forallb_forall in Hall.
  specialize (Hall (Z.to_nat z)).
  rewrite Z2Nat.id in Hall by lia.
  apply Nat.eqb_eq. apply Hall. apply in_seq. lia.
Qed.

(** X27. For a non-negative number of seconds the chart's time label ends
    in a seconds field of exactly two characters; from one hour on it is
    hours, a two-character minutes field and the seconds field, below one
    hour the minutes and the seconds field. *)
Theorem format_time_two_digit_fields (seconds : Q) :
  0 <= seconds ->
  exists mm ss,
    mm = padStart2 (intToString (minutesOf seconds)) /\
    ss = padStart2 (intToString (secsOf seconds)) /\
    String.length mm = 2%nat /\ String.length ss = 2%nat /\
    (3600 <= seconds ->
     formatTime seconds
     = (intToString (hoursOf seconds) ++ ":" ++ mm ++ ":" ++ ss)%string) /\
    (seconds < 3600 ->
     formatTime seconds
     = (intToString (minutesOf seconds) ++ ":" ++ ss)%string).
Proof.
  intro Hs.
  destruct (duration_fields seconds Hs) as (Hh & (Zh & Zm & Zs) & _).
  cbv zeta in Hh.
  eexists. eexists. split; [reflexivity|]. split; [reflexivity|].
  split; [apply padStart2_length; lia|].
  split; [apply padStart2_length; lia|].
  unfold formatTime. split.
  - intro Hge. assert (H : (0 < hoursOf seconds)%Z).
    { rewrite Zlt_Qlt. change (inject_Z 0) with 0. lra. }
    apply Z.ltb_lt in H. now rewrite H.
  - intro Hlt. assert (H : hoursOf seconds = 0%Z).
    { assert (H : (hoursOf seconds < 1)%Z); [|lia].
      rewrite Zlt_Qlt. change (inject_Z 1) with 1. lra. }
    rewrite H. reflexivity.
Qed.

(* ------------------------------------------------------------------ *)
(** ** Week columns of the heatmap *)

Lemma weeksLoop_inv {A : Type} (days : list A) :
  forall weeksArray currentWeek,
    Forall (fun w => List.length w = 7%nat) weeksArray ->
    (List.length currentWeek < 7)%nat ->
    let '(weeks, rest) := weeksLoop days weeksArray currentWeek in
    Forall (fun w => List.length w = 7%nat) weeks /\
    (List.length rest < 7)%nat /\
    List.concat weeks ++ rest
    = List.concat weeksArray ++ currentWeek ++ days.
Proof.
  induction days as [|day days IH]; intros weeksArray currentWeek Hw Hc.
  - simpl. now rewrite app_nil_r.
  - cbn [weeksLoop].
    destruct (Nat.eqb_spec (List.length (currentWeek ++ [day])) 7) as [E|E].
    + specialize (IH (weeksArray ++ [currentWeek ++ [day]]) []).
      destruct (weeksLoop days (weeksArray ++ [currentWeek ++ [day]]) [])
        as [weeks rest].
      destruct IH as (H1 & H2 & H3).
      * apply Forall_app. split; [exact Hw|]. constructor; [exact E|constructor].
      * simpl. lia.
      * repeat split; try assumption.
        rewrite H3, concat_app. simpl.
        now rewrite app_nil_r, <- !app_assoc.
    + specialize (IH weeksArray (currentWeek ++ [day]) Hw).
      destruct (weeksLoop days weeksArray (currentWeek ++ [day]))
        as [weeks rest].
      destruct IH as (H1 & H2 & H3).
      * rewrite length_app in *. simpl in *. lia.
      * repeat split; try assumption.
        now rewrite H3, <- !app_assoc.
Qed.

(** X28. The heatmap's week columns, read in order, give back the days;
    no column is empty or longer than seven days, and every column except
    possibly the last holds exactly seven. *)
Theorem week_columns_partition_days {A : Type} (days : list A) :
  let weeks := groupWeeks days in
  List.concat weeks = days /\
  Forall (fun w => (0 < List.length w <= 7)%nat) weeks /\
  forall i w,
    (S i < List.length weeks)%nat -> nth_error weeks i = Some w ->
    List.length w = 7%nat.
Proof.
  intro weeks. unfold weeks, groupWeeks.
  pose proof (weeksLoop_inv days [] [] (Forall_nil _)) as H.
  destruct (weeksLoop days [] []) as [full rest].
  destruct H as (H1 & H2 & H3); [simpl; lia|]. simpl in H3.
  destruct (Nat.ltb_spec 0 (List.length rest)) as [Hr|Hr].
  - split; [|split].
    + rewrite concat_app. simpl. now rewrite app_nil_r.
    + apply Forall_app. split.
      * eapply Forall_impl; [|exact H1]. simpl. intros w Hw. lia.
      * constructor; [lia|constructor].
    + intros i w Hi Hn. rewrite length_app in Hi. simpl in Hi.
      rewrite nth_error_app1 in Hn by lia.
      rewrite Forall_forall in H1. apply H1.
      eapply nth_error_In; exact Hn.
  - assert (rest = []) by (destruct rest; [reflexivity|simpl in Hr; lia]).
    subst rest. rewrite app_nil_r in H3.
    split; [exact H3|]. split.
    + eapply Forall_impl; [|exact H1]. simpl. intros w Hw. lia.
    + intros i w _ Hn. rewrite Forall_forall in H1. apply H1.
      eapply nth_error_In; exact Hn.
Qed.

(* ------------------------------------------------------------------ *)
(** ** The further properties at concrete inputs *)

Lemma twinHillSeries_sorted : nonDecreasingTime twinHillSeries.
Proof. apply timeSortedb_sound. vm_compute. reflexivity. Defined.

Lemma emitted_peak_is_local_maximum_witness :
  hillPeaks twinHillSeries = Some twinSummits /\
  exists r,
    nth_error (validRecords twinHillSeries) 12 = Some r /\
    num (altitude r) <= 100.
Proof.
  assert (H : hillPeaks twinHillSeries = Some twinSummits)
    by (vm_compute; reflexivity).
  split; [exact H|].
  exists (point 120 360 90 158 3).
  assert (Hr : nth_error (validRecords twinHillSeries) 12
               = Some (point 120 360 90 158 3)) by (vm_compute; reflexivity).
  split; [exact Hr|].
  apply (emitted_peak_is_local_maximum twinHillSeries twinSummits
           (mkHillPeak 10 100 100 160 (Some 154) (Some 148) (Some 130)
              (Some 6) (Some 12) (Some 30) 0.300)
           twinHillSeries_sorted H (or_introl eq_refl) 12%nat _ Hr).
  vm_compute. discriminate.
Defined.

Lemma emitted_peaks_span_witness :
  hillPeaks twinHillSeries = Some twinSummits /\
  120 * inject_Z (Z.of_nat (List.length twinSummits - 1)) <= 450 - 100.
Proof.
  assert (H : hillPeaks twinHillSeries = Some twinSummits)
    by (vm_compute; reflexivity).
  split; [exact H|].
  exact (emitted_peaks_span twinHillSeries twinSummits
           (mkHillPeak 10 100 100 160 (Some 154) (Some 148) (Some 130)
              (Some 6) (Some 12) (Some 30) 0.300)
           (mkHillPeak 45 450 100 125 (Some 119) (Some 113) (Some 95)
              (Some 6) (Some 12) (Some 30) 1.350)
           H eq_refl eq_refl).
Defined.

Lemma offset_matched_iff_sample_in_tolerance_witness :
  hillPeakOf (validRecords hillSeries) 10 = Some hillSummit /\
  (hp_hr after1min hillSummit <> None <->
   exists j r,
     (10 <= j)%nat /\
     nth_error (validRecords hillSeries) j = Some r /\
     Qabs (elapsedTime r - (hp_elapsedTime hillSummit
                            + offsetSeconds after1min)) <= 15).
Proof.
  assert (H : hillPeakOf (validRecords hillSeries) 10 = Some hillSummit)
    by (vm_compute; reflexivity).
  split; [exact H|].
  exact (offset_matched_iff_sample_in_tolerance hillSeries 10 hillSummit
           after1min hillSeries_sorted H).
Defined.

Lemma vertical_rate_sign_and_limit_witness :
  (7 < List.length (elevationSampled hillSeries))%nat /\
  exists out pt,
    elevationData imperial hillSeries = Some out /\
    nth_error out 7 = Some pt /\
    - vamLimit imperial <= ep_vam pt <= vamLimit imperial.
Proof.
  assert (H : (7 < List.length (elevationSampled hillSeries))%nat)
    by (vm_compute; lia).
  split; [exact H|].
  destruct (vertical_rate_sign_and_limit imperial hillSeries 7 H)
    as (out & pt & startP & endP & H1 & H2 & _ & _ & H3 & _).
  exists out, pt. split; [exact H1|]. split; [exact H2|exact H3].
Defined.

Lemma stationary_window_reports_zero_witness :
  (1 < List.length (paceSampled restStop))%nat /\
  exists pt,
    nth_error (paceData metric restStop) 1 = Some pt /\
    pp_rawSpeed pt = 0 /\ pp_pace pt = 0.
Proof.
  assert (H : (1 < List.length (paceSampled restStop))%nat)
    by (vm_compute; lia).
  split; [exact H|].
  apply (stationary_window_reports_zero metric restStop 1 H).
  intros j r _ Hr.
  assert (Hin : In r (paceSampled restStop))
    by (eapply nth_error_In; exact Hr).
  vm_compute in Hin.
  destruct Hin as [<-|[<-|[<-|[]]]]; reflexivity.
Defined.

Lemma pace_decreases_with_speed_witness :
  In (mkPacePoint 0.000 (Some 140) (1000 # 180) 3)
     (paceData metric stopAndGo) /\
  0 < pp_pace (mkPacePoint 0.000 (Some 140) (1000 # 180) 3).
Proof.
  assert (H : In (mkPacePoint 0.000 (Some 140) (1000 # 180) 3)
                (paceData metric stopAndGo))
    by (vm_compute; left; reflexivity).
  split; [exact H|].
  apply (pace_decreases_with_speed metric stopAndGo _ _ H H).
  - vm_compute. reflexivity.
  - vm_compute. discriminate.
Defined.

Lemma group_by_zone_counts_changes_witness :
  map toChartPoint zonedRecords <> [] /\
  List.length (groupByZone (map toChartPoint zonedRecords)) = 3%nat.
Proof.
  assert (H : map toChartPoint zonedRecords <> []) by discriminate.
  split; [exact H|].
  exact (group_by_zone_counts_changes (map toChartPoint zonedRecords) H).
Defined.

Lemma group_by_zone_segments_witness :
  map toChartPoint zonedRecords <> [] /\
  exists closed final,
    groupByZone (map toChartPoint zonedRecords) = closed ++ [final] /\
    Forall ClosedSegment closed /\ OpenSegment final.
Proof.
  assert (H : map toChartPoint zonedRecords <> []) by discriminate.
  split; [exact H|].
  destruct (group_by_zone_segments (map toChartPoint zonedRecords) H)
    as (closed & final & H1 & H2 & H3 & _).
  exists closed, final. split; [exact H1|]. split; [exact H2|exact H3].
Defined.

Lemma zonedTimes_nonneg : forall key, 0 <= zoneTime zonedTimes key.
Proof. intros []; vm_compute; discriminate. Defined.

Lemma zonedTimes_total : 0 < zoneTotal zonedTimes.
Proof. vm_compute. reflexivity. Defined.

Lemma zone_percentages_sum_to_100_witness :
  sumQ (percentages zonedTimes) == 100 /\
  forall key, 0 <= zonePercentage zonedTimes key <= 100.
Proof.
  exact (zone_percentages_sum_to_100 zonedTimes zonedTimes_nonneg
           zonedTimes_total).
Defined.

Lemma stacked_widths_scaled_to_largest_witness :
  (forall key, 0 <= scaledWidth zonedTimes key <= 100) /\
  exists key, scaledWidth zonedTimes key == 100.
Proof.
  exact (stacked_widths_scaled_to_largest zonedTimes zonedTimes_nonneg
           zonedTimes_total).
Defined.

Lemma zone_row_heart_rate_range_witness :
  In (zoneRow (zoneStats zonedRecords) zonedTimes 2100 zone2)
     (heartRateStats zonedRecords zonedTimes 2100) /\
  exists m,
    row_minHR (zoneRow (zoneStats zonedRecords) zonedTimes 2100 zone2)
      = Finite m /\
    In m (heartRatesIn zone2 zonedRecords).
Proof.
  assert (H : In (zoneRow (zoneStats zonedRecords) zonedTimes 2100 zone2)
                (heartRateStats zonedRecords zonedTimes 2100))
    by (right; left; reflexivity).
  split; [exact H|].
  destruct (zone_row_heart_rate_range zonedRecords zonedTimes 2100 _ H
              eq_refl) as (m & H1 & H2 & _).
  exists m. split; assumption.
Defined.

Lemma zone_row_average_witness :
  In (zoneRow (zoneStats zonedRecords) zonedTimes 2100 zone2)
     (heartRateStats zonedRecords zonedTimes 2100) /\
  130 - (1 # 2)
  < inject_Z (row_avgHR (zoneRow (zoneStats zonedRecords) zonedTimes 2100
                           zone2))
  <= 135 + (1 # 2).
Proof.
  assert (H : In (zoneRow (zoneStats zonedRecords) zonedTimes 2100 zone2)
                (heartRateStats zonedRecords zonedTimes 2100))
    by (right; left; reflexivity).
  split; [exact H|].
  refine (proj2 (zone_row_average zonedRecords zonedTimes 2100 _ 130 135 H
                   eq_refl _)).
  intros h Hh. vm_compute in Hh.
  destruct Hh as [<-|[<-|[]]]; split; vm_compute; discriminate.
Defined.

Lemma zone_row_percentages_sum_witness :
  zoneTotal zonedTimes == 2100 /\
  sumQ (map row_percent (heartRateStats zonedRecords zonedTimes 2100)) == 100.
Proof.
  assert (H : zoneTotal zonedTimes == 2100) by (vm_compute; reflexivity).
  split; [exact H|].
  apply (zone_row_percentages_sum zonedRecords zonedTimes 2100);
    [vm_compute; reflexivity|exact H].
Defined.

Lemma elevation_gain_on_monotone_profiles_witness :
  presentValues altitude fiveRecords = [10; 11; 12; 13; 14] /\
  elevationGain fiveRecords == 14 - 10.
Proof.
  assert (H : presentValues altitude fiveRecords = [10; 11; 12; 13; 14])
    by reflexivity.
  split; [exact H|].
  apply (proj1 (elevation_gain_on_monotone_profiles fiveRecords 10
                  [11; 12; 13; 14] H)).
  repeat constructor; vm_compute; discriminate.
Defined.

Lemma format_duration_fields_witness :
  0 <= 3725 /\ formatDuration 3725 = "1h 2m"%string.
Proof.
  assert (H : 0 <= 3725) by (vm_compute; discriminate).
  split; [exact H|].
  destruct (format_duration_fields 3725 H) as (_ & _ & Hh & _).
  rewrite Hh; [reflexivity|]. vm_compute. discriminate.
Defined.

Lemma format_time_two_digit_fields_witness :
  0 <= 3725 /\ formatTime 3725 = "1:02:05"%string.
Proof.
  assert (H : 0 <= 3725) by (vm_compute; discriminate).
  split; [exact H|].
  destruct (format_time_two_digit_fields 3725 H)
    as (mm & ss & -> & -> & _ & _ & Hh & _).
  rewrite Hh; [reflexivity|]. vm_compute. discriminate.
Defined.
